(** * Crane: the reaction-network parser of [ChemicalReactionsBase]

    A shallow embedding of the constructor
    [ChemicalReactionsBase::ChemicalReactionsBase] (the block of
    [src/include/auxkernels/SuperelasticRateCoefficientScalar.h] that holds
    ChemicalReactionsBase.C), followed by the properties of the parsed
    network that the specification states.

    Conventions of the embedding.
    - [std::string] is [string]; a position is a [size_t], kept as a [Z] in
      [0, 2^64) with the wrap-around written out ([wrap]); [npos] is
      [2^64 - 1].
    - [std::vector<T>] is [list T]; [v[i]] is [v !! i]; an index past the
      end is undefined behaviour in C++ and stops the model with
      [Undefined]; [mooseError] stops it with [MooseError]; an exception
      nobody catches stops it with [StdExcept].
    - [Real] (a C++ double) is abstract: the operations the constructor uses
      are the fields of [RealOps]. Counters that only ever hold small
      integers ([_species_count], the stoichiometric coefficients, the
      particle sums) are [Z].
    - A loop whose body reads and writes only row [i] of vectors that were
      sized by the same bound is a map over the rows; a loop whose index is
      computed ([lumped_index], [new_index], the result of [std::find], the
      bound [_num_eedf_reactions]) keeps its indices.
    - The vectors that only hold generated names ([_aux_var_name],
      [_reaction_coefficient_name]) and the counters of reactions per rate
      type other than [_num_eedf_reactions] are left out. *)

From Stdlib Require Import ZArith QArith List String Ascii Bool Lia DecimalString
  OrderedTypeEx.
From stdpp Require Import base list strings.

Local Open Scope string_scope.
Local Open Scope Z_scope.

(** ** Outcomes of the constructor *)

Inductive failure : Type :=
| MooseError (msg : string)
| StdExcept (what : string)
| Undefined (what : string).

Definition result (A : Type) : Type := (failure + A)%type.

Definition ret {A : Type} (a : A) : result A := inr a.

Definition bind {A B : Type} (m : result A) (k : A -> result B) : result B :=
  match m with
  | inl e => inl e
  | inr a => k a
  end.

Notation "'let*' x ':=' m 'in' k" := (bind m (fun x => k))
  (at level 10, x name, m at level 100, k at level 200).

Fixpoint mapM {A B : Type} (f : A -> result B) (l : list A) : result (list B) :=
  match l with
  | [] => ret []
  | a :: l' => let* b := f a in let* bs := mapM f l' in ret (b :: bs)
  end.

Fixpoint foldM {A St : Type} (f : St -> A -> result St) (l : list A) (s : St)
  : result St :=
  match l with
  | [] => ret s
  | a :: l' => let* s' := f s a in foldM f l' s'
  end.

(** [v[i]] and [v[i] = x] on a [std::vector]. *)
Definition at_ {A : Type} (what : string) (v : list A) (i : nat) : result A :=
  match v !! i with
  | Some x => ret x
  | None => inl (Undefined what)
  end.

Definition assign {A : Type} (what : string) (v : list A) (i : nat) (x : A)
  : result (list A) :=
  if decide (i < length v)%nat then ret (<[i := x]> v) else inl (Undefined what).

(** An [int] used as an index: a negative one is past the end as well. *)
Definition at_Z {A : Type} (what : string) (v : list A) (i : Z) : result A :=
  if decide (0 <= i) then at_ what v (Z.to_nat i) else inl (Undefined what).

Definition assign_Z {A : Type} (what : string) (v : list A) (i : Z) (x : A)
  : result (list A) :=
  if decide (0 <= i) then assign what v (Z.to_nat i) x else inl (Undefined what).

(** ** The C++ library calls the constructor makes *)

Module Cxx.

Definition npos : Z := 2 ^ 64 - 1.

Definition wrap (z : Z) : Z := z mod 2 ^ 64.

Definition nl : string := String "010" "".

Definition isspace (c : ascii) : bool :=
  match c with
  | " "%char | "009"%char | "010"%char | "011"%char | "012"%char
  | "013"%char => true
  | _ => false
  end.

Fixpoint index_of (c : ascii) (s : string) : option nat :=
  match s with
  | EmptyString => None
  | String a s' => if Ascii.eqb a c then Some O else S <$> index_of c s'
  end.

(** [s.find(c)] *)
Definition find (s : string) (c : ascii) : Z :=
  match index_of c s with
  | Some i => Z.of_nat i
  | None => npos
  end.

(** [s.substr(pos, len)]: throws [std::out_of_range] when [pos > size()],
    and otherwise takes [min(len, size() - pos)] characters. *)
Definition substr (s : string) (pos len : Z) : result string :=
  let size := Z.of_nat (String.length s) in
  if size <? pos then inl (StdExcept "out_of_range")
  else ret (substring (Z.to_nat pos) (Z.to_nat (Z.min len (size - pos))) s).

(** The tokens that [while (std::getline(in >> std::ws, token, delim))]
    reads from a stream holding [s]: white space is skipped, then
    characters are taken up to the delimiter or the end of the stream. *)
Fixpoint getline_all (delim : ascii) (s : string) : list string :=
  match s with
  | EmptyString => []
  | String c s' =>
      if isspace c then getline_all delim s'
      else
        (fix token (acc r : string) {struct r} : list string :=
           match r with
           | EmptyString => [acc]
           | String d r' =>
               if Ascii.eqb d delim then acc :: getline_all delim r'
               else token (acc +:+ String d "") r'
           end) (String c "") s'
  end.

Fixpoint ltrim (s : string) : string :=
  match s with
  | EmptyString => EmptyString
  | String c s' => if isspace c then ltrim s' else s
  end.

Fixpoint rtrim (s : string) : string :=
  match s with
  | EmptyString => EmptyString
  | String c s' =>
      match rtrim s' with
      | EmptyString => if isspace c then EmptyString else String c EmptyString
      | t => String c t
      end
  end.

(** Modelled from the spec: [trim], declared in ChemicalReactionsBase.h,
    which is not among the sources; the specification calls the stored
    equation text and rate field "trimmed", so [trim(s)] removes the white
    space at both ends of [s] in place. *)
Definition trim (s : string) : string := rtrim (ltrim s).

(** [std::find(v.begin(), v.end(), x) - v.begin()]: the index of the
    first [x], and [v.size()] when there is none. *)
Fixpoint find_index (v : list string) (x : string) : nat :=
  match v with
  | [] => O
  | y :: v' => if String.eqb y x then O else S (find_index v' x)
  end.

(** [std::find(v.begin(), v.end(), x) != v.end()] *)
Definition contains (v : list string) (x : string) : bool :=
  existsb (String.eqb x) v.

(** [std::sort] on strings, which compares them as [operator<] does:
    byte by byte. The sorted sequence does not depend on the algorithm. *)
Fixpoint insert_sorted (x : string) (l : list string) : list string :=
  match l with
  | [] => [x]
  | y :: l' => if String.leb x y then x :: l else y :: insert_sorted x l'
  end.

Definition sort (l : list string) : list string :=
  fold_right insert_sorted [] l.

(** [v.resize(std::unique(v.begin(), v.end()) - v.begin())]: of every run
    of equal neighbours the first is kept. *)
Fixpoint unique (l : list string) : list string :=
  match l with
  | [] => []
  | x :: l' =>
      match l' with
      | [] => [x]
      | y :: _ => if String.eqb x y then unique l' else x :: unique l'
      end
  end.

Inductive stod_result (R : Type) : Type :=
| StodValue (v : R)
| StodInvalidArgument
| StodOutOfRange.
Arguments StodValue {R} v.
Arguments StodInvalidArgument {R}.
Arguments StodOutOfRange {R}.

End Cxx.

Import Cxx.

(** The arithmetic on [Real] that the constructor relies on. *)
Class RealOps (Real : Type) : Type := {
  Real_of_Z : Z -> Real;          (* the conversion of an integer *)
  NaN : Real;
  Ropp : Real -> Real;
  Rmul : Real -> Real -> Real;
  Rpow : Real -> Real -> Real;    (* std::pow *)
  avogadro : Real;                (* the literal 6.022e23 *)
  stod : string -> stod_result Real;
  stringify : Real -> string      (* Moose::stringify *)
}.

(** ** The configuration

    What [getParam] and [isParamValid] see. An optional parameter that the
    input file does not set is [None]; [getParam] then yields the value the
    parameter was declared with, an empty string or an empty vector. *)

Record InputParameters (Real : Type) : Type := {
  species : list string;
  aux_species : option (list string);
  electron_density : option string;
  electron_energy : option (list string);
  gas_energy : option (list string);
  reactions : string;
  use_bolsig : bool;
  include_electrons : bool;
  lumped_species : bool;
  lumped : option (list string);
  lumped_name : option string;
  balance_check : bool;
  num_particles : option (list Z);
  convert_to_moles : bool;
  convert_to_meters : Real;
  file_location : string;
  interpolation_type : string
}.

Arguments species {Real} _.
Arguments aux_species {Real} _.
Arguments electron_density {Real} _.
Arguments electron_energy {Real} _.
Arguments gas_energy {Real} _.
Arguments reactions {Real} _.
Arguments use_bolsig {Real} _.
Arguments include_electrons {Real} _.
Arguments lumped_species {Real} _.
Arguments lumped {Real} _.
Arguments lumped_name {Real} _.
Arguments balance_check {Real} _.
Arguments num_particles {Real} _.
Arguments convert_to_moles {Real} _.
Arguments convert_to_meters {Real} _.
Arguments file_location {Real} _.
Arguments interpolation_type {Real} _.

Definition isParamValid {A : Type} (o : option A) : bool :=
  match o with Some _ => true | None => false end.

Definition getParam_string (o : option string) : string := default "" o.

Definition getParam_vector {A : Type} (o : option (list A)) : list A := default [] o.

(** ** The line parser (the [while (std::getline ...)] loop) *)

(** What one accepted line pushes onto the eight vectors of the loop. *)
Record line_fields : Type := {
  lf_reaction : string;
  lf_rate_coefficient_string : string;
  lf_threshold_energy_string : string;
  lf_energy_change : bool;
  lf_rate_equation_string : string;
  lf_rate_equation : bool;
  lf_is_identified : bool;
  lf_reaction_identifier : string
}.

(** [token.find('#') == 0] *)
Definition is_comment (token : string) : bool := find token "#" =? 0.

(** The string pushed onto [rate_coefficient_string], before [trim]. *)
Definition rate_coefficient_field (token : string) : result string :=
  let pos := find token ":" in
  let pos_start := find token "[" in
  let rxn_identifier_start := find token "(" in
  if rxn_identifier_start <? pos_start
  then substr token (wrap (pos + 1)) (wrap (rxn_identifier_start - wrap (pos + 1)))
  else substr token (wrap (pos + 1)) (wrap (pos_start - wrap (pos + 1))).

Definition parse_line (token : string) : result line_fields :=
  let pos := find token ":" in
  let pos_start := find token "[" in
  let pos_end := find token "]" in
  let eq_start := find token "{" in
  let eq_end := find token "}" in
  let rxn_identifier_start := find token "(" in
  let rxn_identifier_end := find token ")" in
  let* reaction := substr token 0 pos in
  let* rate := rate_coefficient_field token in
  let* threshold :=
    if negb (pos_start =? npos)
    then substr token (wrap (pos_start + 1)) (wrap (wrap (pos_end - pos_start) - 1))
    else ret "" in
  let energy_change := negb (pos_start =? npos) in
  let* equation :=
    if negb (eq_start =? npos)
    then substr token (wrap (eq_start + 1)) (wrap (wrap (eq_end - eq_start) - 1))
    else ret "NONE" in
  let rate_equation := negb (eq_start =? npos) in
  let* identifier :=
    if negb (rxn_identifier_start =? npos) && negb rate_equation
    then substr token (wrap (rxn_identifier_start + 1))
           (wrap (wrap (rxn_identifier_end - rxn_identifier_start) - 1))
    else ret "NONE" in
  ret {| lf_reaction := trim reaction;
         lf_rate_coefficient_string := trim rate;
         lf_threshold_energy_string := threshold;
         lf_energy_change := energy_change;
         lf_rate_equation_string := equation;
         lf_rate_equation := rate_equation;
         lf_is_identified := negb (rxn_identifier_start =? npos) && negb rate_equation;
         lf_reaction_identifier := identifier |}.

(** The lines the loop does not skip. *)
Definition reaction_lines (input : string) : list string :=
  List.filter (fun token => negb (is_comment token)) (getline_all "010" input).

Definition parse_lines (input : string) : result (list line_fields) :=
  mapM parse_line (reaction_lines input).

(** ** The rate classifier (the first loop over [_num_reactions]) *)

Record rate_fields (Real : Type) : Type := {
  rf_threshold_energy : Real;
  rf_elastic_collision : bool;
  rf_rate_coefficient : Real;
  rf_rate_type : string
}.
Arguments rf_threshold_energy {Real} _.
Arguments rf_elastic_collision {Real} _.
Arguments rf_rate_coefficient {Real} _.
Arguments rf_rate_type {Real} _.

Definition invalid_rate_message (rate : string) : string :=
  "Rate coefficient '" +:+ rate +:+ "' is invalid! " +:+
  "There are three rate coefficient types that are accepted:" +:+ nl +:+
  "  1. Constant (A + B -> C  : 10)" +:+ nl +:+
  "  2. Equation (A + B -> C  : {1e-4*exp(10)})" +:+ nl +:+
  "  3. EEDF     (A + B -> C  : EEDF)".

Section Classifier.
Context {Real : Type} `{RealOps Real}.

Definition parse_threshold_energy (s : string) : result (Real * bool) :=
  if String.eqb s "" then ret (Real_of_Z 0, false)
  else if String.eqb s "elastic" then ret (Real_of_Z 0, true)
  else match stod s with
       | StodValue v => ret (v, false)
       | StodInvalidArgument => inl (StdExcept "invalid_argument")
       | StodOutOfRange => inl (StdExcept "out_of_range")
       end.

Definition classify_rate (lf : line_fields) : result (rate_fields Real) :=
  let* te := parse_threshold_energy (lf_threshold_energy_string lf) in
  if String.eqb (lf_rate_coefficient_string lf) "EEDF" then
    ret {| rf_threshold_energy := te.1; rf_elastic_collision := te.2;
           rf_rate_coefficient := NaN; rf_rate_type := "EEDF" |}
  else if lf_rate_equation lf then
    ret {| rf_threshold_energy := te.1; rf_elastic_collision := te.2;
           rf_rate_coefficient := NaN; rf_rate_type := "Equation" |}
  else
    match stod (lf_rate_coefficient_string lf) with
    | StodValue v =>
        ret {| rf_threshold_energy := te.1; rf_elastic_collision := te.2;
               rf_rate_coefficient := v; rf_rate_type := "Constant" |}
    | StodInvalidArgument =>
        inl (MooseError (invalid_rate_message (lf_rate_coefficient_string lf)))
    | StodOutOfRange =>
        inl (MooseError ("Argument out of range for a double" +:+ nl))
    end.

End Classifier.

(** ** Reactants and products (the second loop over [_num_reactions]) *)

(** The local variables of the loop over the terms of one equation. *)
Record terms : Type := {
  t_react_check : bool;
  t_reactants : list string;
  t_products : list string;
  t_reversible : bool;          (* _reversible_reaction[i] *)
  t_superelastic : nat;         (* what was added to superelastic_reactions *)
  t_participants : list string  (* what was pushed onto _all_participants *)
}.

Definition terms_init : terms :=
  {| t_react_check := true; t_reactants := []; t_products := [];
     t_reversible := false; t_superelastic := O; t_participants := [] |}.

Definition term_step (t : terms) (token : string) : terms :=
  if String.eqb token "+" then t
  else if String.eqb token "=" || String.eqb token "->" || String.eqb token "=>" then
    {| t_react_check := false; t_reactants := t_reactants t;
       t_products := t_products t; t_reversible := false;
       t_superelastic := t_superelastic t; t_participants := t_participants t |}
  else if String.eqb token "<=>" || String.eqb token "<->" then
    {| t_react_check := false; t_reactants := t_reactants t;
       t_products := t_products t; t_reversible := true;
       t_superelastic := S (t_superelastic t); t_participants := t_participants t |}
  else if t_react_check t then
    {| t_react_check := true; t_reactants := t_reactants t ++ [token];
       t_products := t_products t; t_reversible := t_reversible t;
       t_superelastic := t_superelastic t;
       t_participants := t_participants t ++ [token] |}
  else
    {| t_react_check := false; t_reactants := t_reactants t;
       t_products := t_products t ++ [token]; t_reversible := t_reversible t;
       t_superelastic := t_superelastic t;
       t_participants := t_participants t ++ [token] |}.

Definition split_terms (reaction : string) : terms :=
  fold_left term_step (getline_all " " reaction) terms_init.

(** One pass of the two inner loops that tally a species: every reactant
    equal to it takes one off, every product equal to it adds one. *)
Definition tally_one (sp : string) (reactants products : list string) (c : Z) : Z :=
  fold_left (fun c r => if String.eqb r sp then c + 1 else c) products
    (fold_left (fun c r => if String.eqb r sp then c - 1 else c) reactants c).

(** The index last stored by [_electron_index[..] = k] in the tally loops,
    if the assignment is reached at all. *)
Definition electron_scan (include : bool) (electron : string)
    (tracked reactants : list string) : option nat :=
  fold_left
    (fun hit _ =>
       fold_left
         (fun hit kr =>
            if include && String.eqb kr.2 electron then Some kr.1 else hit)
         (imap pair reactants) hit)
    tracked None.

Section Splitter.
Context {Real : Type} `{RealOps Real}.
Variable p : InputParameters Real.

(** [N_A], set from [convert_to_moles]. *)
Definition N_A : Real := if convert_to_moles p then avogadro else Real_of_Z 1.

(** [exp_factor = _reactants[i].size() - 1]: a [size_t] difference,
    converted to [Real]. *)
Definition exp_factor (reactants : list string) : Real :=
  Real_of_Z (wrap (Z.of_nat (length reactants) - 1)).

Definition conversion (reactants : list string) : Real :=
  Rmul (Rpow N_A (exp_factor reactants))
       (Rpow (convert_to_meters p) (Rmul (Real_of_Z 3) (exp_factor reactants))).

(** The loop over the reactants that flags lumped reactions and collects
    the targets of EEDF reactions. *)
Record flags : Type := {
  fl_reaction_lumped : bool;
  fl_lumped_reaction : list nat;
  fl_reaction_species : list string
}.

Definition flag_step (i : nat) (rate_type : string) (f : flags) (r : string)
  : result flags :=
  if lumped_species p && String.eqb r (getParam_string (lumped_name p)) then
    ret {| fl_reaction_lumped := true;
           fl_lumped_reaction := fl_lumped_reaction f ++ [i];
           fl_reaction_species := fl_reaction_species f |}
  else if String.eqb rate_type "EEDF" && use_bolsig p then
    if negb (isParamValid (electron_density p)) then
      inl (MooseError
        "EEDF reaction selected, but electron_density is not set! Please denote the electron species.")
    else if negb (String.eqb r (getParam_string (electron_density p))) then
      ret {| fl_reaction_lumped := fl_reaction_lumped f;
             fl_lumped_reaction := fl_lumped_reaction f;
             fl_reaction_species := fl_reaction_species f ++ [r] |}
    else ret f
  else ret f.

(** Row [i] of the vectors the loop fills, and what it adds to the
    accumulators of the constructor. *)
Record row : Type := {
  r_reactants : list string;
  r_products : list string;
  r_reversible : bool;
  r_superelastic : nat;
  r_participants : list string;
  r_rate_equation_string : string;
  r_rate_coefficient : Real;
  r_reaction_lumped : bool;
  r_lumped_reaction : list nat;
  r_reaction_species : list string;
  r_species_count : list Z;
  r_electron_index : nat
}.

Definition split_reaction (i : nat) (lf : line_fields) (rf : rate_fields Real)
  : result row :=
  let t := split_terms (lf_reaction lf) in
  let equation :=
    if String.eqb (rf_rate_type rf) "Equation"
    then lf_rate_equation_string lf +:+ "*" +:+ stringify (conversion (t_reactants t))
    else lf_rate_equation_string lf in
  let coefficient :=
    if String.eqb (rf_rate_type rf) "Equation" then rf_rate_coefficient rf
    else if String.eqb (rf_rate_type rf) "Constant"
    then Rmul (rf_rate_coefficient rf) (conversion (t_reactants t))
    else rf_rate_coefficient rf in
  let* f := foldM (flag_step i (rf_rate_type rf)) (t_reactants t)
              {| fl_reaction_lumped := false; fl_lumped_reaction := [];
                 fl_reaction_species := [] |} in
  ret {| r_reactants := t_reactants t;
         r_products := t_products t;
         r_reversible := t_reversible t;
         r_superelastic := t_superelastic t;
         r_participants := t_participants t;
         r_rate_equation_string := equation;
         r_rate_coefficient := coefficient;
         r_reaction_lumped := fl_reaction_lumped f;
         r_lumped_reaction := fl_lumped_reaction f;
         r_reaction_species := fl_reaction_species f;
         r_species_count :=
           map (fun sp => tally_one sp (t_reactants t) (t_products t) 0) (species p);
         r_electron_index :=
           default O (electron_scan (include_electrons p)
                        (getParam_string (electron_density p))
                        (species p) (t_reactants t)) |}.

Fixpoint split_loop (i : nat) (rows : list (line_fields * rate_fields Real))
  : result (list row) :=
  match rows with
  | [] => ret []
  | (lf, rf) :: rows' =>
      let* r := split_reaction i lf rf in
      let* rs := split_loop (S i) rows' in
      ret (r :: rs)
  end.

End Splitter.

(** ** The members of [ChemicalReactionsBase] *)

Record ChemicalReactionsBase (Real : Type) : Type := {
  _num_reactions : nat;
  superelastic_reactions : nat;   (* a local of the constructor *)
  _reaction : list string;
  _rate_equation_string : list string;
  _rate_equation : list bool;
  _energy_change : list bool;
  _is_identified : list bool;
  _reaction_identifier : list string;
  _rate_coefficient : list Real;
  _threshold_energy : list Real;
  _elastic_collision : list bool;
  _rate_type : list string;
  _num_eedf_reactions : nat;
  _reactants : list (list string);
  _products : list (list string);
  _reversible_reaction : list bool;
  _electron_index : list nat;
  _reaction_lumped : list bool;
  _lumped_reaction : list nat;
  _all_participants : list string;
  _reaction_species : list string;
  _num_reactants : list nat;
  _num_products : list nat;
  _species_count : list (list Z);
  _superelastic_index : list nat;
  _superelastic_reaction : list bool;
  _stoichiometric_coeff : list (list Z);
  _reaction_participants : list (list string);
  _reaction_stoichiometric_coeff : list (list Z);
  _species_index : list nat;
  _electron_energy_term : list bool;
  _energy_variable : list string
}.

Arguments _num_reactions {Real} _.
Arguments superelastic_reactions {Real} _.
Arguments _reaction {Real} _.
Arguments _rate_equation_string {Real} _.
Arguments _rate_equation {Real} _.
Arguments _energy_change {Real} _.
Arguments _is_identified {Real} _.
Arguments _reaction_identifier {Real} _.
Arguments _rate_coefficient {Real} _.
Arguments _threshold_energy {Real} _.
Arguments _elastic_collision {Real} _.
Arguments _rate_type {Real} _.
Arguments _num_eedf_reactions {Real} _.
Arguments _reactants {Real} _.
Arguments _products {Real} _.
Arguments _reversible_reaction {Real} _.
Arguments _electron_index {Real} _.
Arguments _reaction_lumped {Real} _.
Arguments _lumped_reaction {Real} _.
Arguments _all_participants {Real} _.
Arguments _reaction_species {Real} _.
Arguments _num_reactants {Real} _.
Arguments _num_products {Real} _.
Arguments _species_count {Real} _.
Arguments _superelastic_index {Real} _.
Arguments _superelastic_reaction {Real} _.
Arguments _stoichiometric_coeff {Real} _.
Arguments _reaction_participants {Real} _.
Arguments _reaction_stoichiometric_coeff {Real} _.
Arguments _species_index {Real} _.
Arguments _electron_energy_term {Real} _.
Arguments _energy_variable {Real} _.

Section Parsed.
Context {Real : Type} `{RealOps Real}.
Variable p : InputParameters Real.

(** The members once the three parsing loops are done. *)
Definition parsed (lfs : list line_fields) (rfs : list (rate_fields Real))
    (rows : list (row (Real := Real))) : ChemicalReactionsBase Real :=
  {| _num_reactions := length lfs;
     superelastic_reactions := sum_list (map r_superelastic rows);
     _reaction := map lf_reaction lfs;
     _rate_equation_string := map r_rate_equation_string rows;
     _rate_equation := map lf_rate_equation lfs;
     _energy_change := map lf_energy_change lfs;
     _is_identified := map lf_is_identified lfs;
     _reaction_identifier := map lf_reaction_identifier lfs;
     _rate_coefficient := map r_rate_coefficient rows;
     _threshold_energy := map rf_threshold_energy rfs;
     _elastic_collision := map rf_elastic_collision rfs;
     _rate_type := map rf_rate_type rfs;
     _num_eedf_reactions :=
       length (List.filter (fun rf => String.eqb (rf_rate_type rf) "EEDF") rfs);
     _reactants := map r_reactants rows;
     _products := map r_products rows;
     _reversible_reaction := map r_reversible rows;
     _electron_index := map r_electron_index rows;
     _reaction_lumped := map r_reaction_lumped rows;
     _lumped_reaction := concat (map r_lumped_reaction rows);
     _all_participants := concat (map r_participants rows);
     _reaction_species := concat (map r_reaction_species rows);
     _num_reactants := map (fun r => length (r_reactants r)) rows;
     _num_products := map (fun r => length (r_products r)) rows;
     _species_count := map r_species_count rows;
     _superelastic_index := [];
     _superelastic_reaction := [];
     _stoichiometric_coeff := [];
     _reaction_participants := [];
     _reaction_stoichiometric_coeff := [];
     _species_index := [];
     _electron_energy_term := [];
     _energy_variable := [] |}.

Definition parse : result (ChemicalReactionsBase Real) :=
  let* lfs := parse_lines (reactions p) in
  let* rfs := mapM classify_rate lfs in
  let* rows := split_loop p O (zip lfs rfs) in
  ret (parsed lfs rfs rows).

End Parsed.

(** ** Lumped species and superelastic reactions *)

(** [dst[j] = src[i]] between two entries of one vector. *)
Definition copy {A : Type} (what : string) (v : list A) (i j : nat) : result (list A) :=
  let* x := at_ what v i in assign what v j x.

Definition substitute (name sp token : string) : string :=
  if String.eqb token name then sp else token.

(** The tally loops run on a row of [_species_count] that already holds
    numbers; the row is only touched for a species that takes part. *)
Definition tally (tracked reactants products : list string) (counts : list Z)
  : result (list Z) :=
  foldM
    (fun counts js =>
       if existsb (fun r => String.eqb r js.2) reactants
          || existsb (fun r => String.eqb r js.2) products
       then let* c := at_ "_species_count[new_index][j]" counts js.1 in
            assign "_species_count[new_index][j]" counts js.1
              (tally_one js.2 reactants products c)
       else ret counts)
    (imap pair tracked) counts.

(** [a + b + c]: the terms with [" + "] between them. *)
Fixpoint join_plus (l : list string) : string :=
  match l with
  | [] => ""
  | [x] => x
  | x :: l' => x +:+ " + " +:+ join_plus l'
  end.

Section Expander.
Context {Real : Type} `{RealOps Real}.
Variable p : InputParameters Real.

(** *** Lumped expansion *)

Record lumped_vectors : Type := {
  lv_reaction : list string;
  lv_rate_coefficient : list Real;
  lv_rate_type : list string;
  lv_rate_equation_string : list string;
  lv_superelastic_reaction : list bool;
  lv_reversible_reaction : list bool;
  lv_reaction_lumped : list bool;
  lv_species_count : list (list Z);
  lv_reactants : list (list string);
  lv_products : list (list string)
}.

(** The body of [while (lumped_counter < _lumped_species.size())], for
    the template [t = _lumped_reaction[i]] and the species
    [sp = _lumped_species[lumped_counter]]. The rows [t] and
    [lumped_index] differ: every entry of [_lumped_reaction] is below
    [old_num]. *)
Definition lumped_body (old_num i t lumped_counter : nat) (sp : string)
    (v : lumped_vectors) : result lumped_vectors :=
  let lumped_index := (old_num + i * length (getParam_vector (lumped p)) + lumped_counter)%nat in
  let name := getParam_string (lumped_name p) in
  let* reaction := copy "_reaction" (lv_reaction v) t lumped_index in
  let* rate_coefficient := copy "_rate_coefficient" (lv_rate_coefficient v) t lumped_index in
  let* rate_type := copy "_rate_type" (lv_rate_type v) t lumped_index in
  let* rate_equation_string :=
    copy "_rate_equation_string" (lv_rate_equation_string v) t lumped_index in
  let* superelastic_reaction :=
    copy "_superelastic_reaction" (lv_superelastic_reaction v) t lumped_index in
  let* reversible_reaction :=
    copy "_reversible_reaction" (lv_reversible_reaction v) t lumped_index in
  let* reaction_lumped :=
    assign "_reaction_lumped" (lv_reaction_lumped v) lumped_index false in
  let* species_count := copy "_species_count" (lv_species_count v) t lumped_index in
  let* template_reactants := at_ "_reactants" (lv_reactants v) t in
  let* new_reactants := at_ "_reactants" (lv_reactants v) lumped_index in
  let* reactants :=
    assign "_reactants" (lv_reactants v) lumped_index
      (new_reactants ++ map (substitute name sp) template_reactants)%list in
  let* template_products := at_ "_products" (lv_products v) t in
  let* new_products := at_ "_products" (lv_products v) lumped_index in
  let* products :=
    assign "_products" (lv_products v) lumped_index
      (new_products ++ map (substitute name sp) template_products)%list in
  ret {| lv_reaction := reaction;
         lv_rate_coefficient := rate_coefficient;
         lv_rate_type := rate_type;
         lv_rate_equation_string := rate_equation_string;
         lv_superelastic_reaction := superelastic_reaction;
         lv_reversible_reaction := reversible_reaction;
         lv_reaction_lumped := reaction_lumped;
         lv_species_count := species_count;
         lv_reactants := reactants;
         lv_products := products |}.

Definition lumped_loop (old_num : nat) (lumped_reaction : list nat)
    (v : lumped_vectors) : result lumped_vectors :=
  foldM
    (fun v it =>
       foldM (fun v cs => lumped_body old_num it.1 it.2 cs.1 cs.2 v)
         (imap pair (getParam_vector (lumped p))) v)
    (imap pair lumped_reaction) v.

Definition lumped_expansion (st : ChemicalReactionsBase Real)
  : result (ChemicalReactionsBase Real) :=
  if lumped_species p then
    let old_num := _num_reactions st in
    let n := (old_num + length (_lumped_reaction st)
                        * length (getParam_vector (lumped p)))%nat in
    let* v := lumped_loop old_num (_lumped_reaction st)
      {| lv_reaction := resize n "" (_reaction st);
         lv_rate_coefficient := resize n (Real_of_Z 0) (_rate_coefficient st);
         lv_rate_type := resize n "" (_rate_type st);
         lv_rate_equation_string := resize n "" (_rate_equation_string st);
         lv_superelastic_reaction := resize n false (_superelastic_reaction st);
         lv_reversible_reaction := resize n false (_reversible_reaction st);
         lv_reaction_lumped := resize n false (_reaction_lumped st);
         lv_species_count := resize n [] (_species_count st);
         lv_reactants := resize n [] (_reactants st);
         lv_products := resize n [] (_products st) |} in
    ret {| _num_reactions := n;
           superelastic_reactions := superelastic_reactions st;
           _reaction := lv_reaction v;
           _rate_equation_string := lv_rate_equation_string v;
           _rate_equation := _rate_equation st;
           _energy_change := _energy_change st;
           _is_identified := _is_identified st;
           _reaction_identifier := _reaction_identifier st;
           _rate_coefficient := lv_rate_coefficient v;
           _threshold_energy := _threshold_energy st;
           _elastic_collision := _elastic_collision st;
           _rate_type := lv_rate_type v;
           _num_eedf_reactions := _num_eedf_reactions st;
           _reactants := lv_reactants v;
           _products := lv_products v;
           _reversible_reaction := lv_reversible_reaction v;
           _electron_index := _electron_index st;
           _reaction_lumped := lv_reaction_lumped v;
           _lumped_reaction := _lumped_reaction st;
           _all_participants := _all_participants st;
           _reaction_species := _reaction_species st;
           _num_reactants := _num_reactants st;
           _num_products := _num_products st;
           _species_count := lv_species_count v;
           _superelastic_index := _superelastic_index st;
           _superelastic_reaction := lv_superelastic_reaction v;
           _stoichiometric_coeff := _stoichiometric_coeff st;
           _reaction_participants := _reaction_participants st;
           _reaction_stoichiometric_coeff := _reaction_stoichiometric_coeff st;
           _species_index := _species_index st;
           _electron_energy_term := _electron_energy_term st;
           _energy_variable := _energy_variable st |}
  else ret st.

End Expander.

Section Superelastic.
Context {Real : Type} `{RealOps Real}.
Variable p : InputParameters Real.

(** *** Superelastic synthesis *)

(** The locals [new_index] and [new_reaction] and the vectors the loop
    writes. *)
Record superelastic_vectors : Type := {
  sv_new_index : Z;
  sv_new_reaction : string;
  sv_superelastic_index : list nat;
  sv_superelastic_reaction : list bool;
  sv_rate_coefficient : list Real;
  sv_threshold_energy : list Real;
  sv_rate_equation : list bool;
  sv_energy_change : list bool;
  sv_reactants : list (list string);
  sv_products : list (list string);
  sv_reaction : list string;
  sv_species_count : list (list Z);
  sv_electron_index : list nat
}.

(** The branch [if (_reversible_reaction[i] == true)]. *)
Definition reverse_reaction (num_products : list nat) (i : nat)
    (v : superelastic_vectors) : result superelastic_vectors :=
  let new_index := sv_new_index v + 1 in
  let* superelastic_index :=
    assign_Z "_superelastic_index" (sv_superelastic_index v) new_index i in
  let* superelastic_reaction :=
    assign_Z "_superelastic_reaction" (sv_superelastic_reaction v) new_index true in
  let* rate_coefficient :=
    assign_Z "_rate_coefficient" (sv_rate_coefficient v) new_index NaN in
  let* energy := at_ "_threshold_energy" (sv_threshold_energy v) i in
  let* threshold_energy :=
    assign_Z "_threshold_energy" (sv_threshold_energy v) new_index (Ropp energy) in
  let* equation := at_ "_rate_equation" (sv_rate_equation v) i in
  let* rate_equation :=
    assign_Z "_rate_equation" (sv_rate_equation v) new_index equation in
  let* change := at_ "_energy_change" (sv_energy_change v) i in
  let* energy_change :=
    assign_Z "_energy_change" (sv_energy_change v) new_index change in
  let* np := at_ "_num_products" num_products i in
  let* products_i := at_ "_products" (sv_products v) i in
  let* taken := mapM (at_ "_products[i][j]" products_i) (seq 0 np) in
  let* new_reactants := at_Z "_reactants" (sv_reactants v) new_index in
  let* reactants :=
    assign_Z "_reactants" (sv_reactants v) new_index (new_reactants ++ taken)%list in
  let* reactants_i := at_ "_reactants" reactants i in
  let* new_products := at_Z "_products" (sv_products v) new_index in
  let* products :=
    assign_Z "_products" (sv_products v) new_index (new_products ++ reactants_i)%list in
  let new_reaction :=
    sv_new_reaction v +:+ join_plus taken +:+ " -> " +:+ join_plus reactants_i in
  ret {| sv_new_index := new_index;
         sv_new_reaction := new_reaction;
         sv_superelastic_index := superelastic_index;
         sv_superelastic_reaction := superelastic_reaction;
         sv_rate_coefficient := rate_coefficient;
         sv_threshold_energy := threshold_energy;
         sv_rate_equation := rate_equation;
         sv_energy_change := energy_change;
         sv_reactants := reactants;
         sv_products := products;
         sv_reaction := (sv_reaction v ++ [new_reaction])%list;
         sv_species_count := sv_species_count v;
         sv_electron_index := sv_electron_index v |}.

(** The block under [// Calculate coefficients]: it follows the branch,
    inside the loop over [i], and works on row [new_index]. *)
Definition recount (v : superelastic_vectors) : result superelastic_vectors :=
  match species p with
  | [] => ret v
  | _ :: _ =>
      let new_index := sv_new_index v in
      let* reactants_new := at_Z "_reactants" (sv_reactants v) new_index in
      let* products_new := at_Z "_products" (sv_products v) new_index in
      let* counts := at_Z "_species_count" (sv_species_count v) new_index in
      let* counts' := tally (species p) reactants_new products_new counts in
      let* species_count :=
        assign_Z "_species_count" (sv_species_count v) new_index counts' in
      let* electron_index :=
        match electron_scan (include_electrons p)
                (getParam_string (electron_density p)) (species p) reactants_new with
        | Some k => assign_Z "_electron_index" (sv_electron_index v) new_index k
        | None => ret (sv_electron_index v)
        end in
      ret {| sv_new_index := sv_new_index v;
             sv_new_reaction := sv_new_reaction v;
             sv_superelastic_index := sv_superelastic_index v;
             sv_superelastic_reaction := sv_superelastic_reaction v;
             sv_rate_coefficient := sv_rate_coefficient v;
             sv_threshold_energy := sv_threshold_energy v;
             sv_rate_equation := sv_rate_equation v;
             sv_energy_change := sv_energy_change v;
             sv_reactants := sv_reactants v;
             sv_products := sv_products v;
             sv_reaction := sv_reaction v;
             sv_species_count := species_count;
             sv_electron_index := electron_index |}
  end.

Definition superelastic_body (reversible : list bool) (num_products : list nat)
    (v : superelastic_vectors) (i : nat) : result superelastic_vectors :=
  let* rev := at_ "_reversible_reaction" reversible i in
  let* v' := if rev : bool then reverse_reaction num_products i v else ret v in
  recount v'.

Definition superelastic_synthesis (st : ChemicalReactionsBase Real)
  : result (ChemicalReactionsBase Real) :=
  let n := _num_reactions st in
  let m := (n + superelastic_reactions st)%nat in
  let v0 :=
    {| sv_new_index := Z.of_nat n - 1;
       sv_new_reaction := "";
       sv_superelastic_index := resize m O (_superelastic_index st);
       sv_superelastic_reaction := resize m false (_superelastic_reaction st);
       sv_rate_coefficient := resize m (Real_of_Z 0) (_rate_coefficient st);
       sv_threshold_energy := resize m (Real_of_Z 0) (_threshold_energy st);
       sv_rate_equation := resize m false (_rate_equation st);
       sv_energy_change := resize m false (_energy_change st);
       sv_reactants :=
         resize (length (_reactants st) + superelastic_reactions st) []
           (_reactants st);
       sv_products :=
         resize (length (_products st) + superelastic_reactions st) []
           (_products st);
       sv_reaction := _reaction st;
       sv_species_count :=
         resize m (replicate (length (species p)) 0) (_species_count st);
       sv_electron_index := _electron_index st |} in
  let* v :=
    if decide (0 < superelastic_reactions st)%nat
    then foldM (superelastic_body (_reversible_reaction st) (_num_products st))
           (seq 0 n) v0
    else ret v0 in
  ret {| _num_reactions := m;
         superelastic_reactions := superelastic_reactions st;
         _reaction := sv_reaction v;
         _rate_equation_string := _rate_equation_string st;
         _rate_equation := sv_rate_equation v;
         _energy_change := sv_energy_change v;
         _is_identified := _is_identified st;
         _reaction_identifier := _reaction_identifier st;
         _rate_coefficient := sv_rate_coefficient v;
         _threshold_energy := sv_threshold_energy v;
         _elastic_collision := _elastic_collision st;
         _rate_type := _rate_type st;
         _num_eedf_reactions := _num_eedf_reactions st;
         _reactants := sv_reactants v;
         _products := sv_products v;
         _reversible_reaction := _reversible_reaction st;
         _electron_index := sv_electron_index v;
         _reaction_lumped := _reaction_lumped st;
         _lumped_reaction := _lumped_reaction st;
         _all_participants := _all_participants st;
         _reaction_species := _reaction_species st;
         _num_reactants := _num_reactants st;
         _num_products := _num_products st;
         _species_count := sv_species_count v;
         _superelastic_index := sv_superelastic_index v;
         _superelastic_reaction := sv_superelastic_reaction v;
         _stoichiometric_coeff := _stoichiometric_coeff st;
         _reaction_participants := _reaction_participants st;
         _reaction_stoichiometric_coeff := _reaction_stoichiometric_coeff st;
         _species_index := _species_index st;
         _electron_energy_term := _electron_energy_term st;
         _energy_variable := _energy_variable st |}.

End Superelastic.

(** ** Stoichiometry, balance and rate files *)

(** Inserting the separators of a [mooseError] argument list is not needed:
    every message is one concatenation. *)
Definition unbalanced_message (faulty_reaction : list string) : string :=
  "The following equations are unbalanced:" +:+ nl +:+
  fold_left (fun error_str eq => error_str +:+ "    " +:+ eq +:+ nl) faulty_reaction "" +:+
  "Fix unbalanced reactions or particle conservation will not be enforced.".

Definition missing_file_message (fileloc : string) : string :=
  "File " +:+ fileloc +:+ " does not exist. " +:+ nl +:+
  "Make sure the rate coefficient file exists and is spelled correctly in the directory denoted by file_location." +:+ nl +:+
  "The program automatically checks for txt, csv, and dat files." +:+ nl +:+
  "(Note that if no file_location parameter is added, the current directory is used.)".

Definition both_lists_message (s : string) : string :=
  "Species " +:+ s +:+ " is included as both a species and aux_species!" +:+ nl +:+
  "A species can only be either a nonlinear variable or an auxiliary variable, not both. Note that any species included as an aux_species will be treated as an auxiliary variable and will not have any source or sink terms applied to it (though it will be included as a reactant in the source/sink terms of other nonlinear variables.)".

(** What the four calls of [file_exists] for one identifier end in. *)
Inductive resolution : Type :=
| Bare                       (* the path itself exists: the identifier stays *)
| Suffixed (suffix : string) (* the suffix is appended to the identifier *)
| Missing.

Section Engine.
Context {Real : Type} `{RealOps Real}.
Variable p : InputParameters Real.

(** *** Stoichiometric coefficients *)

(** [_reaction_participants[i]]: the tracked tokens of one reaction,
    sorted, each once. *)
Definition reaction_participants (reactants products : list string) : list string :=
  List.filter (contains (species p)) (unique (sort (reactants ++ products)%list)).

(** The coefficients found for a list of participants. *)
Definition coefficients (participants reactants products : list string) : list Z :=
  map (fun s => tally_one s reactants products 0) participants.

(** One pass of the loop that fills [_reaction_participants[i]] and
    [_reaction_stoichiometric_coeff[i]]. *)
Definition reaction_stoichiometry (st : ChemicalReactionsBase Real) (i : nat)
  : result (list string * list Z) :=
  let* reactants := at_ "_reactants" (_reactants st) i in
  let* products := at_ "_products" (_products st) i in
  let participants := reaction_participants reactants products in
  let* change := at_ "_energy_change" (_energy_change st) i in
  if (change : bool) && negb (isParamValid (electron_energy p))
     && negb (isParamValid (gas_energy p))
  then inl (MooseError
    "Reactions have energy changes, but no electron or gas temperature variable is included!")
  else ret (participants, coefficients participants reactants products).

Definition energy_variables : result (list bool * list string) :=
  let* e :=
    match electron_energy p with
    | Some v => let* x := at_ "_electron_energy[0]" v O in ret ([true], [x])
    | None => ret ([], [])
    end in
  match gas_energy p with
  | Some v =>
      let* x := at_ "_gas_energy[0]" v O in
      ret ((e.1 ++ [false])%list, (e.2 ++ [x])%list)
  | None => ret e
  end.

Definition stoichiometry (st : ChemicalReactionsBase Real)
  : result (ChemicalReactionsBase Real) :=
  let all_participants := unique (sort (_all_participants st)) in
  let* stoichiometric_coeff :=
    mapM (fun i =>
            let* reactants := at_ "_reactants" (_reactants st) i in
            let* products := at_ "_products" (_products st) i in
            ret (coefficients all_participants reactants products))
         (seq 0 (length (_reaction st))) in
  let species_index := map (find_index all_participants) (species p) in
  let* local := mapM (reaction_stoichiometry st) (seq 0 (_num_reactions st)) in
  let* energy := energy_variables in
  ret {| _num_reactions := _num_reactions st;
         superelastic_reactions := superelastic_reactions st;
         _reaction := _reaction st;
         _rate_equation_string := _rate_equation_string st;
         _rate_equation := _rate_equation st;
         _energy_change := _energy_change st;
         _is_identified := _is_identified st;
         _reaction_identifier := _reaction_identifier st;
         _rate_coefficient := _rate_coefficient st;
         _threshold_energy := _threshold_energy st;
         _elastic_collision := _elastic_collision st;
         _rate_type := _rate_type st;
         _num_eedf_reactions := _num_eedf_reactions st;
         _reactants := _reactants st;
         _products := _products st;
         _reversible_reaction := _reversible_reaction st;
         _electron_index := _electron_index st;
         _reaction_lumped := _reaction_lumped st;
         _lumped_reaction := _lumped_reaction st;
         _all_participants := all_participants;
         _reaction_species := _reaction_species st;
         _num_reactants := _num_reactants st;
         _num_products := _num_products st;
         _species_count := _species_count st;
         _superelastic_index := _superelastic_index st;
         _superelastic_reaction := _superelastic_reaction st;
         _stoichiometric_coeff := stoichiometric_coeff;
         _reaction_participants := map fst local;
         _reaction_stoichiometric_coeff := map snd local;
         _species_index := species_index;
         _electron_energy_term := energy.1;
         _energy_variable := energy.2 |}.

(** *** The balance check *)

(** One side of a reaction: the particle numbers of its terms, the
    electron left out. [index] is what [std::find] gives. *)
Definition side_sum (weights : list Z) (side : list string) : result Z :=
  foldM
    (fun sum token =>
       let index := find_index (species p) token in
       let* found := at_ "_species[index]" (species p) index in
       if String.eqb found (getParam_string (electron_density p)) then ret sum
       else let* w := at_ "num_particles[index]" weights index in ret (sum + w))
    side 0.

(** The loop over the reactions: [faulty_reaction] grows by the text of
    every reaction whose sums differ. *)
Definition balance_scan (weights : list Z) (st : ChemicalReactionsBase Real)
  : result (list string) :=
  foldM
    (fun faulty_reaction i =>
       let* reactants := at_ "_reactants" (_reactants st) i in
       let* r_sum := side_sum weights reactants in
       let* products := at_ "_products" (_products st) i in
       let* p_sum := side_sum weights products in
       if negb (r_sum =? p_sum)
       then let* text := at_ "_reaction" (_reaction st) i in
            ret (faulty_reaction ++ [text])%list
       else ret faulty_reaction)
    (seq 0 (_num_reactions st)) [].

Definition check_balance (st : ChemicalReactionsBase Real) : result unit :=
  if balance_check p then
    let* faulty_reaction := balance_scan (getParam_vector (num_particles p)) st in
    match faulty_reaction with
    | [] => ret tt
    | _ :: _ => inl (MooseError (unbalanced_message faulty_reaction))
    end
  else ret tt.

(** *** Tracked against auxiliary species *)

Definition _aux_species : list string :=
  match aux_species p with
  | Some v => v
  | None => ["none"]
  end.

Definition check_aux_species : result unit :=
  foldM
    (fun _ s =>
       foldM
         (fun _ a =>
            if String.eqb s a
            then inl (MooseError (both_lists_message s))
            else ret tt)
         _aux_species tt)
    (species p) tt.

(** *** Rate files *)

Variable file_exists : string -> bool.

(** The calls of [file_exists] made for one identifier, in order, and
    what they end in. *)
Definition resolve_file (fileloc : string) : list string * resolution :=
  if file_exists fileloc then ([fileloc], Bare)
  else if file_exists (fileloc +:+ ".txt")
  then ([fileloc; fileloc +:+ ".txt"], Suffixed ".txt")
  else if file_exists (fileloc +:+ ".csv")
  then ([fileloc; fileloc +:+ ".txt"; fileloc +:+ ".csv"], Suffixed ".csv")
  else if file_exists (fileloc +:+ ".dat")
  then ([fileloc; fileloc +:+ ".txt"; fileloc +:+ ".csv"; fileloc +:+ ".dat"],
        Suffixed ".dat")
  else ([fileloc; fileloc +:+ ".txt"; fileloc +:+ ".csv"; fileloc +:+ ".dat"],
        Missing).

(** The loop [for (i = 0; i < _num_eedf_reactions; ++i)], carrying the
    calls of [file_exists] made so far and [_reaction_identifier]. *)
Definition file_step (is_identified : list bool)
    (s : list string * list string) (i : nat)
  : result (list string * list string) :=
  let* identified := at_ "_is_identified" is_identified i in
  if identified : bool then
    let* identifier := at_ "_reaction_identifier" s.2 i in
    let fileloc := file_location p +:+ "/" +:+ identifier in
    match resolve_file fileloc with
    | (probes, Bare) => ret ((s.1 ++ probes)%list, s.2)
    | (probes, Suffixed suffix) =>
        let* identifiers :=
          assign "_reaction_identifier" s.2 i (identifier +:+ suffix) in
        ret ((s.1 ++ probes)%list, identifiers)
    | (_, Missing) => inl (MooseError (missing_file_message fileloc))
    end
  else ret s.

Definition check_files (st : ChemicalReactionsBase Real)
  : result (list string * list string) :=
  foldM (file_step (_is_identified st)) (seq 0 (_num_eedf_reactions st))
    ([], _reaction_identifier st).

End Engine.

(** ** The constructor *)

Section Constructor.
Context {Real : Type} `{RealOps Real}.
Variable p : InputParameters Real.
Variable file_exists : string -> bool.

Definition check_parameters : result unit :=
  if negb (String.eqb (interpolation_type p) "spline")
     && negb (String.eqb (interpolation_type p) "linear")
  then inl (MooseError
    ("[Reactions] block: An interpolation_type of " +:+ interpolation_type p +:+
     " is invalid! Only 'spline' or 'linear' interpolations are possible. 'spline' is used by default."))
  else if lumped_species p && negb (isParamValid (lumped p))
  then inl (MooseError
    "The lumped_species parameter is set to true, but vector of neutrals (lumped = '...') is not set.")
  else if balance_check p && negb (isParamValid (num_particles p))
  then inl (MooseError
    "balance_check = true, but there is no num_particles parameter set! Please indicate the number of atoms present in each species. For example, molecular oxygen (O_2) has two particles. Ammonia (NH_3) has four particles (1 N, 3 H).")
  else if balance_check p
          && negb (length (getParam_vector (num_particles p)) =? length (species p))%nat
  then inl (MooseError
    "The size of num_particles and species is not equal! Each species must have a valid particle number in order to accurate check for particle balances.")
  else ret tt.

(** The expanded network, before the checks that close the constructor. *)
Definition network : result (ChemicalReactionsBase Real) :=
  let* _ := check_parameters in
  let* st0 := parse p in
  let* st1 := lumped_expansion p st0 in
  let* st2 := superelastic_synthesis p st1 in
  stoichiometry p st2.

(** The object the constructor leaves, with the calls of [file_exists]
    it made. *)
Definition constructor : result (ChemicalReactionsBase Real * list string) :=
  let* st := network in
  let* _ := check_balance p st in
  let* _ := check_aux_species p in
  let* files := check_files p file_exists st in
  ret ({| _num_reactions := _num_reactions st;
          superelastic_reactions := superelastic_reactions st;
          _reaction := _reaction st;
          _rate_equation_string := _rate_equation_string st;
          _rate_equation := _rate_equation st;
          _energy_change := _energy_change st;
          _is_identified := _is_identified st;
          _reaction_identifier := files.2;
          _rate_coefficient := _rate_coefficient st;
          _threshold_energy := _threshold_energy st;
          _elastic_collision := _elastic_collision st;
          _rate_type := _rate_type st;
          _num_eedf_reactions := _num_eedf_reactions st;
          _reactants := _reactants st;
          _products := _products st;
          _reversible_reaction := _reversible_reaction st;
          _electron_index := _electron_index st;
          _reaction_lumped := _reaction_lumped st;
          _lumped_reaction := _lumped_reaction st;
          _all_participants := _all_participants st;
          _reaction_species := _reaction_species st;
          _num_reactants := _num_reactants st;
          _num_products := _num_products st;
          _species_count := _species_count st;
          _superelastic_index := _superelastic_index st;
          _superelastic_reaction := _superelastic_reaction st;
          _stoichiometric_coeff := _stoichiometric_coeff st;
          _reaction_participants := _reaction_participants st;
          _reaction_stoichiometric_coeff := _reaction_stoichiometric_coeff st;
          _species_index := _species_index st;
          _electron_energy_term := _electron_energy_term st;
          _energy_variable := _energy_variable st |}, files.1).

End Constructor.

(** ** An exact instance of [RealOps]

    Rationals stand in for doubles where the constructor has to be run on
    a concrete input: [stod] reads a decimal numeral, [Rpow] is defined
    for integer exponents, and everything else is [NotANumber]. *)

Module Exact.

Inductive exact : Type :=
| Rat (q : Q)
| NotANumber.

Definition lift1 (f : Q -> Q) (x : exact) : exact :=
  match x with
  | Rat q => Rat (Qred (f q))
  | NotANumber => NotANumber
  end.

Definition lift2 (f : Q -> Q -> Q) (x y : exact) : exact :=
  match x, y with
  | Rat q, Rat r => Rat (Qred (f q r))
  | _, _ => NotANumber
  end.

Definition pow (x y : exact) : exact :=
  match x, y with
  | Rat b, Rat e =>
      if Pos.eqb (Qden (Qred e)) 1 then Rat (Qred (Qpower b (Qnum (Qred e))))
      else NotANumber
  | _, _ => NotANumber
  end.

Definition digit (c : ascii) : option Z :=
  let n := Z.of_nat (nat_of_ascii c) in
  if (48 <=? n) && (n <=? 57) then Some (n - 48) else None.

(** The digits at the head of [s]: their value after [acc], how many
    there are, and what follows them. *)
Fixpoint digits (s : string) (acc : Z) (count : nat) : Z * nat * string :=
  match s with
  | EmptyString => (acc, count, s)
  | String c s' =>
      match digit c with
      | Some d => digits s' (10 * acc + d) (S count)
      | None => (acc, count, s)
      end
  end.

Definition sign (s : string) : Z * string :=
  match s with
  | String "-" s' => (-1, s')
  | String "+" s' => (1, s')
  | _ => (1, s)
  end.

Definition exponent (s : string) : Z :=
  match s with
  | String "e" s' | String "E" s' =>
      let (sg, s'') := sign s' in
      let '(v, n, _) := digits s'' 0 O in
      if decide (n = O) then 0 else sg * v
  | _ => 0
  end.

Definition read (s : string) : stod_result exact :=
  let (sg, s1) := sign (ltrim s) in
  let '(whole, n1, s2) := digits s1 0 O in
  let '(mantissa, n2, s3) :=
    match s2 with
    | String "." s2' => digits s2' whole O
    | _ => (whole, O, s2)
    end in
  if decide ((n1 + n2)%nat = O) then StodInvalidArgument
  else
    StodValue
      (Rat (Qred (inject_Z (sg * mantissa)
                  * Qpower (inject_Z 10) (exponent s3 - Z.of_nat n2)))).

Definition show_Z (z : Z) : string := NilZero.string_of_int (Z.to_int z).

Definition show (x : exact) : string :=
  match x with
  | Rat q =>
      if Pos.eqb (Qden q) 1 then show_Z (Qnum q)
      else show_Z (Qnum q) +:+ "/" +:+ show_Z (Zpos (Qden q))
  | NotANumber => "nan"
  end.

#[global] Instance exact_ops : RealOps exact := {|
  Real_of_Z := fun z => Rat (inject_Z z);
  NaN := NotANumber;
  Ropp := lift1 Qopp;
  Rmul := lift2 Qmult;
  Rpow := pow;
  avogadro := Rat (inject_Z (6022 * 10 ^ 20));
  stod := read;
  stringify := show
|}.

(** A configuration with every option at its declared default. *)
Definition defaults (tracked : list string) (text : string) : InputParameters exact :=
  {| species := tracked;
     aux_species := None;
     electron_density := None;
     electron_energy := None;
     gas_energy := None;
     reactions := text;
     use_bolsig := false;
     include_electrons := false;
     lumped_species := false;
     lumped := None;
     lumped_name := None;
     balance_check := false;
     num_particles := None;
     convert_to_moles := false;
     convert_to_meters := Rat 1;
     file_location := "";
     interpolation_type := "spline" |}.

(** The same configuration with the lumped-species options set. *)
Definition with_lumped (name : string) (concrete : list string)
    (q : InputParameters exact) : InputParameters exact :=
  {| species := species q;
     aux_species := aux_species q;
     electron_density := electron_density q;
     electron_energy := electron_energy q;
     gas_energy := gas_energy q;
     reactions := reactions q;
     use_bolsig := use_bolsig q;
     include_electrons := include_electrons q;
     lumped_species := true;
     lumped := Some concrete;
     lumped_name := Some name;
     balance_check := balance_check q;
     num_particles := num_particles q;
     convert_to_moles := convert_to_moles q;
     convert_to_meters := convert_to_meters q;
     file_location := file_location q;
     interpolation_type := interpolation_type q |}.

(** The same configuration with the balance check switched on. *)
Definition with_balance (weights : list Z) (q : InputParameters exact)
  : InputParameters exact :=
  {| species := species q;
     aux_species := aux_species q;
     electron_density := electron_density q;
     electron_energy := electron_energy q;
     gas_energy := gas_energy q;
     reactions := reactions q;
     use_bolsig := use_bolsig q;
     include_electrons := include_electrons q;
     lumped_species := lumped_species q;
     lumped := lumped q;
     lumped_name := lumped_name q;
     balance_check := true;
     num_particles := Some weights;
     convert_to_moles := convert_to_moles q;
     convert_to_meters := convert_to_meters q;
     file_location := file_location q;
     interpolation_type := interpolation_type q |}.

(** The same configuration with the unit conversions switched on. *)
Definition with_units (meters : exact) (q : InputParameters exact)
  : InputParameters exact :=
  {| species := species q;
     aux_species := aux_species q;
     electron_density := electron_density q;
     electron_energy := electron_energy q;
     gas_energy := gas_energy q;
     reactions := reactions q;
     use_bolsig := use_bolsig q;
     include_electrons := include_electrons q;
     lumped_species := lumped_species q;
     lumped := lumped q;
     lumped_name := lumped_name q;
     balance_check := balance_check q;
     num_particles := num_particles q;
     convert_to_moles := true;
     convert_to_meters := meters;
     file_location := file_location q;
     interpolation_type := interpolation_type q |}.

(** A reversible reaction followed by another reaction. *)
Definition reversible_first : InputParameters exact :=
  defaults ["A"; "B"; "C"; "D"] ("A <=> B : 1" +:+ nl +:+ "C -> D : 1").

(** A template that names the placeholder twice among its reactants. *)
Definition doubled_placeholder : InputParameters exact :=
  with_lumped "M" ["X"] (defaults ["B"; "X"] "M + M -> B : 1").

(** A balance check over a reaction with a product that is not tracked. *)
Definition untracked_product : InputParameters exact :=
  with_balance [1] (defaults ["A"] "A -> B : 1").

(** A tabulated rate with a file tag, listed after a constant rate. *)
Definition tagged_second : InputParameters exact :=
  defaults ["A"; "B"; "e"]
    ("A -> B : 1" +:+ nl +:+ "e + A -> e + B : EEDF (ioniz)").

(** A template with a bracketed threshold energy, two lumped species and
    a gas temperature for the energy change. *)
Definition template_with_energy : InputParameters exact :=
  {| species := ["A"; "B"; "X"; "Y"];
     aux_species := None;
     electron_density := None;
     electron_energy := None;
     gas_energy := Some ["Tgas"];
     reactions := "A + M -> B + M : 2 [3.5]";
     use_bolsig := false;
     include_electrons := false;
     lumped_species := true;
     lumped := Some ["X"; "Y"];
     lumped_name := Some "M";
     balance_check := false;
     num_particles := None;
     convert_to_moles := false;
     convert_to_meters := Rat 1;
     file_location := "";
     interpolation_type := "spline" |}.

(** A constant and an equation rate under both unit conversions. *)
Definition molar_rates : InputParameters exact :=
  with_units (Rat (1 # 100))
    (defaults ["A"; "B"; "C"] ("A + B -> C : 2" +:+ nl +:+ "A -> B : {k1}")).

(** A balanced and an unbalanced reaction under the balance check. *)
Definition one_unbalanced : InputParameters exact :=
  with_balance [1; 1; 2]
    (defaults ["A"; "B"; "C"] ("A + B -> C : 1" +:+ nl +:+ "A -> C : 1")).

(** A file system without a single file. *)
Definition no_file (path : string) : bool := false.

End Exact.

(** ** The wording of the specification, for comparison with the parser *)

(** The characters of [s] strictly between the positions [a] and [b]. *)
Definition text_between (s : string) (a b : nat) : string :=
  substring (S a) (b - S a) s.

(** The characters of [s] after the position [a]. *)
Definition text_after (s : string) (a : nat) : string :=
  substring (S a) (String.length s - S a) s.

(** The delimiter of the tie-break rule: the first [(] when it comes
    before the first [[] (or there is no [[]), else the first [[]. *)
Definition rate_delimiter (token : string) : option nat :=
  match index_of "(" token, index_of "[" token with
  | Some lp, Some lb => if (lp <? lb)%nat then Some lp else Some lb
  | Some lp, None => Some lp
  | None, o => o
  end.

(** The tie-break rule as the specification words it: the rate field is
    the text between the colon and the delimiter, and runs to the end of
    the line when there is no delimiter. *)
Definition worded_rate_field (token : string) (colon : nat) : string :=
  match rate_delimiter token with
  | Some d => text_between token colon d
  | None => text_after token colon
  end.

(** The rule the parser follows: a delimiter in front of the colon does
    not end the field. *)
Definition parsed_rate_field (token : string) (colon : nat) : string :=
  match rate_delimiter token with
  | Some d => if (colon <? d)%nat then text_between token colon d
              else text_after token colon
  | None => text_after token colon
  end.

(** The occurrences of [s] in a list of terms. *)
Definition occurrences (s : string) (l : list string) : Z :=
  Z.of_nat (length (List.filter (String.eqb s) l)).

(** The particle number of a token under [num_particles], positionally
    aligned with the tracked species; the electron counts for nothing. *)
Definition particle_weight (tracked : list string) (weights : list Z)
    (electron token : string) : Z :=
  if String.eqb token electron then 0
  else default 0 (weights !! find_index tracked token).

Definition particle_sum (tracked : list string) (weights : list Z)
    (electron : string) (side : list string) : Z :=
  fold_right Z.add 0 (map (particle_weight tracked weights electron) side).

(** The conversion factor of the specification for a reaction with [r]
    reactant tokens: [N_A^(r-1) * positionUnitFactor^(3*(r-1))]. *)
Definition conversion_factor {Real : Type} `{RealOps Real}
    (p : InputParameters Real) (r : Z) : Real :=
  Rmul (Rpow (if convert_to_moles p then avogadro else Real_of_Z 1) (Real_of_Z (r - 1)))
       (Rpow (convert_to_meters p) (Rmul (Real_of_Z 3) (Real_of_Z (r - 1)))).

(** Whether the particle sums of the two sides of reaction [i] differ. *)
Definition sums_differ {Real : Type} (p : InputParameters Real)
    (st : ChemicalReactionsBase Real) (i : nat) : bool :=
  let sum :=
    particle_sum (species p) (getParam_vector (num_particles p))
      (getParam_string (electron_density p)) in
  negb (sum (default [] (_reactants st !! i)) =? sum (default [] (_products st !! i))).

(** The equation texts of the reactions whose sums differ, in order. *)
Definition unbalanced_equations {Real : Type} (p : InputParameters Real)
    (st : ChemicalReactionsBase Real) : list string :=
  map (fun i => default "" (_reaction st !! i))
    (List.filter (sums_differ p st) (seq 0 (_num_reactions st))).

(** Every reactant and product token of the network is a tracked species. *)
Definition all_tracked {Real : Type} (p : InputParameters Real)
    (st : ChemicalReactionsBase Real) : bool :=
  forallb (forallb (contains (species p))) (_reactants st ++ _products st)%list.

(** ** What the expansion loops maintain

    The predicates below describe the vectors while and after the loops of
    the lumped expansion and of the superelastic synthesis run; the
    properties that follow establish them. *)

(** An assignment changes one entry and no length. *)
Definition only_at {A : Type} (i : nat) (v v' : list A) : Prop :=
  length v' = length v /\ forall j, j <> i -> v' !! j = v !! j.

(** [q] slots after [old_num] are written, the others are as they were. *)
Definition written {A : Type} (old_num q : nat) (expect : nat -> option A)
    (X0 X : list A) : Prop :=
  length X = length X0
  /\ (forall j, (j < old_num \/ old_num + q <= j)%nat -> X !! j = X0 !! j)
  /\ (forall q', (q' < q)%nat ->
        X !! (old_num + q')%nat = expect q' /\ is_Some (expect q')).

Section LumpedInvariant.
Context {Real : Type} `{RealOps Real}.
Variable p : InputParameters Real.
Variable old_num : nat.
Variable lumped_reaction : list nat.
Variable v0 : lumped_vectors (Real := Real).

Let L : nat := length (getParam_vector (lumped p)).

(** The template and the concrete species of the [q]-th appended slot. *)
Definition template_of (q : nat) : option nat := lumped_reaction !! (q / L)%nat.

(** The lumped species substituted in the [q]-th appended slot. *)
Definition concrete_of (q : nat) : option string :=
  getParam_vector (lumped p) !! (q mod L)%nat.

(** The entry of the template, for a vector the loop copies. *)
Definition copied {A : Type} (X0 : list A) (q : nat) : option A :=
  match template_of q with
  | Some t => X0 !! t
  | None => None
  end.

(** The terms of the template with the placeholder replaced, pushed onto
    what the slot held. *)
Definition substituted (X0 : list (list string)) (q : nat) : option (list string) :=
  match template_of q, concrete_of q with
  | Some t, Some sp =>
      match X0 !! t, X0 !! (old_num + q)%nat with
      | Some template, Some slot =>
          Some (slot ++ map (substitute (getParam_string (lumped_name p)) sp) template)%list
      | _, _ => None
      end
  | _, _ => None
  end.

(** The vectors of the lumped loops once [q] slots are written, [v0]
    being the vectors as resized before the loops. *)
Record lumped_inv (q : nat) (v : lumped_vectors (Real := Real)) : Prop := {
  li_reaction :
    written old_num q (copied (lv_reaction v0)) (lv_reaction v0) (lv_reaction v);
  li_rate_coefficient :
    written old_num q (copied (lv_rate_coefficient v0))
      (lv_rate_coefficient v0) (lv_rate_coefficient v);
  li_rate_type :
    written old_num q (copied (lv_rate_type v0)) (lv_rate_type v0) (lv_rate_type v);
  li_rate_equation_string :
    written old_num q (copied (lv_rate_equation_string v0))
      (lv_rate_equation_string v0) (lv_rate_equation_string v);
  li_superelastic_reaction :
    written old_num q (copied (lv_superelastic_reaction v0))
      (lv_superelastic_reaction v0) (lv_superelastic_reaction v);
  li_reversible_reaction :
    written old_num q (copied (lv_reversible_reaction v0))
      (lv_reversible_reaction v0) (lv_reversible_reaction v);
  li_reaction_lumped :
    written old_num q (fun _ => Some false)
      (lv_reaction_lumped v0) (lv_reaction_lumped v);
  li_species_count :
    written old_num q (copied (lv_species_count v0))
      (lv_species_count v0) (lv_species_count v);
  li_reactants :
    written old_num q (substituted (lv_reactants v0))
      (lv_reactants v0) (lv_reactants v);
  li_products :
    written old_num q (substituted (lv_products v0))
      (lv_products v0) (lv_products v)
}.

End LumpedInvariant.

Section SuperelasticInvariant.
Context {Real : Type} `{RealOps Real}.
Variable n : nat.
Variable reversible : list bool.
Variable num_products : list nat.
Variable v0 : superelastic_vectors (Real := Real).

(** [_reversible_reaction[i] == true] *)
Definition is_reversible (i : nat) : bool :=
  match reversible !! i with
  | Some true => true
  | _ => false
  end.

(** The reversible reactions among the first [k], in order. *)
Definition reversibles (k : nat) : list nat := List.filter is_reversible (seq 0 k).

(** What the branch writes into slot [n + a], for the [a]-th reversible
    reaction [r]. *)
Definition reversed_of {A B : Type} (X0 : list A) (f : nat -> A -> option B) (a : nat)
  : option B :=
  match reversibles n !! a with
  | Some r => match X0 !! r with Some x => f a x | None => None end
  | None => None
  end.

(** The first [_num_products[r]] products of [r], pushed onto what the
    slot held. *)
Definition new_reactants_of (a : nat) (products_r : list string)
  : option (list string) :=
  match reversibles n !! a with
  | Some r =>
      match num_products !! r, sv_reactants v0 !! (n + a)%nat with
      | Some np, Some slot => Some (slot ++ take np products_r)%list
      | _, _ => None
      end
  | None => None
  end.

(** The reactants of [r], pushed onto what the slot held. *)
Definition new_products_of (a : nat) (reactants_r : list string)
  : option (list string) :=
  match sv_products v0 !! (n + a)%nat with
  | Some slot => Some (slot ++ reactants_r)%list
  | None => None
  end.

(** The vectors of the superelastic loop once [a] reversible reactions
    are reversed, [v0] being the vectors as resized before the loop. *)
Record superelastic_inv (a : nat) (v : superelastic_vectors (Real := Real)) : Prop := {
  si_new_index : sv_new_index v = Z.of_nat n - 1 + Z.of_nat a;
  si_reaction :
    exists appended,
      sv_reaction v = (sv_reaction v0 ++ appended)%list /\ length appended = a;
  si_superelastic_index :
    written n a (fun a' => reversibles n !! a')
      (sv_superelastic_index v0) (sv_superelastic_index v);
  si_superelastic_reaction :
    written n a (fun _ => Some true)
      (sv_superelastic_reaction v0) (sv_superelastic_reaction v);
  si_rate_coefficient :
    written n a (fun _ => Some NaN)
      (sv_rate_coefficient v0) (sv_rate_coefficient v);
  si_threshold_energy :
    written n a (reversed_of (sv_threshold_energy v0) (fun _ e => Some (Ropp e)))
      (sv_threshold_energy v0) (sv_threshold_energy v);
  si_rate_equation :
    written n a (reversed_of (sv_rate_equation v0) (fun _ b => Some b))
      (sv_rate_equation v0) (sv_rate_equation v);
  si_energy_change :
    written n a (reversed_of (sv_energy_change v0) (fun _ b => Some b))
      (sv_energy_change v0) (sv_energy_change v);
  si_reactants :
    written n a (reversed_of (sv_products v0) new_reactants_of)
      (sv_reactants v0) (sv_reactants v);
  si_products :
    written n a (reversed_of (sv_reactants v0) new_products_of)
      (sv_products v0) (sv_products v)
}.

End SuperelasticInvariant.

Section Passes.
Context {Real : Type} `{RealOps Real}.
Variable p : InputParameters Real.

(** What the parsing loops guarantee about the members. *)
Record parsed_shape (st0 : ChemicalReactionsBase Real) : Prop := {
  ps_reaction : length (_reaction st0) = _num_reactions st0;
  ps_rate_coefficient : length (_rate_coefficient st0) = _num_reactions st0;
  ps_rate_type : length (_rate_type st0) = _num_reactions st0;
  ps_rate_equation_string : length (_rate_equation_string st0) = _num_reactions st0;
  ps_reversible_reaction : length (_reversible_reaction st0) = _num_reactions st0;
  ps_reaction_lumped : length (_reaction_lumped st0) = _num_reactions st0;
  ps_species_count : length (_species_count st0) = _num_reactions st0;
  ps_reactants : length (_reactants st0) = _num_reactions st0;
  ps_products : length (_products st0) = _num_reactions st0;
  ps_threshold_energy : length (_threshold_energy st0) = _num_reactions st0;
  ps_energy_change : length (_energy_change st0) = _num_reactions st0;
  ps_rate_equation : length (_rate_equation st0) = _num_reactions st0;
  ps_is_identified : length (_is_identified st0) = _num_reactions st0;
  ps_reaction_identifier : length (_reaction_identifier st0) = _num_reactions st0;
  ps_num_eedf_reactions : (_num_eedf_reactions st0 <= _num_reactions st0)%nat;
  ps_superelastic_reaction : _superelastic_reaction st0 = [];
  ps_superelastic_index : _superelastic_index st0 = [];
  ps_num_products : _num_products st0 = map length (_products st0);
  ps_lumped_reaction :
    Forall (fun t => (t < _num_reactions st0)%nat) (_lumped_reaction st0);
  ps_superelastic :
    forall i, _reversible_reaction st0 !! i = Some true ->
              (0 < superelastic_reactions st0)%nat
}.

(** How lumped expansion relates the members before ([st0]) and after
    ([st1]). *)
Record expanded (st0 st1 : ChemicalReactionsBase Real) : Prop := {
  ex_le : (_num_reactions st0 <= _num_reactions st1)%nat;
  ex_superelastic_reactions : superelastic_reactions st1 = superelastic_reactions st0;
  ex_threshold_energy : _threshold_energy st1 = _threshold_energy st0;
  ex_energy_change : _energy_change st1 = _energy_change st0;
  ex_rate_equation : _rate_equation st1 = _rate_equation st0;
  ex_num_products : _num_products st1 = _num_products st0;
  ex_is_identified : _is_identified st1 = _is_identified st0;
  ex_reaction_identifier : _reaction_identifier st1 = _reaction_identifier st0;
  ex_num_eedf_reactions : _num_eedf_reactions st1 = _num_eedf_reactions st0;
  ex_lumped_reaction : _lumped_reaction st1 = _lumped_reaction st0;
  ex_superelastic_index : _superelastic_index st1 = [];
  ex_length :
    length (_reaction st1) = _num_reactions st1
    /\ length (_rate_coefficient st1) = _num_reactions st1
    /\ length (_rate_type st1) = _num_reactions st1
    /\ length (_rate_equation_string st1) = _num_reactions st1
    /\ length (_reversible_reaction st1) = _num_reactions st1
    /\ length (_reaction_lumped st1) = _num_reactions st1
    /\ length (_species_count st1) = _num_reactions st1
    /\ length (_reactants st1) = _num_reactions st1
    /\ length (_products st1) = _num_reactions st1;
  ex_old :
    forall j, (j < _num_reactions st0)%nat ->
      _reaction st1 !! j = _reaction st0 !! j
      /\ _rate_coefficient st1 !! j = _rate_coefficient st0 !! j
      /\ _rate_type st1 !! j = _rate_type st0 !! j
      /\ _rate_equation_string st1 !! j = _rate_equation_string st0 !! j
      /\ _reversible_reaction st1 !! j = _reversible_reaction st0 !! j
      /\ _reaction_lumped st1 !! j = _reaction_lumped st0 !! j
      /\ _species_count st1 !! j = _species_count st0 !! j
      /\ _reactants st1 !! j = _reactants st0 !! j
      /\ _products st1 !! j = _products st0 !! j;
  ex_no_superelastic :
    forall j b, _superelastic_reaction st1 !! j = Some b -> b = false;
  ex_new :
    forall j, (_num_reactions st0 <= j < _num_reactions st1)%nat ->
      lumped_species p = true
      /\ exists t sp template_reactants template_products,
        (t < _num_reactions st0)%nat
        /\ _lumped_reaction st0
             !! ((j - _num_reactions st0) / length (getParam_vector (lumped p)))%nat
           = Some t
        /\ getParam_vector (lumped p)
             !! ((j - _num_reactions st0) mod length (getParam_vector (lumped p)))%nat
           = Some sp
        /\ _reaction st1 !! j = _reaction st0 !! t
        /\ _rate_coefficient st1 !! j = _rate_coefficient st0 !! t
        /\ _rate_type st1 !! j = _rate_type st0 !! t
        /\ _rate_equation_string st1 !! j = _rate_equation_string st0 !! t
        /\ _reversible_reaction st1 !! j = _reversible_reaction st0 !! t
        /\ _species_count st1 !! j = _species_count st0 !! t
        /\ _reaction_lumped st1 !! j = Some false
        /\ _reactants st0 !! t = Some template_reactants
        /\ _reactants st1 !! j
           = Some (map (substitute (getParam_string (lumped_name p)) sp)
                     template_reactants)
        /\ _products st0 !! t = Some template_products
        /\ _products st1 !! j
           = Some (map (substitute (getParam_string (lumped_name p)) sp)
                     template_products)
}.

(** The vectors as [superelastic_synthesis] resizes them. *)
Definition resized (st1 : ChemicalReactionsBase Real) : superelastic_vectors :=
  let n := _num_reactions st1 in
  let m := (n + superelastic_reactions st1)%nat in
  {| sv_new_index := Z.of_nat n - 1;
     sv_new_reaction := "";
     sv_superelastic_index := resize m O (_superelastic_index st1);
     sv_superelastic_reaction := resize m false (_superelastic_reaction st1);
     sv_rate_coefficient := resize m (Real_of_Z 0) (_rate_coefficient st1);
     sv_threshold_energy := resize m (Real_of_Z 0) (_threshold_energy st1);
     sv_rate_equation := resize m false (_rate_equation st1);
     sv_energy_change := resize m false (_energy_change st1);
     sv_reactants :=
       resize (length (_reactants st1) + superelastic_reactions st1) []
         (_reactants st1);
     sv_products :=
       resize (length (_products st1) + superelastic_reactions st1) []
         (_products st1);
     sv_reaction := _reaction st1;
     sv_species_count :=
       resize m (replicate (length (species p)) 0) (_species_count st1);
     sv_electron_index := _electron_index st1 |}.

(** How superelastic synthesis relates the members before ([st1]) and
    after ([st2]); [n] reactions exist before it. *)
Record synthesized (st1 st2 : ChemicalReactionsBase Real) : Prop := {
  sy_num_reactions :
    _num_reactions st2 = (_num_reactions st1 + superelastic_reactions st1)%nat;
  sy_superelastic_reactions : superelastic_reactions st2 = superelastic_reactions st1;
  sy_rate_equation_string : _rate_equation_string st2 = _rate_equation_string st1;
  sy_is_identified : _is_identified st2 = _is_identified st1;
  sy_reaction_identifier : _reaction_identifier st2 = _reaction_identifier st1;
  sy_rate_type : _rate_type st2 = _rate_type st1;
  sy_num_eedf_reactions : _num_eedf_reactions st2 = _num_eedf_reactions st1;
  sy_reversible_reaction : _reversible_reaction st2 = _reversible_reaction st1;
  sy_reaction_lumped : _reaction_lumped st2 = _reaction_lumped st1;
  sy_lumped_reaction : _lumped_reaction st2 = _lumped_reaction st1;
  sy_length :
    length (_reactants st2) = _num_reactions st2
    /\ length (_products st2) = _num_reactions st2
    /\ length (_threshold_energy st2) = _num_reactions st2
    /\ length (_energy_change st2) = _num_reactions st2;
  sy_old :
    forall j, (j < _num_reactions st1)%nat ->
      _reaction st2 !! j = _reaction st1 !! j
      /\ _rate_coefficient st2 !! j = _rate_coefficient st1 !! j
      /\ _reactants st2 !! j = _reactants st1 !! j
      /\ _products st2 !! j = _products st1 !! j
      /\ _threshold_energy st2 !! j
         = resize (_num_reactions st2) (Real_of_Z 0) (_threshold_energy st1) !! j
      /\ _energy_change st2 !! j
         = resize (_num_reactions st2) false (_energy_change st1) !! j;
  sy_reversed :
    forall i, _reversible_reaction st1 !! i = Some true ->
      exists a,
        reversibles (_reversible_reaction st1) (_num_reactions st1) !! a = Some i
        /\ (_num_reactions st1 + a < _num_reactions st2)%nat
        /\ _superelastic_index st2 !! (_num_reactions st1 + a)%nat = Some i
        /\ _superelastic_reaction st2 !! (_num_reactions st1 + a)%nat = Some true
        /\ (exists r, _products st2 !! i = Some r
                      /\ _reactants st2 !! (_num_reactions st1 + a)%nat = Some r)
        /\ (exists r, _reactants st2 !! i = Some r
                      /\ _products st2 !! (_num_reactions st1 + a)%nat = Some r)
        /\ (exists e, _threshold_energy st2 !! i = Some e
                      /\ _threshold_energy st2 !! (_num_reactions st1 + a)%nat
                         = Some (Ropp e));
  sy_flagged :
    forall m, _superelastic_reaction st2 !! m = Some true ->
      exists a i,
        m = (_num_reactions st1 + a)%nat
        /\ reversibles (_reversible_reaction st1) (_num_reactions st1) !! a = Some i
        /\ _superelastic_index st2 !! m = Some i;
  sy_tail :
    length (_reaction st2)
    = (_num_reactions st1
       + length (reversibles (_reversible_reaction st1) (_num_reactions st1)))%nat
    /\ forall j, (length (_reaction st2) <= j < _num_reactions st2)%nat ->
         _reactants st2 !! j = Some [] /\ _products st2 !! j = Some []
}.

(** The members that the stoichiometry pass leaves as they are. *)
Record same_network (st2 st : ChemicalReactionsBase Real) : Prop := {
  sn_num_reactions : _num_reactions st = _num_reactions st2;
  sn_superelastic_reactions : superelastic_reactions st = superelastic_reactions st2;
  sn_reaction : _reaction st = _reaction st2;
  sn_rate_equation_string : _rate_equation_string st = _rate_equation_string st2;
  sn_is_identified : _is_identified st = _is_identified st2;
  sn_reaction_identifier : _reaction_identifier st = _reaction_identifier st2;
  sn_rate_coefficient : _rate_coefficient st = _rate_coefficient st2;
  sn_threshold_energy : _threshold_energy st = _threshold_energy st2;
  sn_energy_change : _energy_change st = _energy_change st2;
  sn_rate_type : _rate_type st = _rate_type st2;
  sn_num_eedf_reactions : _num_eedf_reactions st = _num_eedf_reactions st2;
  sn_reactants : _reactants st = _reactants st2;
  sn_products : _products st = _products st2;
  sn_reversible_reaction : _reversible_reaction st = _reversible_reaction st2;
  sn_reaction_lumped : _reaction_lumped st = _reaction_lumped st2;
  sn_lumped_reaction : _lumped_reaction st = _lumped_reaction st2;
  sn_species_count : _species_count st = _species_count st2;
  sn_superelastic_index : _superelastic_index st = _superelastic_index st2;
  sn_superelastic_reaction : _superelastic_reaction st = _superelastic_reaction st2
}.

End Passes.

(** Every element is below all that follow it. *)
Fixpoint ascending (l : list string) : Prop :=
  match l with
  | [] => True
  | x :: l' => (forall y, In y l' -> String.leb x y = true) /\ ascending l'
  end.

(** ** Inputs put together from lines and terms *)

(** The characters of [r] in front of the first [delim], and what follows
    that [delim] when there is one. *)
Fixpoint span (delim : ascii) (r : string) : string * option string :=
  match r with
  | EmptyString => (EmptyString, None)
  | String d r' =>
      if Ascii.eqb d delim then (EmptyString, Some r')
      else (String d (span delim r').1, (span delim r').2)
  end.

Fixpoint all_chars (f : ascii -> bool) (s : string) : bool :=
  match s with
  | EmptyString => true
  | String c s' => f c && all_chars f s'
  end.

(** White space only. *)
Definition blank (s : string) : bool := all_chars isspace s.

(** A piece of text that [getline] reads as one token: it starts with a
    character that is not white space and does not hold the delimiter. *)
Definition is_token (delim : ascii) (l : string) : bool :=
  match l with
  | EmptyString => false
  | String c l' =>
      negb (isspace c) && all_chars (fun d => negb (Ascii.eqb d delim)) l'
  end.

(** Tokens with a delimiter between them, each after some white space. *)
Fixpoint delimited (delim : ascii) (ls : list (string * string)) : string :=
  match ls with
  | [] => EmptyString
  | (pad, l) :: ls' =>
      match ls' with
      | [] => pad +:+ l
      | _ :: _ => pad +:+ l +:+ String delim (delimited delim ls')
      end
  end.

(** Whether a line starts with [#]. *)
Definition starts_with_hash (l : string) : bool :=
  match l with
  | String "#" _ => true
  | _ => false
  end.


(** ** The fields of a line, in words *)

(** Whether the line holds the character. *)
Definition holds (token : string) (c : ascii) : bool :=
  match index_of c token with
  | Some _ => true
  | None => false
  end.

(** The characters of [s] in front of the position [a]. *)
Definition text_before (s : string) (a : nat) : string := substring 0 a s.

(** What a line holds after its first [opening] character: the text up
    to the first [closing] character when that one comes later, and the
    rest of the line otherwise. *)
Definition enclosed (token : string) (opening closing : ascii) : option string :=
  match index_of opening token with
  | None => None
  | Some a =>
      Some match index_of closing token with
           | Some b =>
               if (a <? b)%nat then text_between token a b else text_after token a
           | None => text_after token a
           end
  end.


(** ** The terms of an equation, in words *)

Definition is_plus (token : string) : bool := String.eqb token "+".

(** The tokens that end the reactants. *)
Definition is_forward_arrow (token : string) : bool :=
  String.eqb token "=" || String.eqb token "->" || String.eqb token "=>".

Definition is_reversible_arrow (token : string) : bool :=
  String.eqb token "<=>" || String.eqb token "<->".

Definition is_arrow (token : string) : bool :=
  is_forward_arrow token || is_reversible_arrow token.

(** A token that is stored as a reactant or a product. *)
Definition is_term (token : string) : bool := negb (is_plus token || is_arrow token).

(** The tokens in front of the first arrow, and those from it on. *)
Fixpoint before_arrow (tokens : list string) : list string :=
  match tokens with
  | [] => []
  | token :: tokens' => if is_arrow token then [] else token :: before_arrow tokens'
  end.

Fixpoint from_arrow (tokens : list string) : list string :=
  match tokens with
  | [] => []
  | token :: tokens' => if is_arrow token then tokens else from_arrow tokens'
  end.

(** The terms with a [+] between them, as tokens. *)
Fixpoint plus_between (l : list string) : list string :=
  match l with
  | [] => []
  | x :: l' =>
      match l' with
      | [] => [x]
      | _ :: _ => x :: "+" :: plus_between l'
      end
  end.

(** An equation written out: the reactants, an arrow, the products, with
    [" + "] between the terms and a space on each side of the arrow. *)
Definition equation (reactants : list string) (arrow : string)
    (products : list string) : string :=
  join_plus reactants +:+ " " +:+ arrow +:+ " " +:+ join_plus products.

(** A name that can stand as a term of an equation. *)
Definition is_species_name (token : string) : bool :=
  is_token " " token && is_term token.


(** ** Further inputs *)

Module Sample.

(** A template, a reaction that names one of the lumped species, and a
    tracked species that takes part in no reaction. *)
Definition lumped_pair : InputParameters Exact.exact :=
  Exact.with_lumped "M" ["X"; "Y"]
    (Exact.defaults ["A"; "B"; "X"; "Y"; "Z"]
       ("A + M -> B + M : 1" +:+ nl +:+ "X -> A : 2")).

(** The placeholder twice among the reactants of a template, and a
    reversible reaction. *)
Definition counted : InputParameters Exact.exact :=
  Exact.with_lumped "M" ["X"; "Y"]
    (Exact.defaults ["A"; "B"; "X"; "Y"]
       ("M + M -> B : 1" +:+ nl +:+ "A <=> B : 2")).

(** The placeholder among the products only. *)
Definition placeholder_product : InputParameters Exact.exact :=
  Exact.with_lumped "M" ["X"; "Y"] (Exact.defaults ["A"; "X"; "Y"] "A -> M : 1").



(** Tabulated rates under Bolsig+, with the electron named. *)
Definition bolsig : InputParameters Exact.exact :=
  {| species := ["e"; "Ar"; "Ar*"];
     aux_species := None;
     electron_density := Some "e";
     electron_energy := None;
     gas_energy := None;
     reactions := "e + Ar -> e + Ar* : EEDF" +:+ nl +:+ "Ar* -> Ar : 1";
     use_bolsig := true;
     include_electrons := false;
     lumped_species := false;
     lumped := None;
     lumped_name := None;
     balance_check := false;
     num_particles := None;
     convert_to_moles := false;
     convert_to_meters := Exact.Rat 1;
     file_location := "";
     interpolation_type := "spline" |}.

(** Comments and blank lines only. *)
Definition no_reaction : InputParameters Exact.exact :=
  Exact.defaults ["A"; "B"] ("# A -> B : 1" +:+ nl +:+ "   " +:+ nl).

(** Two reversible reactions. *)
Definition two_reversible : InputParameters Exact.exact :=
  Exact.defaults ["A"; "B"; "C"; "D"; "E"]
    ("A <=> B : 1" +:+ nl +:+ "C + D <-> E : 2").

(** A reversible template with one lumped species. *)
Definition reversible_template : InputParameters Exact.exact :=
  Exact.with_lumped "M" ["X"]
    (Exact.defaults ["A"; "B"; "X"] "A + M <=> B + M : 1").

(** A balance check with an electron that is not a tracked species. *)
Definition untracked_electron : InputParameters Exact.exact :=
  {| species := ["A"; "B"];
     aux_species := None;
     electron_density := Some "e";
     electron_energy := None;
     gas_energy := None;
     reactions := "e + A -> e + B : 1";
     use_bolsig := false;
     include_electrons := false;
     lumped_species := false;
     lumped := None;
     lumped_name := None;
     balance_check := true;
     num_particles := Some [1; 1];
     convert_to_moles := false;
     convert_to_meters := Exact.Rat 1;
     file_location := "";
     interpolation_type := "spline" |}.

(** A reaction without reactants, under both unit conversions. *)
Definition no_reactant : InputParameters Exact.exact :=
  Exact.with_units (Exact.Rat (1 # 100)) (Exact.defaults ["B"] "-> B : 2").

End Sample.

(** ** The checks of the constructor, in words *)

(** The configurations the parameter checks let through. *)
Definition valid_parameters {Real : Type} (p : InputParameters Real) : Prop :=
  (interpolation_type p = "spline" \/ interpolation_type p = "linear")
  /\ (lumped_species p = true -> is_Some (lumped p))
  /\ (balance_check p = true ->
      exists weights,
        num_particles p = Some weights /\ length weights = length (species p)).

(** The first name of an energy parameter that is set. *)
Definition first_of (o : option (list string)) : list string :=
  match o with
  | Some (x :: _) => [x]
  | _ => []
  end.

(** ** What the loop over the rate files maintains *)

Section FileInvariant.
Context {Real : Type}.
Variable p : InputParameters Real.
Variable file_exists : string -> bool.

(** The loop over the identifiers, after [k] rounds. *)
Definition probed (is_identified : list bool) (identifiers0 : list string) (k : nat)
    (s : list string * list string) : Prop :=
  length s.2 = length identifiers0
  /\ (forall i, (k <= i)%nat -> s.2 !! i = identifiers0 !! i)
  /\ (forall i, (i < k)%nat ->
        (is_identified !! i <> Some true -> s.2 !! i = identifiers0 !! i)
        /\ (is_identified !! i = Some true ->
            exists identifier0 identifier,
              identifiers0 !! i = Some identifier0
              /\ s.2 !! i = Some identifier
              /\ (identifier = identifier0
                  \/ identifier = identifier0 +:+ ".txt"
                  \/ identifier = identifier0 +:+ ".csv"
                  \/ identifier = identifier0 +:+ ".dat")
              /\ file_exists (file_location p +:+ "/" +:+ identifier) = true)).

End FileInvariant.

Module Files.

(** A directory that holds the one file [/ioniz.txt]. *)
Definition only_txt (path : string) : bool := String.eqb path "/ioniz.txt".

(** A tabulated rate with a file tag, as the first reaction. *)
Definition tagged_first : InputParameters Exact.exact :=
  Exact.defaults ["A"; "B"; "e"]
    ("e + A -> e + B : EEDF (ioniz)" +:+ nl +:+ "A -> B : 1").

End Files.

(** ** What the tally of the synthesis loop leaves alone *)

(** The rows of [_species_count] in front of the one [new_index] starts
    from are never written, and no vector changes its size. *)
Definition counts_kept {Real : Type} (n : nat)
    (v0 v : superelastic_vectors (Real := Real)) : Prop :=
  Z.of_nat n - 1 <= sv_new_index v
  /\ length (sv_species_count v) = length (sv_species_count v0)
  /\ length (sv_electron_index v) = length (sv_electron_index v0)
  /\ forall j, Z.of_nat j < Z.of_nat n - 1 ->
       sv_species_count v !! j = sv_species_count v0 !! j.

(** ** Templates and targets, in words *)

Section Placeholders.
Context {Real : Type}.
Variable p : InputParameters Real.

(** A reactant that stands for the lumped species. *)
Definition is_placeholder (r : string) : bool :=
  lumped_species p && String.eqb r (getParam_string (lumped_name p)).

(** How often the placeholder stands among the reactants. *)
Definition placeholders (reactants : list string) : nat :=
  length (List.filter is_placeholder reactants).

(** The reactants of a reaction with a tabulated rate that are neither
    the placeholder nor the electron, when Bolsig+ is used. *)
Definition bolsig_targets (kind : string) (reactants : list string) : list string :=
  if String.eqb kind "EEDF" && use_bolsig p
  then List.filter
         (fun r => negb (is_placeholder r)
                   && negb (String.eqb r (getParam_string (electron_density p))))
         reactants
  else [].

End Placeholders.

(** ** The equation texts of the superelastic reactions *)

(** What the branch for a reversible reaction appends to [new_reaction]:
    the reversed equation, written out. *)
Definition reversed_text (num_products : list nat) (products reactants : list (list string))
    (i : nat) : string :=
  equation (take (default O (num_products !! i)) (default [] (products !! i))) "->"
    (default [] (reactants !! i)).

(** The texts of the reversed equations of the reactions [rs], one after
    the other. *)
Definition reversed_texts (num_products : list nat)
    (products reactants : list (list string)) (rs : list nat) : string :=
  fold_left (fun text i => text +:+ reversed_text num_products products reactants i) rs "".

(** [new_reaction] and [_reaction] once the loop of the synthesis has gone
    through the reactions below [k]: [new_reaction] is never emptied. *)
Definition texts_kept {Real : Type} (n : nat) (reversible : list bool)
    (num_products : list nat) (v0 : superelastic_vectors (Real := Real))
    (k : nat) (v : superelastic_vectors (Real := Real)) : Prop :=
  let text :=
    reversed_texts num_products (sv_products v0) (sv_reactants v0) in
  let done := length (reversibles reversible k) in
  sv_new_reaction v = text (take done (reversibles reversible n))
  /\ length (sv_reaction v) = (length (sv_reaction v0) + done)%nat
  /\ (forall j, (j < length (sv_reaction v0))%nat ->
        sv_reaction v !! j = sv_reaction v0 !! j)
  /\ (forall a, (a < done)%nat ->
        sv_reaction v !! (length (sv_reaction v0) + a)%nat
        = Some (text (take (S a) (reversibles reversible n)))).

(** The equation of reaction [i] of a network, reversed and written out,
    and the texts of several of them, one after the other. *)
Definition superelastic_text {Real : Type} (st : ChemicalReactionsBase Real)
    (i : nat) : string :=
  equation (default [] (_products st !! i)) "->" (default [] (_reactants st !! i)).

Definition superelastic_texts {Real : Type} (st : ChemicalReactionsBase Real)
    (rs : list nat) : string :=
  fold_left (fun text i => text +:+ superelastic_text st i) rs "".

(** ** The reaction numbers by rate type

    Besides [_rate_type], the rate classifier files the number of every
    reaction in one of three vectors, and counts them. [numbered] gives
    these members for the lines the classifier gets through; when
    [std::stod] throws, the constructor ends and leaves no object. *)

Record reaction_numbers : Type := {
  _eedf_reaction_number : list nat;
  _function_reaction_number : list nat;
  _constant_reaction_number : list nat;
  _num_function_reactions : nat;
  _num_constant_reactions : nat
}.

Definition number_step (nb : reaction_numbers) (il : nat * line_fields)
  : reaction_numbers :=
  if String.eqb (lf_rate_coefficient_string il.2) "EEDF" then
    {| _eedf_reaction_number := _eedf_reaction_number nb ++ [il.1];
       _function_reaction_number := _function_reaction_number nb;
       _constant_reaction_number := _constant_reaction_number nb;
       _num_function_reactions := _num_function_reactions nb;
       _num_constant_reactions := _num_constant_reactions nb |}
  else if lf_rate_equation il.2 then
    {| _eedf_reaction_number := _eedf_reaction_number nb;
       _function_reaction_number := _function_reaction_number nb ++ [il.1];
       _constant_reaction_number := _constant_reaction_number nb;
       _num_function_reactions := S (_num_function_reactions nb);
       _num_constant_reactions := _num_constant_reactions nb |}
  else
    {| _eedf_reaction_number := _eedf_reaction_number nb;
       _function_reaction_number := _function_reaction_number nb;
       _constant_reaction_number := _constant_reaction_number nb ++ [il.1];
       _num_function_reactions := _num_function_reactions nb;
       _num_constant_reactions := S (_num_constant_reactions nb) |}.

Definition numbered (lfs : list line_fields) : reaction_numbers :=
  fold_left number_step (imap pair lfs)
    {| _eedf_reaction_number := []; _function_reaction_number := [];
       _constant_reaction_number := []; _num_function_reactions := O;
       _num_constant_reactions := O |}.

(** The positions below [k] of the entries that satisfy [f], in order. *)
Definition numbers_of {A : Type} (f : A -> bool) (l : list A) (k : nat) : list nat :=
  List.filter (fun i => match l !! i with Some x => f x | None => false end) (seq 0 k).

Definition is_eedf_line (lf : line_fields) : bool :=
  String.eqb (lf_rate_coefficient_string lf) "EEDF".

Definition is_function_line (lf : line_fields) : bool :=
  negb (is_eedf_line lf) && lf_rate_equation lf.

Definition is_constant_line (lf : line_fields) : bool :=
  negb (is_eedf_line lf) && negb (lf_rate_equation lf).

(** * Properties *)

(** ** Outcomes *)

Lemma bind_inr {A B : Type} (m : result A) (k : A -> result B) (b : B) :
  bind m k = inr b -> exists a, m = inr a /\ k a = inr b.
Proof. destruct m as [e|a]; simpl; [discriminate | eauto]. Qed.

Ltac inv_bind H :=
  let a := fresh "x" in
  let Ha := fresh "Hx" in
  apply bind_inr in H; destruct H as (a & Ha & H).

Lemma ret_inr {A : Type} (a b : A) : ret a = inr b -> a = b.
Proof. unfold ret. congruence. Qed.

Lemma at_inr {A : Type} what (v : list A) i x :
  at_ what v i = inr x <-> v !! i = Some x.
Proof. unfold at_, ret. destruct (v !! i); split; congruence. Qed.

Lemma assign_inr {A : Type} what (v : list A) i x v' :
  assign what v i x = inr v' <-> (i < length v)%nat /\ v' = <[i := x]> v.
Proof.
  unfold assign, ret. destruct (decide (i < length v)%nat); split;
    intros; try tauto; (try discriminate); [split; [done | congruence] | ].
  destruct H as [_ ->]. reflexivity.
Qed.

Lemma at_Z_inr {A : Type} what (v : list A) i x :
  at_Z what v i = inr x <-> 0 <= i /\ v !! Z.to_nat i = Some x.
Proof.
  unfold at_Z. destruct (decide (0 <= i)); rewrite ?at_inr; split;
    intros; try tauto; (try discriminate); tauto.
Qed.

Lemma assign_Z_inr {A : Type} what (v : list A) i x v' :
  assign_Z what v i x = inr v'
  <-> 0 <= i /\ (Z.to_nat i < length v)%nat /\ v' = <[Z.to_nat i := x]> v.
Proof.
  unfold assign_Z. destruct (decide (0 <= i)); rewrite ?assign_inr; split;
    intros; try tauto; (try discriminate); tauto.
Qed.

Lemma mapM_inr_length {A B : Type} (f : A -> result B) l bs :
  mapM f l = inr bs -> length bs = length l.
Proof.
  revert bs. induction l as [|a l IH]; simpl; intros bs Hm.
  - apply ret_inr in Hm. subst. reflexivity.
  - inv_bind Hm. inv_bind Hm. apply ret_inr in Hm. subst. simpl.
    f_equal. eauto.
Qed.

Lemma mapM_inr_lookup {A B : Type} (f : A -> result B) l bs i a :
  mapM f l = inr bs -> l !! i = Some a ->
  exists b, bs !! i = Some b /\ f a = inr b.
Proof.
  revert bs i. induction l as [|a0 l IH]; simpl; intros bs i Hm Hl.
  - discriminate.
  - inv_bind Hm. inv_bind Hm. apply ret_inr in Hm. subst.
    destruct i as [|i]; simpl in *.
    + injection Hl as ->. eauto.
    + eauto.
Qed.

(** ** Positions in a line *)

Lemma index_of_lt c s i : index_of c s = Some i -> (i < String.length s)%nat.
Proof.
  revert i. induction s as [|a s IH]; simpl; intros i Hi; [discriminate|].
  destruct (Ascii.eqb a c).
  - injection Hi as <-. lia.
  - destruct (index_of c s) as [j|]; simpl in Hi; [|discriminate].
    injection Hi as <-. specialize (IH j eq_refl). lia.
Qed.

Lemma index_of_get c s i : index_of c s = Some i -> String.get i s = Some c.
Proof.
  revert i. induction s as [|a s IH]; simpl; intros i Hi; [discriminate|].
  destruct (Ascii.eqb_spec a c) as [->|Hne].
  - injection Hi as <-. reflexivity.
  - destruct (index_of c s) as [j|]; simpl in Hi; [|discriminate].
    injection Hi as <-. simpl. auto.
Qed.

Lemma wrap_small z : 0 <= z < 2 ^ 64 -> wrap z = z.
Proof. intros Hz. unfold wrap. apply Z.mod_small. exact Hz. Qed.

Lemma wrap_negative z : - 2 ^ 64 <= z < 0 -> wrap z = z + 2 ^ 64.
Proof.
  intros Hz. unfold wrap.
  symmetry. apply (Z.mod_unique_pos _ _ (-1)); lia.
Qed.

Lemma find_Some s c i : index_of c s = Some i -> find s c = Z.of_nat i.
Proof. unfold find. intros ->. reflexivity. Qed.

Lemma find_None s c : index_of c s = None -> find s c = npos.
Proof. unfold find. intros ->. reflexivity. Qed.

(** ** The rate field of a line (C8) *)

Section RateField.
Variable token : string.
Hypothesis Hsize : Z.of_nat (String.length token) < 2 ^ 64.

Lemma substr_to_end (p : nat) (len : Z) :
  (p < String.length token)%nat ->
  Z.of_nat (String.length token) - (Z.of_nat p + 1) <= len ->
  substr token (wrap (Z.of_nat p + 1)) len = inr (text_after token p).
Proof.
  intros Hp Hlen. rewrite wrap_small by lia. unfold substr, text_after.
  destruct (Z.ltb_spec (Z.of_nat (String.length token)) (Z.of_nat p + 1)); [lia|].
  unfold ret. f_equal. f_equal; lia.
Qed.

Lemma substr_up_to (p d : nat) :
  (p < d)%nat -> (d < String.length token)%nat ->
  substr token (wrap (Z.of_nat p + 1))
    (wrap (Z.of_nat d - wrap (Z.of_nat p + 1)))
  = inr (text_between token p d).
Proof.
  intros Hpd Hd. rewrite !wrap_small by (rewrite ?wrap_small; lia).
  unfold substr, text_between.
  destruct (Z.ltb_spec (Z.of_nat (String.length token)) (Z.of_nat p + 1)); [lia|].
  unfold ret. f_equal. f_equal; lia.
Qed.

Lemma substr_wrapped (p d : nat) :
  (p < String.length token)%nat -> (d <= p)%nat ->
  substr token (wrap (Z.of_nat p + 1))
    (wrap (Z.of_nat d - wrap (Z.of_nat p + 1)))
  = inr (text_after token p).
Proof.
  intros Hp Hd. apply substr_to_end; [exact Hp|].
  rewrite (wrap_small (Z.of_nat p + 1)) by lia.
  rewrite wrap_negative by lia. lia.
Qed.

Lemma substr_no_delimiter (p : nat) :
  (p < String.length token)%nat ->
  substr token (wrap (Z.of_nat p + 1)) (wrap (npos - wrap (Z.of_nat p + 1)))
  = inr (text_after token p).
Proof.
  intros Hp. apply substr_to_end; [exact Hp|].
  rewrite (wrap_small (Z.of_nat p + 1)) by lia.
  unfold npos. rewrite wrap_small by lia. lia.
Qed.

Lemma substr_delimited (p d : nat) :
  (p < String.length token)%nat -> (d < String.length token)%nat ->
  substr token (wrap (Z.of_nat p + 1))
    (wrap (Z.of_nat d - wrap (Z.of_nat p + 1)))
  = inr (if (p <? d)%nat then text_between token p d else text_after token p).
Proof.
  intros Hp Hd. destruct (Nat.ltb_spec p d).
  - apply substr_up_to; assumption.
  - apply substr_wrapped; assumption.
Qed.

Lemma rate_coefficient_field_parsed (p : nat) :
  index_of ":" token = Some p ->
  rate_coefficient_field token = inr (parsed_rate_field token p).
Proof.
  intros Hcolon. pose proof (index_of_lt _ _ _ Hcolon) as Hp.
  unfold rate_coefficient_field, parsed_rate_field, rate_delimiter.
  rewrite (find_Some _ _ _ Hcolon).
  destruct (index_of "(" token) as [lp|] eqn:Hlp;
    destruct (index_of "[" token) as [lb|] eqn:Hlb.
  - pose proof (index_of_lt _ _ _ Hlp). pose proof (index_of_lt _ _ _ Hlb).
    rewrite (find_Some _ _ _ Hlp), (find_Some _ _ _ Hlb).
    destruct (Nat.ltb_spec lp lb); destruct (Z.ltb_spec (Z.of_nat lp) (Z.of_nat lb));
      try lia; apply substr_delimited; assumption.
  - pose proof (index_of_lt _ _ _ Hlp).
    rewrite (find_Some _ _ _ Hlp), (find_None _ _ Hlb).
    destruct (Z.ltb_spec (Z.of_nat lp) npos); [|unfold npos in *; lia].
    apply substr_delimited; assumption.
  - pose proof (index_of_lt _ _ _ Hlb).
    rewrite (find_None _ _ Hlp), (find_Some _ _ _ Hlb).
    destruct (Z.ltb_spec npos (Z.of_nat lb)); [unfold npos in *; lia|].
    apply substr_delimited; assumption.
  - rewrite (find_None _ _ Hlp), (find_None _ _ Hlb).
    rewrite Z.ltb_irrefl. apply substr_no_delimiter; assumption.
Qed.

(** Every call of [substr] in the loop body stays within the line. *)
Lemma substr_found c (len : Z) i :
  index_of c token = Some i ->
  exists t, substr token (wrap (Z.of_nat i + 1)) len = inr t.
Proof.
  intros Hi. pose proof (index_of_lt _ _ _ Hi). rewrite wrap_small by lia.
  unfold substr.
  destruct (Z.ltb_spec (Z.of_nat (String.length token)) (Z.of_nat i + 1)); [lia|].
  eauto.
Qed.

Lemma rate_coefficient_field_total :
  exists t, rate_coefficient_field token = inr t.
Proof.
  destruct (index_of ":" token) as [p|] eqn:Hcolon.
  - rewrite (rate_coefficient_field_parsed p Hcolon). eauto.
  - unfold rate_coefficient_field. rewrite (find_None _ _ Hcolon).
    change (wrap (npos + 1)) with 0.
    unfold substr. simpl.
    destruct (Z.ltb_spec (Z.of_nat (String.length token)) 0); [lia|].
    destruct (_ <? _); eauto.
Qed.

Lemma parse_line_total : exists lf, parse_line token = inr lf.
Proof.
  unfold parse_line.
  assert (exists t, substr token 0 (find token ":") = inr t) as [t0 ->].
  { unfold substr.
    destruct (Z.ltb_spec (Z.of_nat (String.length token)) 0); [lia|]. eauto. }
  destruct rate_coefficient_field_total as [t1 ->]. simpl.
  assert (forall c len dflt,
    exists t, (if negb (find token c =? npos)
               then substr token (wrap (find token c + 1)) len
               else ret dflt) = inr t) as Hsub.
  { intros c len dflt. destruct (index_of c token) as [i|] eqn:Hi.
    - rewrite (find_Some _ _ _ Hi).
      destruct (negb _); [eapply substr_found; eassumption | unfold ret; eauto].
    - rewrite (find_None _ _ Hi). rewrite Z.eqb_refl. unfold ret. simpl. eauto. }
  destruct (Hsub "["%char
    (wrap (wrap (find token "]" - find token "[") - 1)) "") as [t2 ->]. simpl.
  destruct (Hsub "{"%char
    (wrap (wrap (find token "}" - find token "{") - 1)) "NONE") as [t3 ->]. simpl.
  destruct (negb (find token "{" =? npos)) eqn:Heq; simpl.
  - rewrite andb_false_r. simpl. eauto.
  - rewrite andb_true_r.
    destruct (Hsub "("%char
      (wrap (wrap (find token ")" - find token "(") - 1)) "NONE") as [t4 ->].
    simpl. eauto.
Qed.

End RateField.

Lemma parse_line_fields token lf :
  parse_line token = inr lf ->
  (exists rate, rate_coefficient_field token = inr rate
                /\ lf_rate_coefficient_string lf = trim rate)
  /\ lf_rate_equation lf = negb (find token "{" =? npos)
  /\ lf_is_identified lf
     = negb (find token "(" =? npos) && negb (lf_rate_equation lf)
  /\ (lf_is_identified lf = false -> lf_reaction_identifier lf = "NONE").
Proof.
  unfold parse_line. intros Hp.
  inv_bind Hp. inv_bind Hp. inv_bind Hp. inv_bind Hp. inv_bind Hp.
  apply ret_inr in Hp. subst lf. simpl.
  split; [eauto|]. split; [reflexivity|]. split; [reflexivity|].
  intros Hid. rewrite Hid in Hx3. apply ret_inr in Hx3. congruence.
Qed.

(** C8, as amended: on a line whose first colon is at [colon], the rate
    field is cut at the first [(] when that comes before the first [[]
    (or there is no [[]) and at the first [[] otherwise; it is the text
    between the colon and that delimiter when the delimiter follows the
    colon, and the text from the colon to the end of the line when the
    delimiter stands in front of the colon or does not exist. The stored
    field is that text, trimmed. *)
Theorem rate_field_tie_break (token : string) (colon : nat) :
  Z.of_nat (String.length token) < 2 ^ 64 ->
  index_of ":" token = Some colon ->
  rate_coefficient_field token = inr (parsed_rate_field token colon)
  /\ exists lf, parse_line token = inr lf
       /\ lf_rate_coefficient_string lf = trim (parsed_rate_field token colon).
Proof.
  intros Hsize Hcolon.
  pose proof (rate_coefficient_field_parsed token Hsize colon Hcolon) as Hfield.
  split; [exact Hfield|].
  destruct (parse_line_total token Hsize) as [lf Hlf]. exists lf.
  split; [exact Hlf|].
  destruct (parse_line_fields _ _ Hlf) as [(rate & Hrate & ->) _].
  congruence.
Qed.

Lemma rate_field_tie_break_witness :
  rate_coefficient_field "e + Ar -> e + Ar* : EEDF (excitation) [-11.5]"
  = inr (parsed_rate_field "e + Ar -> e + Ar* : EEDF (excitation) [-11.5]" 18)
  /\ exists lf,
       parse_line "e + Ar -> e + Ar* : EEDF (excitation) [-11.5]" = inr lf
       /\ lf_rate_coefficient_string lf
          = trim (parsed_rate_field "e + Ar -> e + Ar* : EEDF (excitation) [-11.5]" 18).
Proof.
  apply (rate_field_tie_break "e + Ar -> e + Ar* : EEDF (excitation) [-11.5]" 18).
  - vm_compute. reflexivity.
  - reflexivity.
Defined.

(** C8, the claim as worded fails: in [A(x) -> B : 5 [3]] the first [(]
    comes before the first [[], and the field is not the text between the
    colon and the [(] (in either order of the two positions) but the rest
    of the line. *)
Lemma rate_field_before_colon :
  index_of ":" "A(x) -> B : 5 [3]" = Some 10%nat
  /\ index_of "(" "A(x) -> B : 5 [3]" = Some 1%nat
  /\ index_of "[" "A(x) -> B : 5 [3]" = Some 14%nat
  /\ rate_coefficient_field "A(x) -> B : 5 [3]" = inr " 5 [3]"
  /\ rate_coefficient_field "A(x) -> B : 5 [3]"
     <> inr (worded_rate_field "A(x) -> B : 5 [3]" 10)
  /\ rate_coefficient_field "A(x) -> B : 5 [3]"
     <> inr (text_between "A(x) -> B : 5 [3]" 1 10).
Proof.
  repeat split; try reflexivity; vm_compute; discriminate.
Qed.

(** ** Identifiers of equation rates (C10) *)

Lemma classify_rate_equation {Real : Type} `{RealOps Real} lf (rf : rate_fields Real) :
  classify_rate lf = inr rf -> rf_rate_type rf = "Equation" ->
  lf_rate_equation lf = true.
Proof.
  unfold classify_rate. intros Hrf Htype. inv_bind Hrf.
  destruct (String.eqb (lf_rate_coefficient_string lf) "EEDF").
  - apply ret_inr in Hrf. subst rf. discriminate.
  - destruct (lf_rate_equation lf); [reflexivity|].
    destruct (stod (lf_rate_coefficient_string lf)); try discriminate.
    apply ret_inr in Hrf. subst rf. discriminate.
Qed.

Lemma equation_line_not_identified token lf :
  parse_line token = inr lf -> lf_rate_equation lf = true ->
  lf_is_identified lf = false /\ lf_reaction_identifier lf = "NONE".
Proof.
  intros Hlf Heq. destruct (parse_line_fields _ _ Hlf) as (_ & _ & Hid & Hnone).
  rewrite Heq, andb_false_r in Hid. auto.
Qed.


(** C10: on a line where a brace-delimited rate expression is captured
    (the line holds a [{]), the loop pushes [false] onto [_is_identified]
    and ["NONE"] onto [_reaction_identifier], whatever stands in
    parentheses; and a line that the classifier gives the rate type
    ["Equation"] is such a line, so it never carries a file identifier. *)
Theorem equation_discards_identifier {Real : Type} `{RealOps Real} (token : string) :
  Z.of_nat (String.length token) < 2 ^ 64 ->
  (exists lf, parse_line token = inr lf)
  /\ (forall lf, parse_line token = inr lf ->
        is_Some (index_of "{" token) ->
        lf_rate_equation lf = true /\ lf_is_identified lf = false
        /\ lf_reaction_identifier lf = "NONE")
  /\ (forall lf (rf : rate_fields Real),
        parse_line token = inr lf -> classify_rate lf = inr rf ->
        rf_rate_type rf = "Equation" ->
        is_Some (index_of "{" token) /\ lf_is_identified lf = false
        /\ lf_reaction_identifier lf = "NONE").
Proof.
  intros Hsize. split; [apply parse_line_total; exact Hsize|].
  pose proof (equation_line_not_identified token) as Hdrop.
  split.
  - intros lf Hlf [i Hi].
    destruct (parse_line_fields _ _ Hlf) as (_ & Heq & _).
    pose proof (index_of_lt _ _ _ Hi).
    rewrite (find_Some _ _ _ Hi) in Heq.
    destruct (Z.eqb_spec (Z.of_nat i) npos) as [E|_]; [unfold npos in E; lia|].
    simpl in Heq. split; [exact Heq|]. apply Hdrop; assumption.
  - intros lf rf Hlf Hrf Htype.
    pose proof (classify_rate_equation lf rf Hrf Htype) as Heq.
    split; [|apply Hdrop; assumption].
    destruct (parse_line_fields _ _ Hlf) as (_ & Heq' & _).
    rewrite Heq in Heq'. destruct (index_of "{" token) as [i|] eqn:Hi; [eauto|].
    rewrite (find_None _ _ Hi), Z.eqb_refl in Heq'. discriminate.
Qed.

Lemma equation_discards_identifier_witness :
  (exists lf, parse_line "A + B -> C : {2.0*exp(-1/Tgas)} (tag)" = inr lf)
  /\ (forall lf, parse_line "A + B -> C : {2.0*exp(-1/Tgas)} (tag)" = inr lf ->
        is_Some (index_of "{" "A + B -> C : {2.0*exp(-1/Tgas)} (tag)") ->
        lf_rate_equation lf = true /\ lf_is_identified lf = false
        /\ lf_reaction_identifier lf = "NONE")
  /\ (forall lf (rf : rate_fields Exact.exact),
        parse_line "A + B -> C : {2.0*exp(-1/Tgas)} (tag)" = inr lf ->
        classify_rate lf = inr rf ->
        rf_rate_type rf = "Equation" ->
        is_Some (index_of "{" "A + B -> C : {2.0*exp(-1/Tgas)} (tag)")
        /\ lf_is_identified lf = false
        /\ lf_reaction_identifier lf = "NONE").
Proof.
  apply (equation_discards_identifier "A + B -> C : {2.0*exp(-1/Tgas)} (tag)").
  vm_compute. reflexivity.
Defined.

(** ** The constructor on four inputs *)

(** C1, the code at the failing input: with species [A B C D] and the
    reactions [A <=> B : 1] and [C -> D : 1], the synthesized reaction
    [B -> A] (index 2) gets the row [2, -2, 0, 0] in [_species_count],
    where the occurrences in its products and reactants give [1, -1, 0, 0]:
    the tally under [// Calculate coefficients] runs once for every [i] of
    the loop, not once for every reversible reaction. The coefficients in
    [_reaction_stoichiometric_coeff] are the right ones. *)
Theorem species_count_tallied_twice :
  exists st,
    network Exact.reversible_first = inr st
    /\ _reactants st !! 2%nat = Some ["B"]
    /\ _products st !! 2%nat = Some ["A"]
    /\ _species_count st !! 2%nat = Some [2; -2; 0; 0]
    /\ map (fun s => occurrences s ["A"] - occurrences s ["B"]) ["A"; "B"; "C"; "D"]
       = [1; -1; 0; 0]
    /\ _reaction_participants st !! 2%nat = Some ["A"; "B"]
    /\ _reaction_stoichiometric_coeff st !! 2%nat = Some [1; -1].
Proof. eexists. split; [vm_compute; reflexivity|]. repeat split. Qed.

(** C3, the code at the failing input: with the placeholder [M], the
    lumped set [X] and the single reaction [M + M -> B : 1], two concrete
    reactions [X + X -> B] are appended for the one entry [X]:
    [_lumped_reaction] receives the index of the template once for every
    occurrence of the placeholder among its reactants. *)
Theorem template_expanded_twice :
  exists st,
    network Exact.doubled_placeholder = inr st
    /\ _lumped_reaction st = [0%nat; 0%nat]
    /\ _num_reactions st = 3%nat
    /\ _reactants st = [["M"; "M"]; ["X"; "X"]; ["X"; "X"]]
    /\ _products st = [["B"]; ["B"]; ["B"]]
    /\ _reaction_lumped st = [true; false; false].
Proof. eexists. split; [vm_compute; reflexivity|]. repeat split. Qed.

(** C4, the code at the failing input: with species [A], particle
    numbers [1], the balance check on and the reaction [A -> B : 1], the
    lookup of [B] indexes [_species] and [num_particles] one past their
    end; no [mooseError] is raised for it. *)
Theorem untracked_token_is_undefined :
  constructor Exact.untracked_product Exact.no_file
  = inl (Undefined "_species[index]")
  /\ forall msg,
       constructor Exact.untracked_product Exact.no_file <> inl (MooseError msg).
Proof.
  assert (constructor Exact.untracked_product Exact.no_file
          = inl (Undefined "_species[index]")) as E by (vm_compute; reflexivity).
  split; [exact E|]. intros msg. rewrite E. discriminate.
Qed.

(** C6, the code at the failing input: with the reactions [A -> B : 1]
    and [e + A -> e + B : EEDF (ioniz)] and no file at all, the constructor
    completes without a single call of [file_exists]: the loop runs over
    [i < _num_eedf_reactions = 1] and reads [_is_identified[0]], the flag
    of the constant reaction, so the identified reaction at index 1 is
    never looked at. *)
Theorem identified_reaction_not_probed :
  exists obj,
    constructor Exact.tagged_second Exact.no_file = inr (obj, [])
    /\ _num_eedf_reactions obj = 1%nat
    /\ _rate_type obj !! 1%nat = Some "EEDF"
    /\ _is_identified obj !! 1%nat = Some true
    /\ _reaction_identifier obj !! 1%nat = Some "ioniz".
Proof. eexists. split; [vm_compute; reflexivity|]. repeat split. Qed.

(** C2, the code at the failing input: with the placeholder [M], the
    lumped set [X] and the single reaction [A + M <=> B + M : 1], the
    lumped expansion copies the reversible flag of the template to the
    reaction [A + X <=> B + X] it creates, while [superelastic_reactions]
    has counted the one arrow read from the input. The synthesis loop
    reverses the template into the one slot appended and then, for the
    copy, indexes [_superelastic_index] past its end: no reaction is
    appended for the reversible reaction [A + X <=> B + X]. *)
Theorem reversible_copy_not_reversed :
  exists st0 st1,
    parse Sample.reversible_template = inr st0
    /\ lumped_expansion Sample.reversible_template st0 = inr st1
    /\ _reactants st1 = [["A"; "M"]; ["A"; "X"]]
    /\ _products st1 = [["B"; "M"]; ["B"; "X"]]
    /\ _reversible_reaction st1 = [true; true]
    /\ superelastic_reactions st1 = 1%nat
    /\ superelastic_synthesis Sample.reversible_template st1
       = inl (Undefined "_superelastic_index")
    /\ forall file_exists,
         constructor Sample.reversible_template file_exists
         = inl (Undefined "_superelastic_index").
Proof.
  eexists. eexists. split; [vm_compute; reflexivity|].
  split; [vm_compute; reflexivity|]. repeat split.
Qed.

(** C5, the code at the failing input: with species [A B], particle
    numbers [1 1], the electron [e], the balance check on and the reaction
    [e + A -> e + B : 1], the two sides have the same sum once the
    electron is skipped, so no equation is unbalanced; the scan looks the
    token [e] up among the tracked species before it compares with the
    electron, and indexes [_species] one past its end. *)
Theorem untracked_electron_not_skipped :
  exists st,
    network Sample.untracked_electron = inr st
    /\ _reactants st = [["e"; "A"]]
    /\ _products st = [["e"; "B"]]
    /\ unbalanced_equations Sample.untracked_electron st = []
    /\ check_balance Sample.untracked_electron st
       = inl (Undefined "_species[index]")
    /\ forall file_exists,
         constructor Sample.untracked_electron file_exists
         = inl (Undefined "_species[index]").
Proof.
  eexists. split; [vm_compute; reflexivity|]. repeat split.
Qed.

(** C7, the code at the failing input: with [convert_to_moles],
    [convert_to_meters = 0.01] and the reaction [-> B : 2], which has no
    reactant token, the rate is multiplied by
    [N_A^(2^64-1) * 0.01^(3*(2^64-1))]: the [size_t] difference
    [size() - 1] wraps, where the claim has the exponent [0 - 1]. *)
Theorem no_reactant_exponent_wraps :
  exists st,
    network Sample.no_reactant = inr st
    /\ _reactants st = [[]]
    /\ _rate_type st = ["Constant"]
    /\ _rate_coefficient st
       = [Rmul (Exact.Rat 2)
            (Rmul (Rpow avogadro (Real_of_Z (2 ^ 64 - 1)))
                  (Rpow (Exact.Rat (1 # 100))
                        (Rmul (Real_of_Z 3) (Real_of_Z (2 ^ 64 - 1)))))]
    /\ conversion_factor Sample.no_reactant 0
       = Rmul (Rpow avogadro (Real_of_Z (0 - 1)))
              (Rpow (Exact.Rat (1 # 100)) (Rmul (Real_of_Z 3) (Real_of_Z (0 - 1)))).
Proof.
  eexists. split; [lazy -[Exact.pow]; reflexivity|].
  split; [reflexivity|]. split; [reflexivity|].
  split; [lazy -[Exact.pow]; reflexivity|].
  unfold conversion_factor. reflexivity.
Qed.

(** ** Loops *)

Lemma foldM_invariant {A St : Type} (f : St -> A -> result St)
    (I : nat -> St -> Prop) (l : list A) (s s' : St) :
  I O s ->
  (forall k a s1 s2, l !! k = Some a -> I k s1 -> f s1 a = inr s2 -> I (S k) s2) ->
  foldM f l s = inr s' -> I (length l) s'.
Proof.
  revert I s. induction l as [|a l IH]; simpl; intros I s H0 Hstep Hf.
  - apply ret_inr in Hf. subst. exact H0.
  - inv_bind Hf. apply (IH (fun k => I (S k)) x).
    + apply (Hstep O a s x); [reflexivity | exact H0 | exact Hx].
    + intros k b s1 s2 Hk. apply (Hstep (S k) b s1 s2). exact Hk.
    + exact Hf.
Qed.

Lemma lookup_imap_pair {A : Type} (l : list A) k (a : nat * A) :
  imap pair l !! k = Some a -> a.1 = k /\ l !! k = Some a.2.
Proof.
  rewrite list_lookup_imap. destruct (l !! k) as [x|]; simpl; [|discriminate].
  intros [= <-]. auto.
Qed.

Lemma lookup_seq_0 n k i : seq 0 n !! k = Some i -> i = k /\ (k < n)%nat.
Proof. rewrite lookup_seq. simpl. tauto. Qed.

Lemma only_at_insert {A : Type} (v : list A) i x : only_at i v (<[i := x]> v).
Proof.
  split; [apply length_insert|]. intros j Hj. apply list_lookup_insert_ne. auto.
Qed.

Lemma assign_spec {A : Type} what (v v' : list A) i x :
  assign what v i x = inr v' ->
  (i < length v)%nat /\ only_at i v v' /\ v' !! i = Some x.
Proof.
  rewrite assign_inr. intros [Hi ->]. split; [exact Hi|].
  split; [apply only_at_insert | apply list_lookup_insert_eq; exact Hi].
Qed.

Lemma assign_Z_spec {A : Type} what (v v' : list A) (i : Z) x :
  assign_Z what v i x = inr v' ->
  0 <= i /\ (Z.to_nat i < length v)%nat /\ only_at (Z.to_nat i) v v'
  /\ v' !! Z.to_nat i = Some x.
Proof.
  rewrite assign_Z_inr. intros (H0 & Hi & ->). split; [exact H0|].
  split; [exact Hi|].
  split; [apply only_at_insert | apply list_lookup_insert_eq; exact Hi].
Qed.

Lemma copy_spec {A : Type} what (v v' : list A) i j :
  copy what v i j = inr v' ->
  (j < length v)%nat /\ only_at j v v' /\ is_Some (v !! i) /\ v' !! j = v !! i.
Proof.
  unfold copy. intros Hc. inv_bind Hc. apply at_inr in Hx.
  apply assign_spec in Hc. destruct Hc as (Hj & Ho & Hv).
  rewrite Hx. eauto.
Qed.

(** ** The parsing loops *)

Section ParseFacts.
Context {Real : Type} `{RealOps Real}.
Variable p : InputParameters Real.

Lemma split_loop_length k l (rows : list (row (Real := Real))) :
  split_loop p k l = inr rows -> length rows = length l.
Proof.
  revert k rows. induction l as [|[lf rf] l IH]; simpl; intros k rows Hs.
  - apply ret_inr in Hs. subst. reflexivity.
  - inv_bind Hs. inv_bind Hs. apply ret_inr in Hs. subst. simpl.
    f_equal. eauto.
Qed.

Lemma split_loop_lookup k l (rows : list (row (Real := Real))) i lf rf :
  split_loop p k l = inr rows -> l !! i = Some (lf, rf) ->
  exists r, rows !! i = Some r /\ split_reaction p (k + i) lf rf = inr r.
Proof.
  revert k rows i. induction l as [|[lf0 rf0] l IH]; simpl; intros k rows i Hs Hl.
  - discriminate.
  - inv_bind Hs. inv_bind Hs. apply ret_inr in Hs. subst.
    destruct i as [|i]; simpl in *.
    + injection Hl as -> ->. rewrite Nat.add_0_r. eauto.
    + destruct (IH _ _ _ Hx0 Hl) as (r & Hr & Hsp).
      exists r. split; [exact Hr|]. rewrite <- Nat.add_succ_comm. exact Hsp.
Qed.

Lemma flag_step_lumped i type f r f' :
  flag_step p i type f r = inr f' ->
  Forall (eq i) (fl_lumped_reaction f) -> Forall (eq i) (fl_lumped_reaction f').
Proof.
  unfold flag_step. intros Hf Hall.
  destruct (lumped_species p && String.eqb r (getParam_string (lumped_name p))).
  - apply ret_inr in Hf. subst f'. simpl. apply Forall_app. split; [exact Hall|].
    constructor; [reflexivity | constructor].
  - destruct (String.eqb type "EEDF" && use_bolsig p).
    + destruct (negb (isParamValid (electron_density p))); [discriminate|].
      destruct (negb (String.eqb r (getParam_string (electron_density p))));
        apply ret_inr in Hf; subst f'; exact Hall.
    + apply ret_inr in Hf. subst f'. exact Hall.
Qed.

Lemma flags_lumped i type reactants f f' :
  foldM (flag_step p i type) reactants f = inr f' ->
  Forall (eq i) (fl_lumped_reaction f) -> Forall (eq i) (fl_lumped_reaction f').
Proof.
  revert f. induction reactants as [|r l IH]; simpl; intros f Hf Hall.
  - apply ret_inr in Hf. subst. exact Hall.
  - inv_bind Hf. eapply IH; [exact Hf|]. eapply flag_step_lumped; eassumption.
Qed.

Lemma split_reaction_lumped i lf rf r :
  split_reaction p i lf rf = inr r -> Forall (eq i) (r_lumped_reaction r).
Proof.
  unfold split_reaction. intros Hs. inv_bind Hs. apply ret_inr in Hs. subst r.
  simpl. eapply flags_lumped; [exact Hx|]. constructor.
Qed.

Lemma split_loop_lumped k l (rows : list (row (Real := Real))) :
  split_loop p k l = inr rows ->
  Forall (fun t => (t < k + length l)%nat) (concat (map r_lumped_reaction rows)).
Proof.
  revert k rows. induction l as [|[lf rf] l IH]; simpl; intros k rows Hs.
  - apply ret_inr in Hs. subst. constructor.
  - inv_bind Hs. inv_bind Hs. apply ret_inr in Hs. subst. simpl.
    apply Forall_app. split.
    + eapply Forall_impl; [eapply split_reaction_lumped; exact Hx|].
      simpl. intros t <-. lia.
    + eapply Forall_impl; [apply (IH _ _ Hx0)|]. simpl. intros t Ht. lia.
Qed.

Lemma parse_inr st0 :
  parse p = inr st0 ->
  exists lfs rfs rows,
    parse_lines (reactions p) = inr lfs
    /\ mapM classify_rate lfs = inr rfs
    /\ split_loop p O (zip lfs rfs) = inr rows
    /\ length rfs = length lfs
    /\ length rows = length lfs
    /\ st0 = parsed lfs rfs rows.
Proof.
  unfold parse. intros Hp. inv_bind Hp. inv_bind Hp. inv_bind Hp.
  apply ret_inr in Hp. exists x, x0, x1.
  pose proof (mapM_inr_length _ _ _ Hx0) as Hlen.
  pose proof (split_loop_length _ _ _ Hx1) as Hrows.
  rewrite length_zip_with, Hlen, Nat.min_id in Hrows. auto 10.
Qed.

End ParseFacts.

(** ** Lumped expansion: what the loops leave in the vectors *)

Lemma written_start {A : Type} old_num (e : nat -> option A) X0 :
  written old_num 0 e X0 X0.
Proof. split; [reflexivity|]. split; [reflexivity|]. intros q' Hq. lia. Qed.

Lemma written_step {A : Type} old_num q (e : nat -> option A) X0 X X' x :
  written old_num q e X0 X ->
  only_at (old_num + q) X X' ->
  X' !! (old_num + q)%nat = Some x ->
  e q = Some x ->
  written old_num (S q) e X0 X'.
Proof.
  intros (Hlen & Hframe & Hdone) (Hlen' & Hother) Hnew He. split; [congruence|]. split.
  - intros j Hj. rewrite Hother by lia. apply Hframe. lia.
  - intros q' Hq'. destruct (decide (q' = q)) as [->|Hne].
    + rewrite Hnew, He. eauto.
    + rewrite Hother by lia. apply Hdone. lia.
Qed.

Section LumpedFacts.
Context {Real : Type} `{RealOps Real}.
Variable p : InputParameters Real.
Variable old_num : nat.
Variable lumped_reaction : list nat.
Variable v0 : lumped_vectors (Real := Real).

Let L : nat := length (getParam_vector (lumped p)).

Local Abbreviation template_of := (template_of p lumped_reaction).
Local Abbreviation concrete_of := (concrete_of p).
Local Abbreviation copied := (copied p lumped_reaction).
Local Abbreviation substituted := (substituted p old_num lumped_reaction).
Local Abbreviation lumped_inv := (lumped_inv p old_num lumped_reaction v0).

Lemma lumped_inv_start : lumped_inv 0 v0.
Proof. constructor; apply written_start. Qed.

Lemma written_copy {A : Type} (X0 X X' : list A) what q t :
  (t < old_num)%nat ->
  template_of q = Some t ->
  written old_num q (copied X0) X0 X ->
  copy what X t (old_num + q) = inr X' ->
  written old_num (S q) (copied X0) X0 X'.
Proof.
  intros Ht Htq Hw Hc. apply copy_spec in Hc.
  destruct Hc as (_ & Ho & [x Hx] & Hv). rewrite Hx in Hv.
  eapply written_step; [exact Hw | exact Ho | exact Hv |].
  unfold copied. rewrite Htq, <- Hx. symmetry. apply Hw. lia.
Qed.

Lemma written_substituted (X0 X X' : list (list string)) q t sp template slot :
  (t < old_num)%nat ->
  template_of q = Some t -> concrete_of q = Some sp ->
  written old_num q (substituted X0) X0 X ->
  at_ "_reactants" X t = inr template \/ at_ "_products" X t = inr template ->
  at_ "_reactants" X (old_num + q) = inr slot
  \/ at_ "_products" X (old_num + q) = inr slot ->
  assign "_reactants" X (old_num + q)
    (slot ++ map (substitute (getParam_string (lumped_name p)) sp) template)%list
    = inr X'
  \/ assign "_products" X (old_num + q)
    (slot ++ map (substitute (getParam_string (lumped_name p)) sp) template)%list
    = inr X' ->
  written old_num (S q) (substituted X0) X0 X'.
Proof.
  intros Ht Htq Hcq Hw Htemplate Hslot Hassign.
  assert (X !! t = Some template) as Et
    by (destruct Htemplate as [E|E]; apply at_inr in E; exact E).
  assert (X !! (old_num + q)%nat = Some slot) as Es
    by (destruct Hslot as [E|E]; apply at_inr in E; exact E).
  assert (only_at (old_num + q) X X'
          /\ X' !! (old_num + q)%nat
             = Some (slot ++ map (substitute (getParam_string (lumped_name p)) sp)
                              template)%list) as [Ho Hv]
    by (destruct Hassign as [E|E]; apply assign_spec in E; tauto).
  eapply written_step; [exact Hw | exact Ho | exact Hv |].
  unfold substituted. rewrite Htq, Hcq.
  destruct Hw as (_ & Hframe & _).
  rewrite <- (Hframe t) by lia. rewrite <- (Hframe (old_num + q)%nat) by lia.
  rewrite Et, Es. reflexivity.
Qed.

Lemma lumped_body_inv i t c sp v v' :
  (t < old_num)%nat ->
  lumped_reaction !! i = Some t ->
  getParam_vector (lumped p) !! c = Some sp ->
  lumped_inv (i * L + c) v ->
  lumped_body p old_num i t c sp v = inr v' ->
  lumped_inv (S (i * L + c)) v'.
Proof.
  intros Ht Hi Hc Hinv Hbody.
  assert (c < L)%nat as HcL by (apply lookup_lt_Some in Hc; exact Hc).
  assert (template_of (i * L + c) = Some t) as Htq.
  { unfold template_of. rewrite Nat.div_add_l by lia.
    rewrite Nat.div_small by lia. rewrite Nat.add_0_r. exact Hi. }
  assert (concrete_of (i * L + c) = Some sp) as Hcq.
  { unfold concrete_of. fold L. rewrite Nat.add_comm, Nat.Div0.mod_add.
    rewrite Nat.mod_small by lia. exact Hc. }
  unfold lumped_body in Hbody. fold L in Hbody.
  rewrite <- !Nat.add_assoc in Hbody.
  do 14 inv_bind Hbody. apply ret_inr in Hbody. subst v'.
  destruct Hinv. constructor; simpl.
  - eapply written_copy; eassumption.
  - eapply written_copy; eassumption.
  - eapply written_copy; eassumption.
  - eapply written_copy; eassumption.
  - eapply written_copy; eassumption.
  - eapply written_copy; eassumption.
  - apply assign_spec in Hx5. destruct Hx5 as (_ & Ho & Hv).
    eapply written_step; [eassumption | exact Ho | exact Hv | reflexivity].
  - eapply written_copy; eassumption.
  - eapply written_substituted; eauto.
  - eapply written_substituted; eauto.
Qed.

Lemma lumped_loop_inv v :
  Forall (fun t => (t < old_num)%nat) lumped_reaction ->
  lumped_loop p old_num lumped_reaction v0 = inr v ->
  lumped_inv (length lumped_reaction * L) v.
Proof.
  intros Hall Hloop. unfold lumped_loop in Hloop.
  rewrite <- (length_imap pair lumped_reaction).
  refine (foldM_invariant _ (fun i v => lumped_inv (i * L) v) _ _ _
            lumped_inv_start _ Hloop).
  clear Hloop v. intros i it v1 v2 Hit Hinv Hinner.
  apply lookup_imap_pair in Hit. destruct Hit as [Hi1 Hi2].
  rewrite Hi1 in Hinner.
  assert (it.2 < old_num)%nat as Ht.
  { rewrite Forall_forall in Hall. apply Hall.
    eapply list_elem_of_lookup_2. exact Hi2. }
  replace (S i * L)%nat with (i * L + L)%nat by lia.
  unfold L at 2. rewrite <- (length_imap pair (getParam_vector (lumped p))).
  refine (foldM_invariant _ (fun c v => lumped_inv (i * L + c) v) _ _ _
            _ _ Hinner).
  { rewrite Nat.add_0_r. exact Hinv. }
  clear Hinner. intros c cs v3 v4 Hcs Hinv3 Hbody.
  apply lookup_imap_pair in Hcs. destruct Hcs as [Hc1 Hc2].
  rewrite Hc1 in Hbody.
  replace (i * L + S c)%nat with (S (i * L + c)) by lia.
  eapply lumped_body_inv; eassumption.
Qed.

End LumpedFacts.

(** ** Superelastic synthesis: what the loop leaves in the vectors *)

Lemma mapM_at_seq {A : Type} what (l : list A) np taken :
  mapM (at_ what l) (seq 0 np) = inr taken ->
  taken = take np l /\ (np <= length l)%nat.
Proof.
  intros Hm.
  assert (forall j, (j < np)%nat -> taken !! j = l !! j /\ is_Some (l !! j)) as Hj.
  { intros j Hlt.
    destruct (mapM_inr_lookup _ _ _ j j Hm) as (b & Hb & Hat).
    - apply lookup_seq_lt. exact Hlt.
    - apply at_inr in Hat. rewrite Hb, Hat. eauto. }
  pose proof (mapM_inr_length _ _ _ Hm) as Hlen. rewrite length_seq in Hlen.
  assert (np <= length l)%nat as Hnp.
  { destruct np as [|np']; [lia|].
    destruct (Hj np' ltac:(lia)) as [_ Hs]. apply lookup_lt_is_Some in Hs. lia. }
  split; [|exact Hnp]. apply list_eq. intros j.
  destruct (decide (j < np)%nat) as [Hlt|Hge].
  - rewrite lookup_take_lt by exact Hlt. apply Hj. exact Hlt.
  - rewrite lookup_take_ge by lia. apply lookup_ge_None. lia.
Qed.

Section SuperelasticFacts.
Context {Real : Type} `{RealOps Real}.
Variable p : InputParameters Real.
Variable n : nat.
Variable reversible : list bool.
Variable num_products : list nat.
Variable v0 : superelastic_vectors (Real := Real).

Local Abbreviation is_reversible := (is_reversible reversible).
Local Abbreviation reversibles := (reversibles reversible).
Local Abbreviation superelastic_inv :=
  (superelastic_inv n reversible num_products v0).

Lemma reversibles_S k :
  reversibles (S k)
  = (reversibles k ++ if is_reversible k then [k] else [])%list.
Proof.
  unfold reversibles. rewrite seq_S. simpl. rewrite List.filter_app. simpl.
  destruct (is_reversible k); reflexivity.
Qed.

Lemma reversibles_prefix k m :
  (k <= m)%nat -> exists rest, reversibles m = (reversibles k ++ rest)%list.
Proof.
  induction 1 as [|m Hle [rest IH]].
  - exists []. rewrite app_nil_r. reflexivity.
  - rewrite reversibles_S, IH, <- app_assoc. eauto.
Qed.

Lemma reversibles_next k :
  (k < n)%nat -> is_reversible k = true ->
  reversibles n !! length (reversibles k) = Some k.
Proof.
  intros Hk Hrev. destruct (reversibles_prefix (S k) n ltac:(lia)) as [rest ->].
  rewrite reversibles_S, Hrev, <- app_assoc.
  rewrite lookup_app_r by lia. rewrite Nat.sub_diag. reflexivity.
Qed.

Lemma reversibles_lt k i : i ∈ reversibles k -> (i < k)%nat /\ is_reversible i = true.
Proof.
  unfold reversibles. rewrite list_elem_of_In, List.filter_In, in_seq.
  intros [Hi Hr]. split; [lia | exact Hr].
Qed.

Hypothesis Hindex0 : sv_new_index v0 = Z.of_nat n - 1.

Lemma superelastic_inv_start : superelastic_inv 0 v0.
Proof.
  constructor; try apply written_start.
  - rewrite Hindex0. lia.
  - exists []. rewrite app_nil_r. auto.
Qed.

Lemma recount_inv a v v' :
  superelastic_inv a v -> recount p v = inr v' -> superelastic_inv a v'.
Proof.
  intros Hinv Hr. unfold recount in Hr. destruct (species p).
  - apply ret_inr in Hr. subst. exact Hinv.
  - do 6 inv_bind Hr. apply ret_inr in Hr. subst v'.
    destruct Hinv. constructor; assumption.
Qed.

Lemma written_at {A : Type} a (e : nat -> option A) (X0 X X' : list A) what x :
  written n a e X0 X ->
  assign_Z what X (Z.of_nat n + Z.of_nat a) x = inr X' ->
  e a = Some x ->
  written n (S a) e X0 X'.
Proof.
  intros Hw Ha He. apply assign_Z_spec in Ha.
  replace (Z.to_nat (Z.of_nat n + Z.of_nat a)) with (n + a)%nat in Ha by lia.
  destruct Ha as (_ & _ & Ho & Hv).
  eapply written_step; [exact Hw | exact Ho | exact Hv | exact He].
Qed.

Lemma reverse_reaction_inv k v v' :
  (k < n)%nat -> is_reversible k = true ->
  superelastic_inv (length (reversibles k)) v ->
  reverse_reaction num_products k v = inr v' ->
  superelastic_inv (S (length (reversibles k))) v'.
Proof.
  intros Hk Hrev Hinv Hbody.
  pose proof (reversibles_next k Hk Hrev) as Hnext.
  set (a := length (reversibles k)) in *.
  destruct Hinv.
  assert (sv_new_index v + 1 = Z.of_nat n + Z.of_nat a) as Hidx by lia.
  unfold reverse_reaction in Hbody. rewrite Hidx in Hbody.
  do 17 inv_bind Hbody. apply ret_inr in Hbody. subst v'.
  assert (forall A (X0 X : list A) (e : nat -> option A),
            written n a e X0 X -> X !! k = X0 !! k) as Hold.
  { intros A X0 X e (_ & Hf & _). apply Hf. lia. }
  assert (forall A (X0 X : list A) (e : nat -> option A),
            written n a e X0 X -> X !! (n + a)%nat = X0 !! (n + a)%nat) as Hslot.
  { intros A X0 X e (_ & Hf & _). apply Hf. lia. }
  apply at_inr in Hx2, Hx4, Hx6, Hx8, Hx9, Hx13.
  apply at_Z_inr in Hx11, Hx14.
  replace (Z.to_nat (Z.of_nat n + Z.of_nat a)) with (n + a)%nat in Hx11, Hx14 by lia.
  destruct Hx11 as [_ Hx11]. destruct Hx14 as [_ Hx14].
  apply mapM_at_seq in Hx10. destruct Hx10 as [-> Hnp].
  rewrite (Hold _ _ _ _ si_threshold_energy0) in Hx2.
  rewrite (Hold _ _ _ _ si_rate_equation0) in Hx4.
  rewrite (Hold _ _ _ _ si_energy_change0) in Hx6.
  rewrite (Hold _ _ _ _ si_products0) in Hx9.
  rewrite (Hslot _ _ _ _ si_reactants0) in Hx11.
  rewrite (Hslot _ _ _ _ si_products0) in Hx14.
  assert (sv_reactants v0 !! k = Some x13) as Hreactants_k.
  { apply assign_Z_spec in Hx12.
    replace (Z.to_nat (Z.of_nat n + Z.of_nat a)) with (n + a)%nat in Hx12 by lia.
    destruct Hx12 as (_ & _ & (_ & Ho) & _).
    rewrite Ho in Hx13 by lia.
    rewrite (Hold _ _ _ _ si_reactants0) in Hx13. exact Hx13. }
  constructor; simpl.
  - lia.
  - destruct si_reaction0 as (appended & -> & Hlen).
    eexists. rewrite <- app_assoc. split; [reflexivity|].
    rewrite length_app. simpl. lia.
  - eapply written_at; eauto.
  - eapply written_at; eauto.
  - eapply written_at; eauto.
  - eapply written_at; eauto. unfold reversed_of. rewrite Hnext, Hx2. reflexivity.
  - eapply written_at; eauto. unfold reversed_of. rewrite Hnext, Hx4. reflexivity.
  - eapply written_at; eauto. unfold reversed_of. rewrite Hnext, Hx6. reflexivity.
  - eapply written_at; eauto. unfold reversed_of, new_reactants_of.
    rewrite Hnext, Hx9, Hx8, Hx11. reflexivity.
  - eapply written_at; eauto. unfold reversed_of, new_products_of.
    rewrite Hnext, Hreactants_k, Hx14. reflexivity.
Qed.

Lemma superelastic_body_inv k v v' :
  (k < n)%nat ->
  superelastic_inv (length (reversibles k)) v ->
  superelastic_body p reversible num_products v k = inr v' ->
  superelastic_inv (length (reversibles (S k))) v'.
Proof.
  intros Hk Hinv Hbody. unfold superelastic_body in Hbody.
  do 2 inv_bind Hbody. apply at_inr in Hx.
  rewrite reversibles_S, length_app.
  assert (is_reversible k = x) as Hrev
    by (unfold is_reversible; rewrite Hx; destruct x; reflexivity).
  rewrite Hrev. destruct x; simpl.
  - rewrite Nat.add_1_r. eapply recount_inv; [|exact Hbody].
    eapply reverse_reaction_inv; eassumption.
  - apply ret_inr in Hx0. subst x0. rewrite Nat.add_0_r.
    eapply recount_inv; eassumption.
Qed.

Lemma superelastic_loop_inv v :
  foldM (superelastic_body p reversible num_products) (seq 0 n) v0 = inr v ->
  superelastic_inv (length (reversibles n)) v.
Proof.
  intros Hloop.
  pose proof (fun Hs =>
    foldM_invariant _ (fun k v => superelastic_inv (length (reversibles k)) v)
      _ _ _ superelastic_inv_start Hs Hloop) as Hfold.
  rewrite length_seq in Hfold. apply Hfold.
  intros k i v1 v2 Hi Hinv Hbody.
  apply lookup_seq_0 in Hi. destruct Hi as [-> Hk].
  eapply superelastic_body_inv; eassumption.
Qed.

End SuperelasticFacts.

(** ** The network after each pass *)

Lemma term_step_superelastic t token :
  (t_reversible t = true -> (0 < t_superelastic t)%nat) ->
  t_reversible (term_step t token) = true ->
  (0 < t_superelastic (term_step t token))%nat.
Proof.
  unfold term_step. intros Ht.
  repeat match goal with
         | |- context [if ?c then _ else _] => destruct c
         end; simpl; auto; try discriminate; lia.
Qed.

Lemma split_terms_superelastic reaction :
  t_reversible (split_terms reaction) = true ->
  (0 < t_superelastic (split_terms reaction))%nat.
Proof.
  unfold split_terms.
  assert (t_reversible terms_init = true -> (0 < t_superelastic terms_init)%nat)
    as Hinit by (simpl; discriminate).
  revert Hinit. generalize terms_init.
  induction (getline_all " " reaction) as [|token l IH]; simpl; intros t Ht.
  - exact Ht.
  - apply IH. apply term_step_superelastic. exact Ht.
Qed.

Lemma sum_list_lookup (l : list nat) i x : l !! i = Some x -> (x <= sum_list l)%nat.
Proof.
  revert i. induction l as [|y l IH]; intros [|i]; simpl; try discriminate.
  - intros [= ->]. lia.
  - intros Hl. specialize (IH _ Hl). lia.
Qed.

Section Shapes.
Context {Real : Type} `{RealOps Real}.
Variable p : InputParameters Real.

Lemma split_reaction_superelastic i lf rf (r : row (Real := Real)) :
  split_reaction p i lf rf = inr r ->
  r_reversible r = true -> (0 < r_superelastic r)%nat.
Proof.
  unfold split_reaction. intros Hs. inv_bind Hs. apply ret_inr in Hs. subst r.
  simpl. apply split_terms_superelastic.
Qed.

Lemma parse_shape st0 : parse p = inr st0 -> parsed_shape st0.
Proof.
  intros Hp. destruct (parse_inr p st0 Hp) as
    (lfs & rfs & rows & Hlines & Hrates & Hrows & Hlen1 & Hlen2 & ->).
  constructor; simpl; rewrite ?length_map; try congruence.
  - rewrite <- Hlen1. apply List.filter_length_le.
  - rewrite map_map. reflexivity.
  - pose proof (split_loop_lumped p O _ _ Hrows) as Hall.
    rewrite length_zip_with, Hlen1, Nat.min_id in Hall. exact Hall.
  - intros i Hi. rewrite list_lookup_fmap in Hi.
    destruct (rows !! i) as [r|] eqn:Hr; simpl in Hi; [|discriminate].
    injection Hi as Hrev.
    assert (exists lf rf, zip lfs rfs !! i = Some (lf, rf)) as (lf & rf & Hz).
    { assert (i < length (zip lfs rfs))%nat as Hlt.
      { rewrite length_zip_with, Hlen1, Nat.min_id, <- Hlen2.
        eapply lookup_lt_Some. exact Hr. }
      apply lookup_lt_is_Some in Hlt. destruct Hlt as [[lf rf] Hz]. eauto. }
    destruct (split_loop_lookup p O _ _ _ _ _ Hrows Hz) as (r' & Hr' & Hsplit).
    rewrite Hr in Hr'. injection Hr' as <-.
    pose proof (split_reaction_superelastic _ _ _ _ Hsplit Hrev) as Hpos.
    pose proof (sum_list_lookup (map r_superelastic rows) i (r_superelastic r)) as Hle.
    rewrite list_lookup_fmap, Hr in Hle. specialize (Hle eq_refl). lia.
Qed.

End Shapes.

Section ExpansionFacts.
Context {Real : Type} `{RealOps Real}.
Variable p : InputParameters Real.

Lemma written_old {A : Type} N n q (e : nat -> option A) d (X Xv : list A) j :
  written N q e (resize n d X) Xv ->
  length X = N -> (N <= n)%nat -> (j < N)%nat ->
  Xv !! j = X !! j.
Proof.
  intros (_ & Hframe & _) Hlen Hle Hj.
  rewrite Hframe by lia. apply lookup_resize; lia.
Qed.

Lemma written_copied {A : Type} N n lumped_reaction Q d (X Xv : list A) q :
  written N Q (copied p lumped_reaction (resize n d X)) (resize n d X) Xv ->
  length X = N -> (N <= n)%nat -> (q < Q)%nat ->
  Forall (fun t => (t < N)%nat) lumped_reaction ->
  exists t, template_of p lumped_reaction q = Some t /\ (t < N)%nat
            /\ Xv !! (N + q)%nat = X !! t.
Proof.
  intros (_ & _ & Hdone) Hlen Hle Hq Hall.
  destruct (Hdone q Hq) as [Hv [x Hx]]. rewrite Hv. unfold copied in *.
  destruct (template_of p lumped_reaction q) as [t|] eqn:Ht; [|discriminate].
  assert (t < N)%nat as HtN.
  { rewrite Forall_forall in Hall. apply Hall.
    unfold template_of in Ht. eapply list_elem_of_lookup_2. exact Ht. }
  exists t. split; [reflexivity|]. split; [exact HtN|].
  apply lookup_resize; lia.
Qed.

Lemma written_substitution N n lumped_reaction Q (X Xv : list (list string)) q :
  written N Q (substituted p N lumped_reaction (resize n [] X)) (resize n [] X) Xv ->
  length X = N -> (N + Q <= n)%nat -> (q < Q)%nat ->
  Forall (fun t => (t < N)%nat) lumped_reaction ->
  exists t sp template,
    template_of p lumped_reaction q = Some t
    /\ concrete_of p q = Some sp
    /\ X !! t = Some template
    /\ Xv !! (N + q)%nat
       = Some (map (substitute (getParam_string (lumped_name p)) sp) template).
Proof.
  intros (_ & _ & Hdone) Hlen Hle Hq Hall.
  destruct (Hdone q Hq) as [Hv [x Hx]]. rewrite Hv. unfold substituted in *.
  destruct (template_of p lumped_reaction q) as [t|] eqn:Ht; [|discriminate].
  destruct (concrete_of p q) as [sp|] eqn:Hsp; [|discriminate].
  assert (t < N)%nat as HtN.
  { rewrite Forall_forall in Hall. apply Hall.
    unfold template_of in Ht. eapply list_elem_of_lookup_2. exact Ht. }
  rewrite lookup_resize in Hx |- * by lia.
  rewrite lookup_resize_new in Hx |- * by lia.
  destruct (X !! t) as [template|] eqn:Htemplate; [|discriminate].
  exists t, sp, template. auto.
Qed.

Lemma lumped_expansion_expanded st0 st1 :
  parsed_shape st0 -> lumped_expansion p st0 = inr st1 -> expanded p st0 st1.
Proof.
  intros Hshape Hl. destruct Hshape. unfold lumped_expansion in Hl.
  destruct (lumped_species p) eqn:Hlumped.
  2:{ apply ret_inr in Hl. subst st1.
      constructor; try reflexivity; try lia; auto 10.
      - intros j b. rewrite ps_superelastic_reaction0. discriminate. }
  inv_bind Hl. apply ret_inr in Hl. subst st1.
  apply lumped_loop_inv in Hx; [|exact ps_lumped_reaction0].
  set (N := _num_reactions st0) in *.
  set (Q := (length (_lumped_reaction st0)
             * length (getParam_vector (lumped p)))%nat) in *.
  destruct Hx. simpl in *.
  constructor; simpl; try reflexivity; try lia; try assumption.
  - repeat split;
      match goal with
      | Hw : written _ _ _ (resize _ _ ?X) ?Xv |- length ?Xv = _ =>
          destruct Hw as (-> & _); apply length_resize
      end.
  - intros j Hj.
    repeat split; eapply written_old; eauto; lia.
  - intros j b. rewrite ps_superelastic_reaction0, resize_nil in *.
    destruct li_superelastic_reaction0 as (_ & Hframe & Hdone).
    destruct (decide (j < N \/ N + Q <= j)%nat) as [Hj|Hj].
    + rewrite Hframe by exact Hj. intros Hb.
      apply lookup_replicate in Hb. tauto.
    + destruct (Hdone (j - N)%nat ltac:(lia)) as [Hv _].
      replace (N + (j - N))%nat with j in Hv by lia. rewrite Hv.
      unfold copied. destruct (template_of _ _ _); [|discriminate].
      intros Hb. apply lookup_replicate in Hb. tauto.
  - intros j Hj. split; [exact Hlumped|]. fold N in Hj.
    assert (exists q, j = (N + q)%nat /\ (q < Q)%nat) as (q & -> & Hq)
      by (exists (j - N)%nat; lia).
    fold N. replace (N + q - N)%nat with q by lia.
    destruct (written_substitution _ _ _ _ _ _ _ li_reactants0 ps_reactants0
                ltac:(lia) Hq ps_lumped_reaction0)
      as (t & sp & tr & Ht & Hsp & Htr & Hreactants).
    destruct (written_substitution _ _ _ _ _ _ _ li_products0 ps_products0
                ltac:(lia) Hq ps_lumped_reaction0)
      as (t' & sp' & tp & Ht' & Hsp' & Htp & Hproducts).
    rewrite Ht in Ht'. injection Ht' as <-.
    rewrite Hsp in Hsp'. injection Hsp' as <-.
    assert (t < N)%nat as HtN.
    { rewrite Forall_forall in ps_lumped_reaction0. apply ps_lumped_reaction0.
      unfold template_of in Ht. eapply list_elem_of_lookup_2. exact Ht. }
    assert (forall A d (X Xv : list A),
      written N Q (copied p (_lumped_reaction st0) (resize (N + Q) d X))
        (resize (N + Q) d X) Xv ->
      length X = N -> Xv !! (N + q)%nat = X !! t) as Hcopy.
    { intros A d X Xv Hw Hlen.
      destruct (written_copied _ _ _ _ _ _ _ _ Hw Hlen ltac:(lia) Hq
                  ps_lumped_reaction0) as (t' & Ht' & _ & Hv).
      rewrite Ht in Ht'. injection Ht' as <-. exact Hv. }
    exists t, sp, tr, tp.
    split; [exact HtN|]. split; [exact Ht|]. split; [exact Hsp|].
    split; [eapply Hcopy; eauto|]. split; [eapply Hcopy; eauto|].
    split; [eapply Hcopy; eauto|]. split; [eapply Hcopy; eauto|].
    split; [eapply Hcopy; eauto|]. split; [eapply Hcopy; eauto|].
    split.
    { destruct li_reaction_lumped0 as (_ & _ & Hdone).
      destruct (Hdone _ Hq) as [Hv _]. exact Hv. }
    auto.
Qed.

End ExpansionFacts.

Section SynthesisFacts.
Context {Real : Type} `{RealOps Real}.
Variable p : InputParameters Real.

Local Abbreviation resized := (resized p).

Lemma reversible_needs_counter st0 st1 i :
  parsed_shape st0 -> expanded p st0 st1 ->
  _reversible_reaction st1 !! i = Some true ->
  (0 < superelastic_reactions st1)%nat.
Proof.
  intros Hshape Hex Hi. destruct Hshape, Hex.
  rewrite ex_superelastic_reactions0.
  destruct (decide (i < _num_reactions st0)%nat) as [Hlt|Hge].
  - destruct (ex_old0 i Hlt) as (_ & _ & _ & _ & Hrev & _).
    rewrite Hrev in Hi. eauto.
  - assert (i < _num_reactions st1)%nat as Hlt.
    { apply lookup_lt_Some in Hi. lia. }
    destruct (ex_new0 i ltac:(lia)) as
      (_ & t & sp & tr & tp & _ & _ & _ & _ & _ & _ & _ & Hrev & _).
    rewrite Hrev in Hi. eauto.
Qed.

Lemma reversibles_none reversible k :
  (forall i, reversible !! i = Some true -> False) ->
  reversibles reversible k = [].
Proof.
  intros Hnone. induction k as [|k IH]; [reflexivity|].
  rewrite reversibles_S, IH. unfold is_reversible.
  destruct (reversible !! k) as [[|]|] eqn:Hk; try reflexivity.
  destruct (Hnone k Hk).
Qed.

Lemma reversibles_NoDup reversible k : NoDup (reversibles reversible k).
Proof.
  unfold reversibles. apply NoDup_ListNoDup, List.NoDup_filter, NoDup_ListNoDup.
  apply NoDup_seq.
Qed.

Lemma reversibles_elem reversible k i :
  (i < k)%nat -> reversible !! i = Some true ->
  exists a, reversibles reversible k !! a = Some i.
Proof.
  intros Hi Hrev. apply list_elem_of_lookup_1.
  unfold reversibles. rewrite list_elem_of_In, List.filter_In, in_seq.
  split; [lia|]. unfold is_reversible. rewrite Hrev. reflexivity.
Qed.

Lemma superelastic_synthesis_inv st0 st1 st2 :
  parsed_shape st0 -> expanded p st0 st1 ->
  superelastic_synthesis p st1 = inr st2 ->
  exists v,
    superelastic_inv (_num_reactions st1) (_reversible_reaction st1)
      (_num_products st1) (resized st1)
      (length (reversibles (_reversible_reaction st1) (_num_reactions st1))) v
    /\ _num_reactions st2 = (_num_reactions st1 + superelastic_reactions st1)%nat
    /\ superelastic_reactions st2 = superelastic_reactions st1
    /\ _reaction st2 = sv_reaction v
    /\ _rate_equation_string st2 = _rate_equation_string st1
    /\ _rate_equation st2 = sv_rate_equation v
    /\ _energy_change st2 = sv_energy_change v
    /\ _is_identified st2 = _is_identified st1
    /\ _reaction_identifier st2 = _reaction_identifier st1
    /\ _rate_coefficient st2 = sv_rate_coefficient v
    /\ _threshold_energy st2 = sv_threshold_energy v
    /\ _rate_type st2 = _rate_type st1
    /\ _num_eedf_reactions st2 = _num_eedf_reactions st1
    /\ _reactants st2 = sv_reactants v
    /\ _products st2 = sv_products v
    /\ _reversible_reaction st2 = _reversible_reaction st1
    /\ _reaction_lumped st2 = _reaction_lumped st1
    /\ _lumped_reaction st2 = _lumped_reaction st1
    /\ _superelastic_index st2 = sv_superelastic_index v
    /\ _superelastic_reaction st2 = sv_superelastic_reaction v.
Proof.
  intros Hshape Hex Hs. unfold superelastic_synthesis in Hs.
  fold (resized st1) in Hs. inv_bind Hs. apply ret_inr in Hs. subst st2.
  exists x. simpl. split; [|auto 25].
  destruct (decide (0 < superelastic_reactions st1)%nat) as [Hpos|Hzero].
  - eapply superelastic_loop_inv; [reflexivity | exact Hx].
  - apply ret_inr in Hx. subst x.
    rewrite reversibles_none.
    + apply superelastic_inv_start. reflexivity.
    + intros i Hi. apply Hzero. eapply reversible_needs_counter; eassumption.
Qed.

Lemma lookup_resize_Some {A : Type} n (d : A) (X : list A) j b :
  resize n d X !! j = Some b -> X !! j = Some b \/ b = d.
Proof.
  intros Hb. pose proof (lookup_lt_Some _ _ _ Hb) as Hj.
  rewrite length_resize in Hj.
  destruct (decide (j < length X)%nat) as [Hlt|Hge].
  - rewrite lookup_resize in Hb by assumption. auto.
  - rewrite lookup_resize_new in Hb by lia. right. congruence.
Qed.

End SynthesisFacts.

Section SynthesisSummary.
Context {Real : Type} `{RealOps Real}.
Variable p : InputParameters Real.

Lemma num_products_length st0 st1 i np :
  parsed_shape st0 -> expanded p st0 st1 ->
  _num_products st1 !! i = Some np ->
  exists row, _products st1 !! i = Some row /\ length row = np.
Proof.
  intros Hshape Hex Hnp. destruct Hshape, Hex.
  rewrite ex_num_products0, ps_num_products0, list_lookup_fmap in Hnp.
  destruct (_products st0 !! i) as [row|] eqn:Hrow; simpl in Hnp; [|discriminate].
  injection Hnp as <-. exists row. split; [|reflexivity].
  apply lookup_lt_Some in Hrow as Hlt. rewrite ps_products0 in Hlt.
  destruct (ex_old0 i Hlt) as (_ & _ & _ & _ & _ & _ & _ & _ & ->). exact Hrow.
Qed.

Lemma superelastic_synthesized st0 st1 st2 :
  parsed_shape st0 -> expanded p st0 st1 ->
  superelastic_synthesis p st1 = inr st2 -> synthesized st1 st2.
Proof.
  intros Hshape Hex Hs.
  destruct (superelastic_synthesis_inv p st0 st1 st2 Hshape Hex Hs) as
    (v & Hinv & Hnum & Hse & Hreaction & Hres & Hre & Hec & Hid & Hri & Hrc & Hte
       & Hrt & Hne & Hreactants & Hproducts & Hrev & Hrl & Hlr & Hsi & Hsr).
  pose proof (num_products_length st0 st1) as Hnp.
  specialize (fun i np => Hnp i np Hshape Hex).
  destruct Hshape, Hex, Hinv.
  destruct ex_length0 as
    (Lreaction & Lrc & Lrt & Lres & Lrev & Lrl & Lsc & Lreactants & Lproducts).
  set (n := _num_reactions st1) in *.
  set (se := superelastic_reactions st1) in *.
  set (R := reversibles (_reversible_reaction st1) n) in *.
  simpl in *. rewrite Lreactants in si_reactants0. rewrite Lproducts in si_products0.
  rewrite Lreactants, Lproducts in *.
  assert (forall i, _reversible_reaction st1 !! i = Some true -> (i < n)%nat) as Hrevlt.
  { intros i Hi. apply lookup_lt_Some in Hi. lia. }
  assert (forall a i, R !! a = Some i -> (i < n)%nat) as HR.
  { intros a i Ha. apply list_elem_of_lookup_2 in Ha.
    apply reversibles_lt in Ha. tauto. }
  constructor; try assumption; try congruence.
  - rewrite Hreactants, Hproducts, Hte, Hec, Hnum.
    destruct si_reactants0 as (-> & _). destruct si_products0 as (-> & _).
    destruct si_threshold_energy0 as (-> & _). destruct si_energy_change0 as (-> & _).
    rewrite !length_resize. auto.
  - intros j Hj. rewrite Hreaction, Hrc, Hreactants, Hproducts, Hte, Hec, Hnum.
    destruct si_reaction0 as (appended & -> & _).
    destruct si_rate_coefficient0 as (_ & Frc & _).
    destruct si_reactants0 as (_ & Freactants & _).
    destruct si_products0 as (_ & Fproducts & _).
    destruct si_threshold_energy0 as (_ & Fte & _).
    destruct si_energy_change0 as (_ & Fec & _).
    rewrite lookup_app_l by lia.
    rewrite Frc, Freactants, Fproducts, Fte, Fec by lia.
    rewrite !lookup_resize by lia. repeat split; reflexivity.
  - intros i Hi. specialize (Hrevlt i Hi).
    destruct (reversibles_elem _ n i Hrevlt Hi) as [a Ha]. fold R in Ha.
    assert (a < length R)%nat as HaR by (eapply lookup_lt_Some; exact Ha).
    exists a. split; [exact Ha|]. fold n.
    rewrite Hsi, Hsr, Hreactants, Hproducts, Hte, Hnum.
    destruct si_superelastic_index0 as (Lsi & _ & Dsi).
    destruct si_superelastic_reaction0 as (_ & _ & Dsr).
    destruct si_threshold_energy0 as (_ & Fte & Dte).
    destruct si_reactants0 as (_ & Freactants & Dreactants).
    destruct si_products0 as (_ & Fproducts & Dproducts).
    destruct (Dsi a HaR) as [Esi _]. destruct (Dsr a HaR) as [Esr _].
    destruct (Dte a HaR) as [Ete [e' Ete']].
    destruct (Dreactants a HaR) as [Ereactants [r1 Er1]].
    destruct (Dproducts a HaR) as [Eproducts [r2 Er2]].
    split.
    { rewrite Ha in Esi. apply lookup_lt_Some in Esi.
      rewrite Lsi, length_resize in Esi. exact Esi. }
    split; [rewrite Esi; exact Ha|]. split; [exact Esr|].
    rewrite Ereactants, Eproducts, Ete.
    rewrite (Freactants i), (Fproducts i), (Fte i) by lia.
    unfold reversed_of, new_reactants_of, new_products_of in *.
    cbn [sv_reactants sv_products resized] in *.
    rewrite Lreactants, Lproducts in *.
    fold n se R in Er1, Er2, Ete' |- *. rewrite Ha in *.
    destruct (resize (n + se) [] (_products st1) !! i) as [row|] eqn:Hrow;
      [|discriminate].
    destruct (_num_products st1 !! i) as [np|] eqn:Hnpi; [|discriminate].
    destruct (resize (n + se) [] (_reactants st1) !! (n + a)%nat) as [slot|] eqn:Hslot;
      [|discriminate].
    destruct (resize (n + se) [] (_reactants st1) !! i) as [row'|] eqn:Hrow';
      [|discriminate].
    destruct (resize (n + se) [] (_products st1) !! (n + a)%nat) as [slot'|] eqn:Hslot';
      [|discriminate].
    destruct (resize (n + se) (Real_of_Z 0) (_threshold_energy st1) !! i) as [e|] eqn:He;
      [|discriminate].
    assert (slot = []) as ->.
    { apply lookup_lt_Some in Hslot as Hlt. rewrite length_resize in Hlt.
      rewrite lookup_resize_new in Hslot by lia. congruence. }
    assert (slot' = []) as ->.
    { apply lookup_lt_Some in Hslot' as Hlt. rewrite length_resize in Hlt.
      rewrite lookup_resize_new in Hslot' by lia. congruence. }
    destruct (Hnp i np Hnpi) as (row0 & Hrow0 & Hlen).
    rewrite lookup_resize in Hrow by lia.
    rewrite Hrow0 in Hrow. injection Hrow as <-.
    rewrite <- Hlen, firstn_all. simpl. eauto 10.
  - intros m. rewrite Hsr, Hsi.
    destruct si_superelastic_reaction0 as (_ & Fsr & _).
    destruct si_superelastic_index0 as (_ & _ & Dsi).
    intros Hm.
    destruct (decide (m < n \/ n + length R <= m)%nat) as [Hout|Hin].
    + rewrite Fsr in Hm by exact Hout.
      apply lookup_resize_Some in Hm. destruct Hm as [Hm|Hm]; [|discriminate].
      apply ex_no_superelastic0 in Hm. discriminate.
    + exists (m - n)%nat.
      destruct (Dsi (m - n)%nat ltac:(lia)) as [Esi [i Hi]].
      replace (n + (m - n))%nat with m in Esi by lia.
      exists i. split; [lia|]. split; [exact Hi|]. rewrite Esi. exact Hi.
  - rewrite Hreaction, Hreactants, Hproducts, Hnum.
    destruct si_reaction0 as (appended & -> & Happ).
    rewrite length_app, Happ, Lreaction. split; [reflexivity|].
    intros j Hj.
    destruct si_reactants0 as (_ & Freactants & _).
    destruct si_products0 as (_ & Fproducts & _).
    rewrite Freactants, Fproducts by lia.
    rewrite !lookup_resize_new by lia. auto.
Qed.

End SynthesisSummary.

Section NetworkFacts.
Context {Real : Type} `{RealOps Real}.
Variable p : InputParameters Real.

Lemma stoichiometry_same st2 st :
  stoichiometry p st2 = inr st -> same_network st2 st.
Proof.
  unfold stoichiometry. intros Hs. do 3 inv_bind Hs. apply ret_inr in Hs.
  subst st. constructor; reflexivity.
Qed.

Lemma stoichiometry_local st2 st i :
  stoichiometry p st2 = inr st -> (i < _num_reactions st2)%nat ->
  exists reactants products,
    _reactants st2 !! i = Some reactants
    /\ _products st2 !! i = Some products
    /\ _reaction_participants st !! i
       = Some (reaction_participants p reactants products)
    /\ _reaction_stoichiometric_coeff st !! i
       = Some (coefficients (reaction_participants p reactants products)
                 reactants products).
Proof.
  unfold stoichiometry. intros Hs Hi. do 3 inv_bind Hs. apply ret_inr in Hs.
  subst st. simpl.
  destruct (mapM_inr_lookup _ _ _ i i Hx0) as ([parts coeffs] & Hlocal & Hone).
  { apply lookup_seq_lt. exact Hi. }
  unfold reaction_stoichiometry in Hone. do 3 inv_bind Hone.
  apply at_inr in Hx2, Hx3.
  destruct (_ && _ && _); [discriminate|]. apply ret_inr in Hone.
  injection Hone as <- <-.
  exists x2, x3. rewrite !list_lookup_fmap, Hlocal. auto.
Qed.

Lemma network_inr st :
  network p = inr st ->
  exists st0 st1 st2,
    check_parameters p = inr tt
    /\ parse p = inr st0
    /\ lumped_expansion p st0 = inr st1
    /\ superelastic_synthesis p st1 = inr st2
    /\ stoichiometry p st2 = inr st.
Proof.
  unfold network. intros Hn. do 4 inv_bind Hn. destruct x. eauto 10.
Qed.

Lemma network_stages st :
  network p = inr st ->
  exists st0 st1 st2,
    parse p = inr st0
    /\ parsed_shape st0
    /\ expanded p st0 st1
    /\ synthesized st1 st2
    /\ same_network st2 st
    /\ stoichiometry p st2 = inr st.
Proof.
  intros Hn. destruct (network_inr st Hn) as (st0 & st1 & st2 & _ & H0 & H1 & H2 & H3).
  pose proof (parse_shape p st0 H0) as Hshape.
  pose proof (lumped_expansion_expanded p st0 st1 Hshape H1) as Hex.
  exists st0, st1, st2. split; [exact H0|]. split; [exact Hshape|].
  split; [exact Hex|].
  split; [eapply superelastic_synthesized; eassumption|].
  split; [apply stoichiometry_same; exact H3 | exact H3].
Qed.

End NetworkFacts.

(** ** Superelastic reactions (C2) *)

(** Where the constructor builds a network, every reaction [i] flagged
    reversible has exactly one reaction [m] flagged superelastic whose
    [_superelastic_index] is [i]; [m] lies among the [superelastic_reactions]
    slots appended after the reactions that existed before the synthesis,
    its reactants are the products of [i] and its products the reactants
    of [i], in the same order, and its threshold energy is the negation of
    that of [i]. *)
Theorem superelastic_reaction_per_reversible {Real : Type} `{RealOps Real}
    (p : InputParameters Real) (st : ChemicalReactionsBase Real) (i : nat) :
  network p = inr st ->
  _reversible_reaction st !! i = Some true ->
  exists m,
    (_num_reactions st - superelastic_reactions st <= m < _num_reactions st)%nat
    /\ _superelastic_reaction st !! m = Some true
    /\ _superelastic_index st !! m = Some i
    /\ (forall m', _superelastic_reaction st !! m' = Some true ->
                   _superelastic_index st !! m' = Some i -> m' = m)
    /\ (exists r, _products st !! i = Some r /\ _reactants st !! m = Some r)
    /\ (exists r, _reactants st !! i = Some r /\ _products st !! m = Some r)
    /\ (exists e, _threshold_energy st !! i = Some e
                  /\ _threshold_energy st !! m = Some (Ropp e)).
Proof.
  intros Hn Hi.
  destruct (network_stages p st Hn) as (st0 & st1 & st2 & _ & _ & _ & Hsy & Hsn & _).
  destruct Hsn, Hsy.
  rewrite sn_reversible_reaction0, sy_reversible_reaction0 in Hi.
  destruct (sy_reversed0 i Hi) as (a & Ha & Hlt & Hidx & Hflag & Hr & Hp & He).
  exists (_num_reactions st1 + a)%nat.
  rewrite sn_num_reactions0, sn_superelastic_reactions0, sn_superelastic_reaction0,
    sn_superelastic_index0, sn_products0, sn_reactants0, sn_threshold_energy0.
  split; [lia|]. split; [exact Hflag|]. split; [exact Hidx|].
  split; [|auto].
  intros m' Hm' Hidx'.
  destruct (sy_flagged0 m' Hm') as (a' & i' & -> & Ha' & Hi').
  rewrite Hidx' in Hi'. injection Hi' as <-.
  f_equal. eapply NoDup_lookup; [apply reversibles_NoDup | exact Ha' | exact Ha].
Qed.

Lemma superelastic_reaction_per_reversible_witness :
  exists st,
    network Exact.reversible_first = inr st
    /\ exists m,
      (_num_reactions st - superelastic_reactions st <= m < _num_reactions st)%nat
      /\ _superelastic_reaction st !! m = Some true
      /\ _superelastic_index st !! m = Some 0%nat
      /\ (forall m', _superelastic_reaction st !! m' = Some true ->
                     _superelastic_index st !! m' = Some 0%nat -> m' = m)
      /\ (exists r, _products st !! 0%nat = Some r /\ _reactants st !! m = Some r)
      /\ (exists r, _reactants st !! 0%nat = Some r /\ _products st !! m = Some r)
      /\ (exists e, _threshold_energy st !! 0%nat = Some e
                    /\ _threshold_energy st !! m = Some (Ropp e)).
Proof.
  destruct (network Exact.reversible_first) as [e|st] eqn:Hnet;
    [vm_compute in Hnet; discriminate|].
  exists st. split; [reflexivity|].
  apply (superelastic_reaction_per_reversible Exact.reversible_first st 0 Hnet).
  vm_compute in Hnet. injection Hnet as <-. reflexivity.
Defined.

(** ** Reactions made by lumped expansion (C9) *)

Section Templates.
Context {Real : Type} `{RealOps Real}.
Variable p : InputParameters Real.

Lemma flag_step_flagged i type f r f' :
  flag_step p i type f r = inr f' ->
  (fl_lumped_reaction f <> [] -> fl_reaction_lumped f = true) ->
  fl_lumped_reaction f' <> [] -> fl_reaction_lumped f' = true.
Proof.
  unfold flag_step. intros Hf Hinv.
  destruct (lumped_species p && String.eqb r (getParam_string (lumped_name p))).
  - apply ret_inr in Hf. subst f'. reflexivity.
  - destruct (String.eqb type "EEDF" && use_bolsig p).
    + destruct (negb (isParamValid (electron_density p))); [discriminate|].
      destruct (negb (String.eqb r (getParam_string (electron_density p))));
        apply ret_inr in Hf; subst f'; exact Hinv.
    + apply ret_inr in Hf. subst f'. exact Hinv.
Qed.

Lemma flags_flagged i type reactants f f' :
  foldM (flag_step p i type) reactants f = inr f' ->
  (fl_lumped_reaction f <> [] -> fl_reaction_lumped f = true) ->
  fl_lumped_reaction f' <> [] -> fl_reaction_lumped f' = true.
Proof.
  revert f. induction reactants as [|r l IH]; simpl; intros f Hf Hinv.
  - apply ret_inr in Hf. subst. exact Hinv.
  - inv_bind Hf. eapply IH; [exact Hf|]. eapply flag_step_flagged; eassumption.
Qed.

Lemma split_reaction_flagged i lf rf (r : row (Real := Real)) :
  split_reaction p i lf rf = inr r ->
  r_lumped_reaction r <> [] -> r_reaction_lumped r = true.
Proof.
  unfold split_reaction. intros Hs. inv_bind Hs. apply ret_inr in Hs. subst r.
  simpl. eapply flags_flagged; [exact Hx|]. simpl. congruence.
Qed.

Lemma template_flagged st0 t :
  parse p = inr st0 -> t ∈ _lumped_reaction st0 ->
  _reaction_lumped st0 !! t = Some true.
Proof.
  intros Hp Ht. destruct (parse_inr p st0 Hp) as
    (lfs & rfs & rows & _ & _ & Hrows & Hlen1 & Hlen2 & ->).
  simpl in *. apply list_elem_of_In, in_concat in Ht. destruct Ht as (l & Hl & Ht).
  apply in_map_iff in Hl. destruct Hl as (r & <- & Hr).
  apply list_elem_of_In, list_elem_of_lookup in Hr. destruct Hr as [j Hj].
  apply list_elem_of_In in Ht.
  assert (exists lf rf, zip lfs rfs !! j = Some (lf, rf)) as (lf & rf & Hz).
  { assert (j < length (zip lfs rfs))%nat as Hlt.
    { rewrite length_zip_with, Hlen1, Nat.min_id, <- Hlen2.
      eapply lookup_lt_Some. exact Hj. }
    apply lookup_lt_is_Some in Hlt. destruct Hlt as [[lf rf] Hz]. eauto. }
  destruct (split_loop_lookup p O _ _ _ _ _ Hrows Hz) as (r' & Hr' & Hsplit).
  rewrite Hj in Hr'. injection Hr' as <-. simpl in Hsplit.
  pose proof (split_reaction_lumped p _ _ _ _ Hsplit) as Hall.
  rewrite Forall_forall in Hall. specialize (Hall t Ht). subst t.
  rewrite list_lookup_fmap, Hj. simpl. f_equal.
  eapply split_reaction_flagged; [exact Hsplit|].
  intros E. rewrite E in Ht. inversion Ht.
Qed.

End Templates.

(** C9: with [st0] the members after the parsing loops and [st1] after the
    lumped expansion, every reaction [j] the expansion creates has, in the
    network the constructor builds, threshold energy [0] and a false
    energy-change flag, whatever the template holds; its equation text,
    rate coefficient, rate type, rate expression and reversibility flag
    are those of its template [t], a reaction flagged [_reaction_lumped],
    and the row of [_species_count] it receives is the row of [t]. *)
Theorem lumped_reaction_defaults {Real : Type} `{RealOps Real}
    (p : InputParameters Real) (st0 st1 st : ChemicalReactionsBase Real) (j : nat) :
  parse p = inr st0 ->
  lumped_expansion p st0 = inr st1 ->
  network p = inr st ->
  (_num_reactions st0 <= j < _num_reactions st1)%nat ->
  _threshold_energy st !! j = Some (Real_of_Z 0)
  /\ _energy_change st !! j = Some false
  /\ exists t,
       (t < _num_reactions st0)%nat
       /\ _reaction_lumped st !! t = Some true
       /\ _reaction st !! j = _reaction st !! t
       /\ _rate_coefficient st !! j = _rate_coefficient st !! t
       /\ _rate_type st !! j = _rate_type st !! t
       /\ _rate_equation_string st !! j = _rate_equation_string st !! t
       /\ _reversible_reaction st !! j = _reversible_reaction st !! t
       /\ _species_count st1 !! j = _species_count st1 !! t.
Proof.
  intros Hparse Hlumped Hn Hj.
  destruct (network_inr p st Hn) as (st0' & st1' & st2 & _ & H0 & H1 & H2 & H3).
  rewrite Hparse in H0. injection H0 as <-.
  rewrite Hlumped in H1. injection H1 as <-.
  pose proof (parse_shape p st0 Hparse) as Hshape.
  pose proof (lumped_expansion_expanded p st0 st1 Hshape Hlumped) as Hex.
  pose proof (superelastic_synthesized p st0 st1 st2 Hshape Hex H2) as Hsy.
  pose proof (stoichiometry_same p st2 st H3) as Hsn.
  destruct Hsn, Hsy, Hex, Hshape.
  rewrite sn_threshold_energy0, sn_energy_change0, sn_reaction0, sn_rate_coefficient0,
    sn_rate_type0, sn_rate_equation_string0, sn_reversible_reaction0,
    sn_reaction_lumped0.
  rewrite sy_rate_type0, sy_rate_equation_string0, sy_reversible_reaction0,
    sy_reaction_lumped0.
  destruct (sy_old0 j ltac:(lia)) as (Ereaction & Erc & _ & _ & -> & ->).
  rewrite ex_threshold_energy0, ex_energy_change0.
  rewrite !lookup_resize_new by lia.
  split; [reflexivity|]. split; [reflexivity|].
  destruct (ex_new0 j Hj) as
    (_ & t & sp & tr & tp & Ht & Htemplate & _ & Nreaction & Nrc & Nrt & Nres & Nrev
       & Nsc & _).
  destruct (ex_old0 t Ht) as (Oreaction & Orc & Ort & Ores & Orev & Orl & Osc & _).
  destruct (sy_old0 t ltac:(lia)) as (Treaction & Trc & _).
  exists t. split; [exact Ht|].
  split.
  { rewrite Orl. apply (template_flagged p); [exact Hparse|].
    eapply list_elem_of_lookup_2. exact Htemplate. }
  rewrite Ereaction, Erc, Treaction, Trc. repeat split; congruence.
Qed.

Lemma lumped_reaction_defaults_witness :
  exists st0 st1 st,
    parse Exact.template_with_energy = inr st0
    /\ lumped_expansion Exact.template_with_energy st0 = inr st1
    /\ network Exact.template_with_energy = inr st
    /\ _threshold_energy st !! 0%nat = Some (Exact.Rat (7 # 2))
    /\ _threshold_energy st !! 2%nat = Some (Real_of_Z 0)
    /\ _energy_change st !! 2%nat = Some false
    /\ exists t,
         (t < _num_reactions st0)%nat
         /\ _reaction_lumped st !! t = Some true
         /\ _reaction st !! 2%nat = _reaction st !! t
         /\ _rate_coefficient st !! 2%nat = _rate_coefficient st !! t
         /\ _rate_type st !! 2%nat = _rate_type st !! t
         /\ _rate_equation_string st !! 2%nat = _rate_equation_string st !! t
         /\ _reversible_reaction st !! 2%nat = _reversible_reaction st !! t
         /\ _species_count st1 !! 2%nat = _species_count st1 !! t.
Proof.
  assert (exists st0, parse Exact.template_with_energy = inr st0) as [st0 Hparse]
    by (eexists; vm_compute; reflexivity).
  assert (exists st1, lumped_expansion Exact.template_with_energy st0 = inr st1)
    as [st1 Hlumped].
  { pose proof Hparse as Hv. vm_compute in Hv. injection Hv as <-.
    eexists. vm_compute. reflexivity. }
  assert (exists st, network Exact.template_with_energy = inr st) as [st Hnet]
    by (eexists; vm_compute; reflexivity).
  exists st0, st1, st. split; [exact Hparse|]. split; [exact Hlumped|].
  split; [exact Hnet|].
  split.
  { pose proof Hnet as Hv. vm_compute in Hv. injection Hv as <-. reflexivity. }
  apply (lumped_reaction_defaults Exact.template_with_energy st0 st1 st 2
           Hparse Hlumped Hnet).
  pose proof Hparse as Hv. vm_compute in Hv. injection Hv as <-.
  pose proof Hlumped as Hw. vm_compute in Hw. injection Hw as <-.
  simpl. lia.
Defined.

(** ** Unit conversion of the rates (C7) *)

Section Rates.
Context {Real : Type} `{RealOps Real}.
Variable p : InputParameters Real.

Lemma conversion_by_count (reactants : list string) :
  0 < Z.of_nat (length reactants) < 2 ^ 64 ->
  conversion p reactants = conversion_factor p (Z.of_nat (length reactants)).
Proof.
  intros Hr. unfold conversion, conversion_factor, exp_factor, N_A.
  rewrite wrap_small by lia. reflexivity.
Qed.

Lemma classify_rate_constant lf (rf : rate_fields Real) :
  classify_rate lf = inr rf -> rf_rate_type rf = "Constant" ->
  stod (lf_rate_coefficient_string lf) = StodValue (rf_rate_coefficient rf).
Proof.
  unfold classify_rate. intros Hc Htype. inv_bind Hc.
  destruct (String.eqb (lf_rate_coefficient_string lf) "EEDF").
  - apply ret_inr in Hc. subst rf. discriminate.
  - destruct (lf_rate_equation lf).
    + apply ret_inr in Hc. subst rf. discriminate.
    + destruct (stod (lf_rate_coefficient_string lf)); try discriminate.
      apply ret_inr in Hc. subst rf. reflexivity.
Qed.

(** What the parsing loops leave for the reaction read from line [i]. *)
Lemma parsed_rate st0 i kind reactants :
  parse p = inr st0 ->
  _rate_type st0 !! i = Some kind ->
  _reactants st0 !! i = Some reactants ->
  exists lfs lf,
    parse_lines (reactions p) = inr lfs
    /\ lfs !! i = Some lf
    /\ (kind = "Constant" ->
        exists v, stod (lf_rate_coefficient_string lf) = StodValue v
                  /\ _rate_coefficient st0 !! i
                     = Some (Rmul v (conversion p reactants)))
    /\ (kind = "Equation" ->
        _rate_equation_string st0 !! i
        = Some (lf_rate_equation_string lf +:+ "*"
                +:+ stringify (conversion p reactants))).
Proof.
  intros Hp Hkind Hreactants. destruct (parse_inr p st0 Hp) as
    (lfs & rfs & rows & Hlines & Hrates & Hrows & Hlen1 & Hlen2 & ->).
  simpl in *. rewrite list_lookup_fmap in Hkind. rewrite list_lookup_fmap in Hreactants.
  destruct (rfs !! i) as [rf|] eqn:Hrf; simpl in Hkind; [|discriminate].
  destruct (rows !! i) as [r|] eqn:Hr; simpl in Hreactants; [|discriminate].
  injection Hkind as <-. injection Hreactants as <-.
  assert (exists lf, lfs !! i = Some lf) as [lf Hlf].
  { apply lookup_lt_is_Some. rewrite <- Hlen1. eapply lookup_lt_Some. exact Hrf. }
  destruct (mapM_inr_lookup _ _ _ _ _ Hrates Hlf) as (rf' & Hrf' & Hclass).
  rewrite Hrf in Hrf'. injection Hrf' as <-.
  assert (zip lfs rfs !! i = Some (lf, rf)) as Hz.
  { apply lookup_zip_with_Some. eauto. }
  destruct (split_loop_lookup p O _ _ _ _ _ Hrows Hz) as (r' & Hr' & Hsplit).
  rewrite Hr in Hr'. injection Hr' as <-. simpl in Hsplit.
  unfold split_reaction in Hsplit. inv_bind Hsplit. apply ret_inr in Hsplit.
  exists lfs, lf. split; [exact Hlines|]. split; [exact Hlf|].
  rewrite !list_lookup_fmap, Hr. subst r. simpl. split.
  - intros Hconst. exists (rf_rate_coefficient rf).
    split; [apply classify_rate_constant; assumption|].
    rewrite Hconst. reflexivity.
  - intros Heq. rewrite Heq. reflexivity.
Qed.

End Rates.

(** In the network the constructor builds, take a reaction [i] with a
    rate type and with [r] reactant tokens, [1 <= r] (and [r] a [size_t]).
    It stems from an input line (line [i] itself for the reactions read
    from the input, the line of its template for a reaction created by
    lumped expansion). If its rate type is ["Constant"], its rate
    coefficient is the number [std::stod] reads from the rate field of
    that line, multiplied by [N_A^(r-1) * convert_to_meters^(3*(r-1))];
    if its rate type is ["Equation"], its rate expression is the captured
    expression followed by ["*"] and that factor, where [N_A] is
    [6.022e23] under [convert_to_moles] and [1] otherwise. *)
Theorem rate_conversion {Real : Type} `{RealOps Real}
    (p : InputParameters Real) (st : ChemicalReactionsBase Real)
    (i : nat) (kind : string) (reactants : list string) :
  network p = inr st ->
  _rate_type st !! i = Some kind ->
  _reactants st !! i = Some reactants ->
  0 < Z.of_nat (length reactants) < 2 ^ 64 ->
  exists lfs src lf,
    parse_lines (reactions p) = inr lfs
    /\ lfs !! src = Some lf
    /\ ((i < length lfs)%nat -> src = i)
    /\ (kind = "Constant" ->
        exists v, stod (lf_rate_coefficient_string lf) = StodValue v
                  /\ _rate_coefficient st !! i
                     = Some (Rmul v (conversion_factor p (Z.of_nat (length reactants)))))
    /\ (kind = "Equation" ->
        _rate_equation_string st !! i
        = Some (lf_rate_equation_string lf +:+ "*"
                +:+ stringify (conversion_factor p (Z.of_nat (length reactants))))).
Proof.
  intros Hn Hkind Hreactants Hr.
  destruct (network_stages p st Hn) as
    (st0 & st1 & st2 & Hparse & Hshape & Hex & Hsy & Hsn & _).
  destruct Hsn, Hsy, Hex, Hshape.
  destruct ex_length0 as (_ & _ & Lrt & _).
  rewrite sn_rate_type0, sy_rate_type0 in Hkind.
  rewrite sn_reactants0 in Hreactants.
  rewrite sn_rate_coefficient0, sn_rate_equation_string0, sy_rate_equation_string0.
  assert (i < _num_reactions st1)%nat as Hi
    by (apply lookup_lt_Some in Hkind; lia).
  destruct (sy_old0 i Hi) as (_ & Erc & Ereactants & _).
  rewrite Ereactants in Hreactants. rewrite Erc.
  assert (length (_rate_type st0) = _num_reactions st0) as Lrt0 by assumption.
  destruct (decide (i < _num_reactions st0)%nat) as [Hold|Hnew].
  - destruct (ex_old0 i Hold) as (_ & Orc & Ort & Ores & _ & _ & _ & Oreactants & _).
    rewrite Ort in Hkind. rewrite Oreactants in Hreactants. rewrite Orc, Ores.
    destruct (parsed_rate p st0 i kind reactants Hparse Hkind Hreactants) as
      (lfs & lf & Hlines & Hlf & Hconst & Heq).
    rewrite conversion_by_count in Hconst, Heq by exact Hr.
    exists lfs, i, lf. auto.
  - destruct (ex_new0 i ltac:(lia)) as
      (_ & t & sp & tr & tp & Ht & _ & _ & _ & Nrc & Nrt & Nres & _ & _ & _ & Htr
         & Nreactants & _).
    rewrite Nrt in Hkind. rewrite Nreactants in Hreactants.
    injection Hreactants as <-. rewrite Nrc, Nres.
    rewrite length_map in Hr |- *.
    destruct (parsed_rate p st0 t kind tr Hparse Hkind Htr) as
      (lfs & lf & Hlines & Hlf & Hconst & Heq).
    rewrite conversion_by_count in Hconst, Heq by exact Hr.
    exists lfs, t, lf. split; [exact Hlines|]. split; [exact Hlf|].
    split; [|auto].
    intros Hlt. exfalso.
    destruct (parse_inr p st0 Hparse) as
      (lfs' & rfs & rows & Hlines' & _ & _ & _ & _ & ->).
    rewrite Hlines in Hlines'. injection Hlines' as <-. simpl in Hnew. lia.
Qed.

Lemma rate_conversion_witness :
  exists st,
    network Exact.molar_rates = inr st
    /\ exists lfs src lf,
      parse_lines (reactions Exact.molar_rates) = inr lfs
      /\ lfs !! src = Some lf
      /\ ((0 < length lfs)%nat -> src = 0%nat)
      /\ ("Constant" = "Constant" ->
          exists v, stod (lf_rate_coefficient_string lf) = StodValue v
                    /\ _rate_coefficient st !! 0%nat
                       = Some (Rmul v (conversion_factor Exact.molar_rates 2)))
      /\ ("Constant" = "Equation" ->
          _rate_equation_string st !! 0%nat
          = Some (lf_rate_equation_string lf +:+ "*"
                  +:+ stringify (conversion_factor Exact.molar_rates 2))).
Proof.
  assert (exists st, network Exact.molar_rates = inr st) as [st Hnet]
    by (eexists; vm_compute; reflexivity).
  exists st. split; [exact Hnet|].
  apply (rate_conversion Exact.molar_rates st 0 "Constant" ["A"; "B"] Hnet).
  - pose proof Hnet as Hv. vm_compute in Hv. injection Hv as <-. reflexivity.
  - pose proof Hnet as Hv. vm_compute in Hv. injection Hv as <-. reflexivity.
  - simpl. lia.
Defined.

(** ** The balance check (C5) *)

Lemma foldM_app {A St : Type} (f : St -> A -> result St) l1 l2 s :
  foldM f (l1 ++ l2) s = bind (foldM f l1 s) (foldM f l2).
Proof.
  revert s. induction l1 as [|a l1 IH]; simpl; intros s; [reflexivity|].
  destruct (f s a) as [e|s']; simpl; [reflexivity | apply IH].
Qed.

Lemma find_index_contains v x :
  contains v x = true -> v !! find_index v x = Some x.
Proof.
  unfold contains. induction v as [|y v IH]; simpl; [discriminate|].
  rewrite (String.eqb_sym x y).
  destruct (String.eqb_spec y x) as [->|Hne]; simpl; [reflexivity | exact IH].
Qed.

Section Balance.
Context {Real : Type} `{RealOps Real}.
Variable p : InputParameters Real.
Variable weights : list Z.
Hypothesis Hweights : length weights = length (species p).

Lemma side_sum_tracked side :
  forallb (contains (species p)) side = true ->
  side_sum p weights side
  = inr (particle_sum (species p) weights (getParam_string (electron_density p)) side).
Proof.
  unfold side_sum, particle_sum. intros Hall.
  enough (forall acc,
    foldM
      (fun sum token =>
         let index := find_index (species p) token in
         let* found := at_ "_species[index]" (species p) index in
         if String.eqb found (getParam_string (electron_density p)) then ret sum
         else let* w := at_ "num_particles[index]" weights index in ret (sum + w))
      side acc
    = inr (acc + fold_right Z.add 0
                   (map (particle_weight (species p) weights
                           (getParam_string (electron_density p))) side))) as Hgen
    by (rewrite Hgen; reflexivity).
  induction side as [|token side IH]; simpl; intros acc.
  - unfold ret. f_equal; lia.
  - simpl in Hall. apply andb_true_iff in Hall. destruct Hall as [Htoken Hside].
    pose proof (find_index_contains _ _ Htoken) as Hfound.
    unfold at_ at 1. rewrite Hfound. simpl. unfold particle_weight at 1.
    destruct (String.eqb token (getParam_string (electron_density p))); simpl.
    + rewrite (IH Hside). f_equal; lia.
    + assert (is_Some (weights !! find_index (species p) token)) as [w Hw].
      { apply lookup_lt_is_Some. rewrite Hweights.
        eapply lookup_lt_Some. exact Hfound. }
      unfold at_. rewrite Hw. simpl. rewrite (IH Hside). f_equal; lia.
Qed.

End Balance.

Section BalanceScan.
Context {Real : Type} `{RealOps Real}.
Variable p : InputParameters Real.
Variable st : ChemicalReactionsBase Real.
Hypothesis Hweights :
  length (getParam_vector (num_particles p)) = length (species p).
Hypothesis Htracked : all_tracked p st = true.
Hypothesis Hsides :
  forall i, (i < _num_reactions st)%nat ->
    is_Some (_reactants st !! i) /\ is_Some (_products st !! i).
Hypothesis Htexts :
  forall i, (i < _num_reactions st)%nat -> sums_differ p st i = true ->
    is_Some (_reaction st !! i).

Lemma tracked_side side :
  side ∈ _reactants st \/ side ∈ _products st ->
  forallb (contains (species p)) side = true.
Proof.
  intros Hside. unfold all_tracked in Htracked.
  rewrite forallb_forall in Htracked. apply Htracked.
  apply in_or_app. rewrite <- !list_elem_of_In. exact Hside.
Qed.

Lemma balance_scan_prefix k :
  (k <= _num_reactions st)%nat ->
  foldM
    (fun faulty_reaction i =>
       let* reactants := at_ "_reactants" (_reactants st) i in
       let* r_sum := side_sum p (getParam_vector (num_particles p)) reactants in
       let* products := at_ "_products" (_products st) i in
       let* p_sum := side_sum p (getParam_vector (num_particles p)) products in
       if negb (r_sum =? p_sum)
       then let* text := at_ "_reaction" (_reaction st) i in
            ret (faulty_reaction ++ [text])%list
       else ret faulty_reaction)
    (seq 0 k) []
  = inr (map (fun i => default "" (_reaction st !! i))
           (List.filter (sums_differ p st) (seq 0 k))).
Proof.
  induction k as [|k IH]; intros Hk; [reflexivity|].
  rewrite seq_S, foldM_app, IH by lia. simpl.
  destruct (Hsides k ltac:(lia)) as [[r Hr] [pr Hpr]].
  unfold at_ at 1. rewrite Hr. simpl.
  rewrite (side_sum_tracked p _ Hweights r)
    by (apply tracked_side; left; eapply list_elem_of_lookup_2; exact Hr).
  simpl. unfold at_ at 1. rewrite Hpr. simpl.
  rewrite (side_sum_tracked p _ Hweights pr)
    by (apply tracked_side; right; eapply list_elem_of_lookup_2; exact Hpr).
  simpl. rewrite List.filter_app, map_app. simpl.
  assert (sums_differ p st k
          = negb (particle_sum (species p) (getParam_vector (num_particles p))
                    (getParam_string (electron_density p)) r
                  =? particle_sum (species p) (getParam_vector (num_particles p))
                       (getParam_string (electron_density p)) pr)) as Hdiff.
  { unfold sums_differ. rewrite Hr, Hpr. reflexivity. }
  rewrite <- Hdiff. destruct (sums_differ p st k) eqn:Hk'; simpl.
  - destruct (Htexts k ltac:(lia) Hk') as [text Htext].
    unfold at_. rewrite Htext. reflexivity.
  - rewrite app_nil_r. reflexivity.
Qed.

Lemma balance_scan_all :
  balance_scan p (getParam_vector (num_particles p)) st
  = inr (unbalanced_equations p st).
Proof. apply balance_scan_prefix. lia. Qed.

End BalanceScan.

Lemma check_parameters_weights {Real : Type} (p : InputParameters Real) :
  check_parameters p = inr tt -> balance_check p = true ->
  length (getParam_vector (num_particles p)) = length (species p).
Proof.
  unfold check_parameters. intros Hc Hb. rewrite Hb in Hc. simpl in Hc.
  destruct (_ && _); [discriminate|].
  destruct (_ && _); [discriminate|].
  destruct (negb (isParamValid (num_particles p))); [discriminate|].
  destruct (Nat.eqb_spec (length (getParam_vector (num_particles p)))
              (length (species p))); [assumption | discriminate].
Qed.

(** When the balance check is requested and every token of the
    network is a tracked species, the check goes through all reactions,
    sums on each side the particle numbers of the terms other than the
    electron, and collects the equation text of every reaction whose two
    sums differ; it passes when it collected nothing, and otherwise ends
    the constructor with one [mooseError] whose message lists every
    collected text, in order. *)
Theorem balance_check_diagnostic {Real : Type} `{RealOps Real}
    (p : InputParameters Real) (st : ChemicalReactionsBase Real) :
  network p = inr st ->
  balance_check p = true ->
  all_tracked p st = true ->
  check_balance p st
  = match unbalanced_equations p st with
    | [] => inr tt
    | _ :: _ => inl (MooseError (unbalanced_message (unbalanced_equations p st)))
    end
  /\ (forall i, (i < _num_reactions st)%nat -> sums_differ p st i = true ->
        exists text, _reaction st !! i = Some text
                     /\ text ∈ unbalanced_equations p st)
  /\ (forall file_exists, unbalanced_equations p st <> [] ->
        constructor p file_exists
        = inl (MooseError (unbalanced_message (unbalanced_equations p st)))).
Proof.
  intros Hn Hb Htracked.
  destruct (network_inr p st Hn) as (st0' & st1' & st2' & Hparams & _).
  pose proof (check_parameters_weights p Hparams Hb) as Hweights.
  destruct (network_stages p st Hn) as
    (st0 & st1 & st2 & _ & _ & _ & Hsy & Hsn & _).
  assert (forall i, (i < _num_reactions st)%nat ->
            is_Some (_reactants st !! i) /\ is_Some (_products st !! i)) as Hsides.
  { intros i Hi. destruct Hsn, Hsy. destruct sy_length0 as (Lr & Lp & _).
    rewrite sn_reactants0, sn_products0.
    split; apply lookup_lt_is_Some; lia. }
  assert (forall i, (i < _num_reactions st)%nat -> sums_differ p st i = true ->
            is_Some (_reaction st !! i)) as Htexts.
  { intros i Hi Hdiff. apply lookup_lt_is_Some.
    destruct (decide (i < length (_reaction st))%nat) as [Hlt|Hge]; [exact Hlt|].
    exfalso. destruct Hsn, Hsy. destruct sy_tail0 as [_ Htail].
    unfold sums_differ in Hdiff.
    rewrite sn_reactants0, sn_products0 in Hdiff.
    rewrite sn_reaction0 in Hge. rewrite sn_num_reactions0 in Hi.
    destruct (Htail i ltac:(lia)) as [E1 E2]. rewrite E1, E2 in Hdiff.
    simpl in Hdiff. discriminate Hdiff. }
  assert (check_balance p st
          = match unbalanced_equations p st with
            | [] => inr tt
            | _ :: _ =>
                inl (MooseError (unbalanced_message (unbalanced_equations p st)))
            end) as Hcheck.
  { unfold check_balance. rewrite Hb.
    rewrite (balance_scan_all p st Hweights Htracked Hsides Htexts). simpl.
    destruct (unbalanced_equations p st); reflexivity. }
  split; [exact Hcheck|]. split.
  - intros i Hi Hdiff. destruct (Htexts i Hi Hdiff) as [text Htext].
    exists text. split; [exact Htext|].
    unfold unbalanced_equations. apply list_elem_of_In, in_map_iff.
    exists i. rewrite Htext. split; [reflexivity|].
    apply List.filter_In. split; [apply in_seq; lia | exact Hdiff].
  - intros file_exists Hne. unfold constructor. rewrite Hn. simpl.
    rewrite Hcheck. destruct (unbalanced_equations p st); [congruence|reflexivity].
Qed.

Lemma balance_check_diagnostic_witness :
  exists st,
    network Exact.one_unbalanced = inr st
    /\ unbalanced_equations Exact.one_unbalanced st = ["A -> C"]
    /\ check_balance Exact.one_unbalanced st
       = match unbalanced_equations Exact.one_unbalanced st with
         | [] => inr tt
         | _ :: _ =>
             inl (MooseError
                    (unbalanced_message (unbalanced_equations Exact.one_unbalanced st)))
         end
    /\ (forall i, (i < _num_reactions st)%nat ->
          sums_differ Exact.one_unbalanced st i = true ->
          exists text, _reaction st !! i = Some text
                       /\ text ∈ unbalanced_equations Exact.one_unbalanced st)
    /\ (forall file_exists, unbalanced_equations Exact.one_unbalanced st <> [] ->
          constructor Exact.one_unbalanced file_exists
          = inl (MooseError
                   (unbalanced_message (unbalanced_equations Exact.one_unbalanced st)))).
Proof.
  assert (exists st, network Exact.one_unbalanced = inr st) as [st Hnet]
    by (eexists; vm_compute; reflexivity).
  exists st. split; [exact Hnet|].
  split.
  { pose proof Hnet as Hv. vm_compute in Hv. injection Hv as <-. reflexivity. }
  apply (balance_check_diagnostic Exact.one_unbalanced st Hnet).
  - reflexivity.
  - pose proof Hnet as Hv. vm_compute in Hv. injection Hv as <-. reflexivity.
Defined.

(** ** Stoichiometric coefficients (C1) *)

Lemma fold_tally_up s l c :
  fold_left (fun c r => if String.eqb r s then c + 1 else c) l c
  = c + occurrences s l.
Proof.
  unfold occurrences. revert c. induction l as [|r l IH]; simpl; intros c; [lia|].
  rewrite IH, (String.eqb_sym s r). destruct (String.eqb r s); simpl; lia.
Qed.

Lemma fold_tally_down s l c :
  fold_left (fun c r => if String.eqb r s then c - 1 else c) l c
  = c - occurrences s l.
Proof.
  unfold occurrences. revert c. induction l as [|r l IH]; simpl; intros c; [lia|].
  rewrite IH, (String.eqb_sym s r). destruct (String.eqb r s); simpl; lia.
Qed.

Lemma tally_one_occurrences s reactants products c :
  tally_one s reactants products c
  = c + occurrences s products - occurrences s reactants.
Proof. unfold tally_one. rewrite fold_tally_up, fold_tally_down. lia. Qed.

Lemma coefficients_lookup participants reactants products j s :
  participants !! j = Some s ->
  coefficients participants reactants products !! j
  = Some (occurrences s products - occurrences s reactants).
Proof.
  intros Hj. unfold coefficients. rewrite list_lookup_fmap, Hj. simpl.
  rewrite tally_one_occurrences. f_equal.
Qed.

Lemma insert_sorted_In x y l : In x (insert_sorted y l) <-> x = y \/ In x l.
Proof.
  induction l as [|z l IH]; simpl; [intuition congruence|].
  destruct (String.leb y z); simpl; [intuition congruence|].
  rewrite IH. intuition congruence.
Qed.

Lemma sort_In x l : In x (sort l) <-> In x l.
Proof.
  unfold sort. induction l as [|y l IH]; simpl; [tauto|].
  rewrite insert_sorted_In, IH. intuition congruence.
Qed.

Lemma unique_In x l : In x (unique l) <-> In x l.
Proof.
  induction l as [|y l IH]; [tauto|].
  change (unique (y :: l)) with
    (match l with
     | [] => [y]
     | z :: _ => if String.eqb y z then unique l else y :: unique l
     end).
  destruct l as [|z l']; [tauto|].
  destruct (String.eqb_spec y z) as [->|Hne].
  - rewrite IH. simpl. tauto.
  - simpl in *. rewrite IH. tauto.
Qed.

(** The order of [std::sort]. *)
Lemma leb_trans a b c :
  String.leb a b = true -> String.leb b c = true -> String.leb a c = true.
Proof.
  unfold String.leb. intros Hab Hbc.
  destruct (String.compare a b) eqn:Eab; try discriminate;
    destruct (String.compare b c) eqn:Ebc; try discriminate.
  - apply String.compare_eq_iff in Eab. subst. rewrite Ebc. reflexivity.
  - apply String.compare_eq_iff in Eab. subst. rewrite Ebc. reflexivity.
  - apply String.compare_eq_iff in Ebc. subst. rewrite Eab. reflexivity.
  - apply String_as_OT.cmp_lt in Eab, Ebc.
    pose proof (String_as_OT.lt_trans _ _ _ Eab Ebc) as Hac.
    apply String_as_OT.cmp_lt in Hac.
    change (String_as_OT.cmp a c) with (String.compare a c) in Hac.
    rewrite Hac. reflexivity.
Qed.

Lemma insert_sorted_ascending x l : ascending l -> ascending (insert_sorted x l).
Proof.
  induction l as [|y l IH]; simpl; [tauto|]. intros [Hy Hl].
  destruct (String.leb x y) eqn:Hxy; simpl.
  - split; [|auto]. intros z [<-|Hz]; [exact Hxy|].
    eapply leb_trans; [exact Hxy | auto].
  - split; [|auto]. intros z Hz. apply insert_sorted_In in Hz.
    destruct Hz as [->|Hz]; [|auto].
    destruct (String.leb_total x y) as [E|E]; congruence.
Qed.

Lemma sort_ascending l : ascending (sort l).
Proof.
  unfold sort. induction l as [|x l IH]; simpl; [exact I|].
  apply insert_sorted_ascending. exact IH.
Qed.

Lemma unique_NoDup l : ascending l -> NoDup (unique l).
Proof.
  induction l as [|x l IH]; [constructor|].
  change (unique (x :: l)) with
    (match l with
     | [] => [x]
     | z :: _ => if String.eqb x z then unique l else x :: unique l
     end).
  intros [Hx Hl]. destruct l as [|z l'].
  - apply NoDup_singleton.
  - destruct (String.eqb_spec x z) as [->|Hne]; [auto|].
    constructor; [|auto].
    rewrite list_elem_of_In, unique_In. intros Hin.
    destruct Hl as [Hz _].
    assert (String.leb z x = true) as Hzx.
    { destruct Hin as [->|Hin]; [congruence | auto]. }
    apply Hne. apply String.leb_antisym; [apply Hx; left; reflexivity | exact Hzx].
Qed.

Lemma contains_In v x : contains v x = true <-> In x v.
Proof.
  unfold contains. rewrite existsb_exists. split.
  - intros (y & Hy & Heq). apply String.eqb_eq in Heq. congruence.
  - intros Hx. exists x. split; [exact Hx | apply String.eqb_refl].
Qed.

(** X24: in the network the constructor builds, the participants recorded
    for a reaction are its tracked tokens, each once, and the coefficient
    recorded for each of them is the number of its occurrences among the
    products minus the number among the reactants. *)
Theorem reaction_stoichiometric_coeff_exact {Real : Type} `{RealOps Real}
    (p : InputParameters Real) (st : ChemicalReactionsBase Real) (i : nat) :
  network p = inr st ->
  (i < _num_reactions st)%nat ->
  exists reactants products participants coeffs,
    _reactants st !! i = Some reactants
    /\ _products st !! i = Some products
    /\ _reaction_participants st !! i = Some participants
    /\ _reaction_stoichiometric_coeff st !! i = Some coeffs
    /\ length coeffs = length participants
    /\ NoDup participants
    /\ (forall s, s ∈ participants
                  <-> In s (species p) /\ (In s reactants \/ In s products))
    /\ (forall j s, participants !! j = Some s ->
          coeffs !! j = Some (occurrences s products - occurrences s reactants)).
Proof.
  intros Hn Hi.
  destruct (network_stages p st Hn) as (st0 & st1 & st2 & _ & _ & _ & _ & Hsn & Hst).
  destruct Hsn. rewrite sn_num_reactions0 in Hi.
  destruct (stoichiometry_local p st2 st i Hst Hi) as
    (reactants & products & Hr & Hp & Hparts & Hcoeffs).
  exists reactants, products, (reaction_participants p reactants products),
    (coefficients (reaction_participants p reactants products) reactants products).
  rewrite sn_reactants0, sn_products0.
  split; [exact Hr|]. split; [exact Hp|]. split; [exact Hparts|].
  split; [exact Hcoeffs|].
  split; [unfold coefficients; apply length_map|].
  split.
  { unfold reaction_participants. apply NoDup_ListNoDup, List.NoDup_filter,
      NoDup_ListNoDup, unique_NoDup, sort_ascending. }
  split.
  { intros s. unfold reaction_participants.
    rewrite list_elem_of_In, List.filter_In, unique_In, sort_In, in_app_iff,
      contains_In. tauto. }
  intros j s Hj. apply coefficients_lookup. exact Hj.
Qed.

(** ** An untracked token under the balance check (C4) *)

(** A side that holds a token outside the tracked species stops the
    balance check at the first such token, on the read of [_species] one
    past its end; it is not a [mooseError]. *)
Lemma side_sum_untracked {Real : Type} `{RealOps Real}
    (p : InputParameters Real) (weights : list Z) (side : list string) :
  length weights = length (species p) ->
  forallb (contains (species p)) side = false ->
  side_sum p weights side = inl (Undefined "_species[index]").
Proof.
  intros Hweights. unfold side_sum. generalize 0.
  induction side as [|token side IH]; simpl; intros acc Hall; [discriminate|].
  destruct (contains (species p) token) eqn:Htoken; simpl in Hall.
  - pose proof (find_index_contains _ _ Htoken) as Hfound.
    unfold at_ at 1. rewrite Hfound. simpl.
    destruct (String.eqb token (getParam_string (electron_density p))); simpl.
    + apply IH. exact Hall.
    + assert (is_Some (weights !! find_index (species p) token)) as [w Hw].
      { apply lookup_lt_is_Some. rewrite Hweights.
        eapply lookup_lt_Some. exact Hfound. }
      unfold at_ at 1. rewrite Hw. simpl. apply IH. exact Hall.
  - assert (species p !! find_index (species p) token = None) as Hnone.
    { clear -Htoken. unfold contains in Htoken.
      induction (species p) as [|y v IHv]; simpl in *; [reflexivity|].
      rewrite (String.eqb_sym token y) in Htoken.
      destruct (String.eqb y token); simpl in *; [discriminate | auto]. }
    unfold at_ at 1. rewrite Hnone. reflexivity.
Qed.

(** ** The order of the file probes (C6) *)

(** X27: for one identifier the four names are tried in the order bare,
    [.txt], [.csv], [.dat], up to the first that exists. *)
Lemma resolve_file_order (file_exists : string -> bool) (fileloc : string) :
  let names :=
    [fileloc; fileloc +:+ ".txt"; fileloc +:+ ".csv"; fileloc +:+ ".dat"] in
  exists k,
    (resolve_file file_exists fileloc).1 = take k names
    /\ (1 <= k <= 4)%nat
    /\ (forall name, name ∈ take (k - 1) names -> file_exists name = false)
    /\ match (resolve_file file_exists fileloc).2 with
       | Bare => k = 1%nat /\ file_exists fileloc = true
       | Suffixed suffix =>
           names !! (k - 1)%nat = Some (fileloc +:+ suffix)
           /\ file_exists (fileloc +:+ suffix) = true
       | Missing => k = 4%nat /\ file_exists (fileloc +:+ ".dat") = false
       end.
Proof.
  intros names. unfold resolve_file.
  destruct (file_exists fileloc) eqn:E0.
  { exists 1%nat. simpl. repeat split; try lia. intros name Hn. inversion Hn. }
  destruct (file_exists (fileloc +:+ ".txt")) eqn:E1.
  { exists 2%nat. simpl. repeat split; try lia; try assumption.
    intros name Hn. apply list_elem_of_In in Hn. simpl in Hn.
    destruct Hn as [<-|[]]. exact E0. }
  destruct (file_exists (fileloc +:+ ".csv")) eqn:E2.
  { exists 3%nat. simpl. repeat split; try lia; try assumption.
    intros name Hn. apply list_elem_of_In in Hn. simpl in Hn.
    destruct Hn as [<-|[<-|[]]]; assumption. }
  destruct (file_exists (fileloc +:+ ".dat")) eqn:E3.
  { exists 4%nat. simpl. repeat split; try lia; try assumption.
    intros name Hn. apply list_elem_of_In in Hn. simpl in Hn.
    destruct Hn as [<-|[<-|[<-|[]]]]; assumption. }
  exists 4%nat. simpl. repeat split; try lia; try assumption.
  intros name Hn. apply list_elem_of_In in Hn. simpl in Hn.
  destruct Hn as [<-|[<-|[<-|[]]]]; assumption.
Qed.

(** ** Equation rates in the network *)

(** In the network the constructor builds, no reaction of rate type
    ["Equation"] is flagged [_is_identified]: a reaction read from the
    input has the flag [false] and the identifier ["NONE"], and the flags
    do not extend to the reactions created afterwards. *)
Theorem equation_reaction_not_identified {Real : Type} `{RealOps Real}
    (p : InputParameters Real) (st : ChemicalReactionsBase Real) (i : nat) :
  network p = inr st ->
  _rate_type st !! i = Some "Equation" ->
  _is_identified st !! i <> Some true
  /\ (is_Some (_is_identified st !! i) ->
      _is_identified st !! i = Some false
      /\ _reaction_identifier st !! i = Some "NONE").
Proof.
  intros Hn Htype.
  destruct (network_stages p st Hn) as
    (st0 & st1 & st2 & Hparse & Hshape & Hex & Hsy & Hsn & _).
  destruct Hsn, Hsy, Hex, Hshape.
  rewrite sn_rate_type0, sy_rate_type0 in Htype.
  rewrite sn_is_identified0, sy_is_identified0, ex_is_identified0.
  rewrite sn_reaction_identifier0, sy_reaction_identifier0, ex_reaction_identifier0.
  enough (is_Some (_is_identified st0 !! i) ->
          _is_identified st0 !! i = Some false
          /\ _reaction_identifier st0 !! i = Some "NONE") as Hdrop.
  { split; [|exact Hdrop]. intros Hid.
    destruct (Hdrop ltac:(rewrite Hid; eauto)) as [Hfalse _]. congruence. }
  intros Hsome. apply lookup_lt_is_Some in Hsome.
  rewrite ps_is_identified0 in Hsome.
  destruct (ex_old0 i Hsome) as (_ & _ & Ort & _). rewrite Ort in Htype.
  destruct (parse_inr p st0 Hparse) as
    (lfs & rfs & rows & Hlines & Hrates & _ & Hlen1 & _ & ->).
  simpl in *. rewrite list_lookup_fmap in Htype.
  destruct (rfs !! i) as [rf|] eqn:Hrf; simpl in Htype; [|discriminate].
  injection Htype as Htype.
  assert (exists lf, lfs !! i = Some lf) as [lf Hlf]
    by (apply lookup_lt_is_Some; exact Hsome).
  destruct (mapM_inr_lookup _ _ _ _ _ Hrates Hlf) as (rf' & Hrf' & Hclass).
  rewrite Hrf in Hrf'. injection Hrf' as <-.
  pose proof (classify_rate_equation lf rf Hclass Htype) as Heq.
  unfold parse_lines in Hlines.
  assert (exists token, parse_line token = inr lf) as [token Htoken].
  { clear -Hlines Hlf. revert lfs i Hlines Hlf.
    induction (reaction_lines (reactions p)) as [|token l IH]; simpl;
      intros lfs i Hlines Hlf.
    - apply ret_inr in Hlines. subst. discriminate.
    - inv_bind Hlines. inv_bind Hlines. apply ret_inr in Hlines. subst.
      destruct i as [|i]; simpl in Hlf; [injection Hlf as <-; eauto | eauto]. }
  destruct (equation_line_not_identified token lf Htoken Heq) as [Hid Hnone].
  rewrite !list_lookup_fmap, Hlf. simpl. rewrite Hid, Hnone. auto.
Qed.

(** ** One pass of the superelastic branch *)

(** Whether or not the rest of the constructor completes: when the branch
    for a reversible reaction [i] completes, with [m] the slot it uses
    (one past [new_index]), empty before, and [_num_products[i]] the
    number of products of [i], then the slot holds the reversed reaction. *)
Lemma reverse_reaction_slot {Real : Type} `{RealOps Real}
    (num_products : list nat) (i : nat)
    (v v' : superelastic_vectors (Real := Real)) (products_i : list string) :
  reverse_reaction num_products i v = inr v' ->
  i <> Z.to_nat (sv_new_index v + 1) ->
  num_products !! i = Some (length products_i) ->
  sv_products v !! i = Some products_i ->
  sv_reactants v !! Z.to_nat (sv_new_index v + 1) = Some [] ->
  sv_products v !! Z.to_nat (sv_new_index v + 1) = Some [] ->
  sv_new_index v' = sv_new_index v + 1
  /\ sv_superelastic_index v' !! Z.to_nat (sv_new_index v') = Some i
  /\ sv_superelastic_reaction v' !! Z.to_nat (sv_new_index v') = Some true
  /\ sv_reactants v' !! Z.to_nat (sv_new_index v') = Some products_i
  /\ sv_products v' !! Z.to_nat (sv_new_index v') = sv_reactants v !! i
  /\ sv_reactants v' !! i = sv_reactants v !! i
  /\ sv_products v' !! i = Some products_i
  /\ exists e, sv_threshold_energy v !! i = Some e
               /\ sv_threshold_energy v' !! Z.to_nat (sv_new_index v') = Some (Ropp e).
Proof.
  intros Hbody Hne Hnp Hproducts Hslot Hslot'.
  unfold reverse_reaction in Hbody.
  do 17 inv_bind Hbody. apply ret_inr in Hbody. subst v'. simpl.
  set (m := Z.to_nat (sv_new_index v + 1)) in *.
  apply assign_Z_spec in Hx, Hx0, Hx3, Hx12, Hx15. fold m in Hx, Hx0, Hx3, Hx12, Hx15.
  apply at_inr in Hx2, Hx8, Hx9, Hx13.
  apply at_Z_inr in Hx11, Hx14. fold m in Hx11, Hx14.
  destruct Hx as (_ & _ & _ & Esi). destruct Hx0 as (_ & _ & _ & Esr).
  destruct Hx3 as (_ & _ & _ & Ete).
  destruct Hx12 as (_ & _ & (_ & Oreactants) & Ereactants).
  destruct Hx15 as (_ & _ & (_ & Oproducts) & Eproducts).
  destruct Hx11 as [_ Hx11]. destruct Hx14 as [_ Hx14].
  rewrite Hnp in Hx8. injection Hx8 as <-.
  rewrite Hproducts in Hx9. injection Hx9 as <-.
  apply mapM_at_seq in Hx10. destruct Hx10 as [-> _]. rewrite firstn_all in *.
  rewrite Hslot in Hx11. injection Hx11 as <-.
  rewrite Hslot' in Hx14. injection Hx14 as <-.
  rewrite Oreactants in Hx13 by exact Hne.
  split; [reflexivity|]. split; [exact Esi|]. split; [exact Esr|].
  split; [exact Ereactants|]. split; [rewrite Eproducts; symmetry; exact Hx13|].
  split; [apply Oreactants; exact Hne|].
  split; [rewrite Oproducts by exact Hne; exact Hproducts|].
  eauto.
Qed.

(** * Further properties *)

Lemma append_cons (a : ascii) (s t : string) : String a s +:+ t = String a (s +:+ t).
Proof. reflexivity. Qed.

Lemma append_snoc (acc : string) (d : ascii) (t : string) :
  (acc +:+ String d "") +:+ t = acc +:+ String d t.
Proof.
  induction acc as [|a acc IH]; [reflexivity|].
  rewrite !append_cons, IH. reflexivity.
Qed.

Lemma append_nil_r (s : string) : s +:+ "" = s.
Proof. induction s as [|a s IH]; [reflexivity | rewrite append_cons, IH; reflexivity]. Qed.

Lemma append_assoc (a b c : string) : (a +:+ b) +:+ c = a +:+ (b +:+ c).
Proof. induction a as [|x a IH]; [reflexivity | rewrite !append_cons, IH; reflexivity]. Qed.

Lemma length_append (a b : string) :
  String.length (a +:+ b) = (String.length a + String.length b)%nat.
Proof. induction a as [|x a IH]; [reflexivity | rewrite append_cons; simpl; rewrite IH; reflexivity]. Qed.

Lemma getline_all_skip delim c s :
  isspace c = true -> getline_all delim (String c s) = getline_all delim s.
Proof. intros Hc. simpl. rewrite Hc. reflexivity. Qed.

Lemma getline_all_token delim c s :
  isspace c = false ->
  getline_all delim (String c s)
  = String c (span delim s).1
    :: match (span delim s).2 with
       | Some r => getline_all delim r
       | None => []
       end.
Proof.
  intros Hc. simpl. rewrite Hc.
  change (String c (span delim s).1) with (String c "" +:+ (span delim s).1).
  generalize (String c ""). induction s as [|d s IH]; intros acc; simpl.
  - rewrite append_nil_r. reflexivity.
  - destruct (Ascii.eqb d delim); simpl.
    + rewrite append_nil_r. reflexivity.
    + rewrite IH, append_snoc. reflexivity.
Qed.

Lemma span_length delim s t r :
  span delim s = (t, Some r) -> (String.length r < String.length s)%nat.
Proof.
  revert t. induction s as [|d s IH]; simpl; intros t Hs; [discriminate|].
  destruct (Ascii.eqb d delim).
  - injection Hs as <- <-. lia.
  - destruct (span delim s) as [t' o] eqn:Hspan. simpl in Hs.
    injection Hs as <- ->. specialize (IH t' eq_refl). lia.
Qed.

Lemma span_token_length delim s :
  (String.length (span delim s).1 <= String.length s)%nat.
Proof.
  induction s as [|d s IH]; simpl; [lia|].
  destruct (Ascii.eqb d delim); simpl; lia.
Qed.

(** Induction along the tokens [getline] reads. *)
Lemma getline_all_ind (delim : ascii) (P : string -> list string -> Prop) :
  P "" [] ->
  (forall c s, isspace c = true -> P s (getline_all delim s) ->
               P (String c s) (getline_all delim s)) ->
  (forall c s, isspace c = false -> (span delim s).2 = None ->
               P (String c s) [String c (span delim s).1]) ->
  (forall c s r, isspace c = false -> (span delim s).2 = Some r ->
                 P r (getline_all delim r) ->
                 P (String c s) (String c (span delim s).1 :: getline_all delim r)) ->
  forall s, P s (getline_all delim s).
Proof.
  intros Hnil Hskip Hlast Hnext s.
  remember (String.length s) as n eqn:Hn.
  revert s Hn. induction n as [n IH] using lt_wf_ind. intros s Hn.
  destruct s as [|c s]; [exact Hnil|].
  destruct (isspace c) eqn:Hc.
  - rewrite getline_all_skip by exact Hc.
    apply Hskip; [exact Hc|]. apply (IH (String.length s)); [simpl in Hn; lia | reflexivity].
  - rewrite getline_all_token by exact Hc.
    destruct (span delim s) as [t o] eqn:Hspan. destruct o as [r|]; simpl.
    + pose proof (span_length _ _ _ _ Hspan) as Hlt.
      replace t with (span delim s).1 by (rewrite Hspan; reflexivity).
      apply Hnext; [exact Hc | rewrite Hspan; reflexivity |].
      apply (IH (String.length r)); [simpl in Hn; lia | reflexivity].
    + replace t with (span delim s).1 by (rewrite Hspan; reflexivity).
      apply Hlast; [exact Hc | rewrite Hspan; reflexivity].
Qed.

Lemma getline_all_length delim s :
  Forall (fun t => (String.length t <= String.length s)%nat) (getline_all delim s).
Proof.
  apply (getline_all_ind delim
    (fun s ts => Forall (fun t => (String.length t <= String.length s)%nat) ts)).
  - constructor.
  - intros c s' _ IH. eapply Forall_impl; [exact IH|]. simpl. intros t Ht. lia.
  - intros c s' _ _. constructor; [|constructor].
    simpl. pose proof (span_token_length delim s'). lia.
  - intros c s' r _ Hr IH. constructor.
    + simpl. pose proof (span_token_length delim s'). lia.
    + eapply Forall_impl; [exact IH|]. simpl. intros t Ht.
      destruct (span delim s') as [t' o] eqn:Hspan. simpl in Hr. subst o.
      pose proof (span_length _ _ _ _ Hspan). lia.
Qed.

Lemma getline_all_blank delim pad s :
  blank pad = true -> getline_all delim (pad +:+ s) = getline_all delim s.
Proof.
  unfold blank. induction pad as [|c pad IH]; simpl; intros Hpad; [reflexivity|].
  apply andb_true_iff in Hpad. destruct Hpad as [Hc Hpad].
  rewrite Hc. apply IH. exact Hpad.
Qed.

Lemma span_to_delim delim l r :
  all_chars (fun d => negb (Ascii.eqb d delim)) l = true ->
  span delim (l +:+ String delim r) = (l, Some r).
Proof.
  induction l as [|d l IH]; simpl; intros Hl.
  - rewrite Ascii.eqb_refl. reflexivity.
  - apply andb_true_iff in Hl. destruct Hl as [Hd Hl].
    apply negb_true_iff in Hd. rewrite Hd, (IH Hl). reflexivity.
Qed.

Lemma span_to_end delim l :
  all_chars (fun d => negb (Ascii.eqb d delim)) l = true ->
  span delim l = (l, None).
Proof.
  induction l as [|d l IH]; simpl; intros Hl; [reflexivity|].
  apply andb_true_iff in Hl. destruct Hl as [Hd Hl].
  apply negb_true_iff in Hd. rewrite Hd, (IH Hl). reflexivity.
Qed.

Lemma is_token_cons delim c l :
  is_token delim (String c l) = true ->
  isspace c = false /\ all_chars (fun d => negb (Ascii.eqb d delim)) l = true.
Proof.
  unfold is_token. intros Hl. apply andb_true_iff in Hl. destruct Hl as [Hc Hl].
  apply negb_true_iff in Hc. auto.
Qed.

Lemma getline_all_one delim l :
  is_token delim l = true -> getline_all delim l = [l].
Proof.
  destruct l as [|c l]; [discriminate|]. intros Hl.
  apply is_token_cons in Hl. destruct Hl as [Hc Hl].
  rewrite getline_all_token by exact Hc.
  rewrite (span_to_end _ _ Hl). reflexivity.
Qed.

Lemma getline_all_first delim l r :
  is_token delim l = true ->
  getline_all delim (l +:+ String delim r) = l :: getline_all delim r.
Proof.
  destruct l as [|c l]; [discriminate|]. intros Hl.
  apply is_token_cons in Hl. destruct Hl as [Hc Hl].
  rewrite append_cons, getline_all_token by exact Hc.
  rewrite (span_to_delim _ _ _ Hl). reflexivity.
Qed.

Lemma getline_all_delimited delim (ls : list (string * string)) :
  Forall (fun pl => blank pl.1 && is_token delim pl.2 = true) ls ->
  getline_all delim (delimited delim ls) = map snd ls.
Proof.
  induction ls as [|[pad l] ls IH]; intros Hls; [reflexivity|].
  apply Forall_cons in Hls. destruct Hls as [Hl Hls]. simpl in Hl.
  apply andb_true_iff in Hl. destruct Hl as [Hpad Hl].
  specialize (IH Hls).
  destruct ls as [|pl ls].
  - simpl. rewrite getline_all_blank by exact Hpad. apply getline_all_one. exact Hl.
  - change (delimited delim ((pad, l) :: pl :: ls))
      with (pad +:+ l +:+ String delim (delimited delim (pl :: ls))).
    rewrite getline_all_blank by exact Hpad.
    rewrite getline_all_first by exact Hl. rewrite IH. reflexivity.
Qed.

Lemma span_app_none delim s t x :
  span delim s = (t, None) ->
  span delim (s +:+ String delim x) = (t, Some x).
Proof.
  revert t. induction s as [|d s IH]; intros t Hs.
  - simpl in Hs. injection Hs as <-. simpl. rewrite Ascii.eqb_refl. reflexivity.
  - rewrite append_cons. simpl in *. destruct (Ascii.eqb d delim); [discriminate|].
    destruct (span delim s) as [t' o] eqn:Hspan. simpl in Hs.
    injection Hs as <- ->. rewrite (IH t' eq_refl). reflexivity.
Qed.

Lemma span_app_some delim s t r x :
  span delim s = (t, Some r) ->
  span delim (s +:+ x) = (t, Some (r +:+ x)).
Proof.
  revert t. induction s as [|d s IH]; intros t Hs; [discriminate|].
  rewrite append_cons. simpl in *. destruct (Ascii.eqb d delim).
  - injection Hs as <- <-. reflexivity.
  - destruct (span delim s) as [t' o] eqn:Hspan. simpl in Hs.
    injection Hs as <- ->. rewrite (IH t' eq_refl). reflexivity.
Qed.

(** A delimiter that is white space makes no token when it ends the text. *)
Lemma getline_all_final delim s :
  isspace delim = true ->
  getline_all delim (s +:+ String delim "") = getline_all delim s.
Proof.
  intros Hd.
  apply (getline_all_ind delim
    (fun s ts => getline_all delim (s +:+ String delim "") = ts)).
  - simpl. rewrite Hd. reflexivity.
  - intros c s' Hc IH. rewrite append_cons, getline_all_skip by exact Hc. exact IH.
  - intros c s' Hc Hnone. rewrite append_cons, getline_all_token by exact Hc.
    destruct (span delim s') as [t o] eqn:Hspan. simpl in Hnone. subst o.
    rewrite (span_app_none _ _ _ _ Hspan). reflexivity.
  - intros c s' r Hc Hsome IH. rewrite append_cons, getline_all_token by exact Hc.
    destruct (span delim s') as [t o] eqn:Hspan. simpl in Hsome. subst o.
    rewrite (span_app_some _ _ _ _ _ Hspan). simpl. rewrite IH. reflexivity.
Qed.

Lemma is_comment_starts_with_hash l : is_comment l = starts_with_hash l.
Proof.
  unfold is_comment, find. destruct l as [|c l]; [reflexivity|]. cbn [index_of].
  destruct (Ascii.eqb_spec c "#") as [->|Hne]; [reflexivity|].
  assert (starts_with_hash (String c l) = false) as ->.
  { destruct c as [[] [] [] [] [] [] [] []]; try reflexivity. congruence. }
  destruct (index_of "#" l) as [i|]; reflexivity.
Qed.

Lemma mapM_total {A B : Type} (f : A -> result B) (l : list A) :
  Forall (fun a => exists b, f a = inr b) l ->
  exists bs, mapM f l = inr bs.
Proof.
  induction l as [|a l IH]; intros Hl; [simpl; unfold ret; eauto|].
  apply Forall_cons in Hl. destruct Hl as [[b Hb] Hl].
  destruct (IH Hl) as [bs Hbs]. simpl. rewrite Hb, Hbs. simpl. unfold ret. eauto.
Qed.

(** X2: the loop over the lines never leaves by an exception: every call of
    [substr] it makes starts within the line it works on. For every input
    text (of a size a [size_t] holds) it completes, with one entry in each
    of its vectors for every line it does not skip. *)
Theorem parse_lines_total (input : string) :
  Z.of_nat (String.length input) < 2 ^ 64 ->
  exists lfs,
    parse_lines input = inr lfs
    /\ length lfs = length (reaction_lines input)
    /\ forall i token, reaction_lines input !! i = Some token ->
         exists lf, lfs !! i = Some lf /\ parse_line token = inr lf.
Proof.
  intros Hsize. unfold parse_lines.
  assert (Forall (fun a => exists b, parse_line a = inr b) (reaction_lines input)) as Hall.
  { unfold reaction_lines. apply Forall_forall. intros token Htoken.
    apply list_elem_of_In, List.filter_In in Htoken. destruct Htoken as [Htoken _].
    pose proof (getline_all_length "010" input) as Hlen.
    rewrite Forall_forall in Hlen. apply list_elem_of_In in Htoken.
    specialize (Hlen token Htoken). simpl in Hlen.
    apply parse_line_total. lia. }
  destruct (mapM_total _ _ Hall) as [lfs Hlfs]. exists lfs.
  split; [exact Hlfs|]. split; [eapply mapM_inr_length; exact Hlfs|].
  intros i token Hi. eapply mapM_inr_lookup; eassumption.
Qed.

Lemma parse_lines_total_witness :
  exists lfs,
    parse_lines ("# rates" +:+ nl +:+ "A -> B : 1 [" +:+ nl +:+ "]{(:") = inr lfs
    /\ length lfs
       = length (reaction_lines ("# rates" +:+ nl +:+ "A -> B : 1 [" +:+ nl +:+ "]{(:"))
    /\ forall i token,
         reaction_lines ("# rates" +:+ nl +:+ "A -> B : 1 [" +:+ nl +:+ "]{(:") !! i
         = Some token ->
         exists lf, lfs !! i = Some lf /\ parse_line token = inr lf.
Proof.
  apply (parse_lines_total ("# rates" +:+ nl +:+ "A -> B : 1 [" +:+ nl +:+ "]{(:")).
  vm_compute. reflexivity.
Defined.

(** X3: of a text made of lines with a newline between them, each line after
    any white space (blank lines included), the loop reads the lines that do
    not start with [#], in order, one reaction for each; a newline at the
    end of the text adds nothing. *)
Theorem comment_lines_skipped (ls : list (string * string)) :
  Forall (fun pl => blank pl.1 && is_token "010" pl.2 = true) ls ->
  reaction_lines (delimited "010" ls)
  = List.filter (fun l => negb (starts_with_hash l)) (map snd ls)
  /\ reaction_lines (delimited "010" ls +:+ nl) = reaction_lines (delimited "010" ls)
  /\ parse_lines (delimited "010" ls)
     = mapM parse_line (List.filter (fun l => negb (starts_with_hash l)) (map snd ls)).
Proof.
  intros Hls.
  assert (reaction_lines (delimited "010" ls)
          = List.filter (fun l => negb (starts_with_hash l)) (map snd ls)) as E.
  { unfold reaction_lines. rewrite getline_all_delimited by exact Hls.
    apply List.filter_ext. intros l. rewrite is_comment_starts_with_hash. reflexivity. }
  split; [exact E|]. split.
  - unfold reaction_lines, nl. rewrite getline_all_final by reflexivity. reflexivity.
  - unfold parse_lines. rewrite E. reflexivity.
Qed.

Lemma comment_lines_skipped_witness :
  reaction_lines
    (delimited "010" [("", "# rates"); ("  ", "A -> B : 1"); (nl +:+ "  ", "C -> D : 2 #")])
  = ["A -> B : 1"; "C -> D : 2 #"]
  /\ reaction_lines
       (delimited "010"
          [("", "# rates"); ("  ", "A -> B : 1"); (nl +:+ "  ", "C -> D : 2 #")] +:+ nl)
     = reaction_lines
         (delimited "010"
            [("", "# rates"); ("  ", "A -> B : 1"); (nl +:+ "  ", "C -> D : 2 #")])
  /\ parse_lines
       (delimited "010"
          [("", "# rates"); ("  ", "A -> B : 1"); (nl +:+ "  ", "C -> D : 2 #")])
     = mapM parse_line ["A -> B : 1"; "C -> D : 2 #"].
Proof.
  apply (comment_lines_skipped
           [("", "# rates"); ("  ", "A -> B : 1"); (nl +:+ "  ", "C -> D : 2 #")]).
  repeat constructor.
Defined.

(** ** The fields of a line *)

Lemma substring_all (s : string) (n : nat) :
  (String.length s <= n)%nat -> substring 0 n s = s.
Proof.
  revert n. induction s as [|c s IH]; intros n Hn; [destruct n; reflexivity|].
  destruct n as [|n]; simpl in *; [lia|]. rewrite IH by lia. reflexivity.
Qed.

Section LineFields.
Variable token : string.
Hypothesis Hsize : Z.of_nat (String.length token) < 2 ^ 64.

Lemma substr_from_start (len : Z) :
  0 <= len ->
  substr token 0 len
  = inr (if decide (len < Z.of_nat (String.length token))
         then text_before token (Z.to_nat len) else token).
Proof.
  intros Hlen. unfold substr, text_before, ret.
  destruct (Z.ltb_spec (Z.of_nat (String.length token)) 0); [lia|].
  f_equal. destruct (decide _) as [Hlt|Hge].
  - f_equal. lia.
  - apply substring_all. lia.
Qed.

Lemma substr_enclosed (opening closing : ascii) (dflt : string) :
  opening <> closing ->
  (if negb (find token opening =? npos)
   then substr token (wrap (find token opening + 1))
          (wrap (wrap (find token closing - find token opening) - 1))
   else ret dflt)
  = inr (default dflt (enclosed token opening closing)).
Proof.
  intros Hne. unfold enclosed.
  destruct (index_of opening token) as [a|] eqn:Ha.
  - pose proof (index_of_lt _ _ _ Ha) as Hlt. rewrite (find_Some _ _ _ Ha).
    destruct (Z.eqb_spec (Z.of_nat a) npos) as [E|_]; [unfold npos in E; lia|]. simpl.
    destruct (index_of closing token) as [b|] eqn:Hb.
    + pose proof (index_of_lt _ _ _ Hb) as Hltb. rewrite (find_Some _ _ _ Hb).
      destruct (Nat.ltb_spec a b) as [Hab|Hba].
      * rewrite !wrap_small by (rewrite ?wrap_small; lia).
        unfold substr, text_between, ret.
        destruct (Z.ltb_spec (Z.of_nat (String.length token)) (Z.of_nat a + 1)); [lia|].
        f_equal. f_equal; lia.
      * assert (b <> a) as Hba'.
        { intros ->. apply index_of_get in Ha, Hb. congruence. }
        apply substr_to_end; [exact Hsize | exact Hlt |].
        rewrite (wrap_negative (Z.of_nat b - Z.of_nat a)) by lia.
        rewrite wrap_small by lia. lia.
    + rewrite (find_None _ _ Hb).
      apply substr_to_end; [exact Hsize | exact Hlt |].
      unfold npos. rewrite !wrap_small by (rewrite ?wrap_small; lia). lia.
  - rewrite (find_None _ _ Ha). reflexivity.
Qed.

Lemma find_npos (c : ascii) : negb (find token c =? npos) = holds token c.
Proof.
  unfold holds, find. destruct (index_of c token) as [i|] eqn:Hi; [|reflexivity].
  pose proof (index_of_lt _ _ _ Hi).
  destruct (Z.eqb_spec (Z.of_nat i) npos) as [E|_]; [unfold npos in E; lia|]. reflexivity.
Qed.

End LineFields.

(** X5: on every line, the bracketed fields are cut as follows. The
    threshold energy string is what the line holds after its first [[], up
    to the first []] when that comes later and to the end of the line
    otherwise, and it is empty on a line without [[]; [_energy_change] tells
    whether the line holds a [[]. The rate expression is cut the same way by
    [{] and [}], the identifier by [(] and [)]; they are ["NONE"] on a line
    without the opening character, and so is the identifier on every line
    that holds a [{]. None of the three is trimmed. *)
Theorem bracketed_fields (token : string) (lf : line_fields) :
  Z.of_nat (String.length token) < 2 ^ 64 ->
  parse_line token = inr lf ->
  lf_energy_change lf = holds token "["
  /\ lf_threshold_energy_string lf = default "" (enclosed token "[" "]")
  /\ lf_rate_equation lf = holds token "{"
  /\ lf_rate_equation_string lf = default "NONE" (enclosed token "{" "}")
  /\ lf_is_identified lf = holds token "(" && negb (holds token "{")
  /\ lf_reaction_identifier lf
     = if holds token "{" then "NONE" else default "NONE" (enclosed token "(" ")").
Proof.
  intros Hsize Hlf. unfold parse_line in Hlf.
  inv_bind Hlf. inv_bind Hlf. inv_bind Hlf. inv_bind Hlf. inv_bind Hlf.
  apply ret_inr in Hlf. subst lf. simpl.
  rewrite (substr_enclosed token Hsize "[" "]" "") in Hx1 by discriminate.
  rewrite (substr_enclosed token Hsize "{" "}" "NONE") in Hx2 by discriminate.
  injection Hx1 as <-. injection Hx2 as <-.
  pose proof (find_npos token Hsize "{") as Hb.
  rewrite !(find_npos token Hsize).
  repeat split; try reflexivity.
  destruct (holds token "{") eqn:Hbrace; rewrite Hb in Hx3.
  - change (negb true) with false in Hx3. rewrite andb_false_r in Hx3.
    apply ret_inr in Hx3. congruence.
  - change (negb false) with true in Hx3. rewrite andb_true_r in Hx3.
    rewrite (substr_enclosed token Hsize "(" ")" "NONE") in Hx3 by discriminate.
    injection Hx3 as <-. reflexivity.
Qed.

Lemma bracketed_fields_witness :
  exists lf,
    parse_line "e + A -> e + A* : EEDF [-11.5 (excitation" = inr lf
    /\ lf_threshold_energy_string lf = "-11.5 (excitation"
    /\ lf_reaction_identifier lf = "excitation"
    /\ lf_energy_change lf = holds "e + A -> e + A* : EEDF [-11.5 (excitation" "["
    /\ lf_threshold_energy_string lf
       = default "" (enclosed "e + A -> e + A* : EEDF [-11.5 (excitation" "[" "]")
    /\ lf_rate_equation lf = holds "e + A -> e + A* : EEDF [-11.5 (excitation" "{"
    /\ lf_rate_equation_string lf
       = default "NONE" (enclosed "e + A -> e + A* : EEDF [-11.5 (excitation" "{" "}")
    /\ lf_is_identified lf
       = holds "e + A -> e + A* : EEDF [-11.5 (excitation" "("
         && negb (holds "e + A -> e + A* : EEDF [-11.5 (excitation" "{")
    /\ lf_reaction_identifier lf
       = if holds "e + A -> e + A* : EEDF [-11.5 (excitation" "{" then "NONE"
         else default "NONE" (enclosed "e + A -> e + A* : EEDF [-11.5 (excitation" "(" ")").
Proof.
  eexists. split; [vm_compute; reflexivity|].
  split; [reflexivity|]. split; [reflexivity|].
  apply (bracketed_fields "e + A -> e + A* : EEDF [-11.5 (excitation").
  - vm_compute. reflexivity.
  - vm_compute. reflexivity.
Defined.

(** X4: the equation text of a line is what stands in front of its first
    colon, trimmed, and the whole line, trimmed, when it has no colon. On a
    line without a colon the rate field is taken from the start of the line
    as well: it is the line up to the delimiter of the rate field (the first
    of [(] and [[]), or the whole line, trimmed. *)
Theorem equation_text (token : string) (lf : line_fields) :
  Z.of_nat (String.length token) < 2 ^ 64 ->
  parse_line token = inr lf ->
  lf_reaction lf
  = trim match index_of ":" token with
         | Some colon => text_before token colon
         | None => token
         end
  /\ (index_of ":" token = None ->
      lf_rate_coefficient_string lf
      = trim match rate_delimiter token with
             | Some d => text_before token d
             | None => token
             end).
Proof.
  intros Hsize Hlf.
  destruct (parse_line_fields _ _ Hlf) as [(rate & Hrate & Erate) _].
  unfold parse_line in Hlf.
  inv_bind Hlf. inv_bind Hlf. inv_bind Hlf. inv_bind Hlf. inv_bind Hlf.
  apply ret_inr in Hlf. subst lf. simpl in *. split.
  - f_equal. destruct (index_of ":" token) as [colon|] eqn:Hcolon.
    + pose proof (index_of_lt _ _ _ Hcolon).
      rewrite (find_Some _ _ _ Hcolon), substr_from_start in Hx by lia.
      destruct (decide _) as [_|Hge]; [|lia].
      rewrite Nat2Z.id in Hx. congruence.
    + rewrite (find_None _ _ Hcolon), substr_from_start in Hx by (unfold npos; lia).
      destruct (decide _) as [Hlt|_]; [unfold npos in Hlt; lia|]. congruence.
  - intros Hcolon. rewrite Erate. f_equal.
    unfold rate_coefficient_field in Hrate. rewrite (find_None _ _ Hcolon) in Hrate.
    change (wrap (npos + 1)) with 0 in Hrate. rewrite !Z.sub_0_r in Hrate.
    unfold rate_delimiter.
    destruct (index_of "(" token) as [lp|] eqn:Hlp;
      destruct (index_of "[" token) as [lb|] eqn:Hlb.
    + pose proof (index_of_lt _ _ _ Hlp). pose proof (index_of_lt _ _ _ Hlb).
      rewrite (find_Some _ _ _ Hlp), (find_Some _ _ _ Hlb) in Hrate.
      rewrite !wrap_small in Hrate by lia.
      destruct (Nat.ltb_spec lp lb); destruct (Z.ltb_spec (Z.of_nat lp) (Z.of_nat lb));
        try lia; rewrite substr_from_start in Hrate by lia;
        (destruct (decide _) as [_|Hge]; [|lia]);
        rewrite Nat2Z.id in Hrate; congruence.
    + pose proof (index_of_lt _ _ _ Hlp).
      rewrite (find_Some _ _ _ Hlp), (find_None _ _ Hlb) in Hrate.
      destruct (Z.ltb_spec (Z.of_nat lp) npos); [|unfold npos in *; lia].
      rewrite wrap_small, substr_from_start in Hrate by lia.
      destruct (decide _) as [_|Hge]; [|lia].
      rewrite Nat2Z.id in Hrate. congruence.
    + pose proof (index_of_lt _ _ _ Hlb).
      rewrite (find_None _ _ Hlp), (find_Some _ _ _ Hlb) in Hrate.
      destruct (Z.ltb_spec npos (Z.of_nat lb)); [unfold npos in *; lia|].
      rewrite wrap_small, substr_from_start in Hrate by lia.
      destruct (decide _) as [_|Hge]; [|lia].
      rewrite Nat2Z.id in Hrate. congruence.
    + rewrite (find_None _ _ Hlp), (find_None _ _ Hlb), Z.ltb_irrefl in Hrate.
      rewrite wrap_small, substr_from_start in Hrate by (unfold npos; lia).
      destruct (decide _) as [Hlt|_]; [unfold npos in Hlt; lia|]. congruence.
Qed.

Lemma equation_text_witness :
  exists lf,
    parse_line "  A + B -> C  " = inr lf
    /\ lf_reaction lf = "A + B -> C"
    /\ lf_rate_coefficient_string lf = "A + B -> C"
    /\ lf_reaction lf
       = trim match index_of ":" "  A + B -> C  " with
              | Some colon => text_before "  A + B -> C  " colon
              | None => "  A + B -> C  "
              end
    /\ (index_of ":" "  A + B -> C  " = None ->
        lf_rate_coefficient_string lf
        = trim match rate_delimiter "  A + B -> C  " with
               | Some d => text_before "  A + B -> C  " d
               | None => "  A + B -> C  "
               end).
Proof.
  eexists. split; [vm_compute; reflexivity|].
  split; [reflexivity|]. split; [reflexivity|].
  apply (equation_text "  A + B -> C  ").
  - vm_compute. reflexivity.
  - vm_compute. reflexivity.
Defined.

(** ** The terms of an equation *)

Lemma term_step_plus t token : is_plus token = true -> term_step t token = t.
Proof. unfold is_plus, term_step. intros ->. reflexivity. Qed.

Lemma term_step_cases t token :
  (is_plus token = true /\ is_arrow token = false /\ term_step t token = t)
  \/ (is_plus token = false /\ is_forward_arrow token = true
      /\ is_reversible_arrow token = false
      /\ term_step t token
         = {| t_react_check := false; t_reactants := t_reactants t;
              t_products := t_products t; t_reversible := false;
              t_superelastic := t_superelastic t;
              t_participants := t_participants t |})
  \/ (is_plus token = false /\ is_forward_arrow token = false
      /\ is_reversible_arrow token = true
      /\ term_step t token
         = {| t_react_check := false; t_reactants := t_reactants t;
              t_products := t_products t; t_reversible := true;
              t_superelastic := S (t_superelastic t);
              t_participants := t_participants t |})
  \/ (is_term token = true
      /\ term_step t token
         = if t_react_check t
           then {| t_react_check := true; t_reactants := t_reactants t ++ [token];
                   t_products := t_products t; t_reversible := t_reversible t;
                   t_superelastic := t_superelastic t;
                   t_participants := t_participants t ++ [token] |}
           else {| t_react_check := false; t_reactants := t_reactants t;
                   t_products := t_products t ++ [token];
                   t_reversible := t_reversible t;
                   t_superelastic := t_superelastic t;
                   t_participants := t_participants t ++ [token] |}).
Proof.
  unfold is_term, is_arrow, is_forward_arrow, is_reversible_arrow, is_plus, term_step.
  destruct (String.eqb_spec token "+") as [->|_]; [left; auto|].
  destruct (String.eqb_spec token "=") as [->|_]; [right; left; auto|].
  destruct (String.eqb_spec token "->") as [->|_]; [right; left; auto|].
  destruct (String.eqb_spec token "=>") as [->|_]; [right; left; auto|].
  destruct (String.eqb_spec token "<=>") as [->|_]; [right; right; left; auto|].
  destruct (String.eqb_spec token "<->") as [->|_]; [right; right; left; auto|].
  right; right; right. simpl. split; [reflexivity|]. destruct (t_react_check t); reflexivity.
Qed.

Lemma is_term_not_arrow token : is_term token = true -> is_arrow token = false.
Proof.
  unfold is_term. intros Ht. apply negb_true_iff, orb_false_iff in Ht. tauto.
Qed.

Lemma is_arrow_not_term token : is_arrow token = true -> is_term token = false.
Proof. unfold is_term. intros ->. rewrite orb_true_r. reflexivity. Qed.

Lemma is_plus_not_term token : is_plus token = true -> is_term token = false.
Proof. unfold is_term. intros ->. reflexivity. Qed.

(** The loop over the terms once an arrow has been read. *)
Lemma fold_term_step_products tokens t :
  t_react_check t = false ->
  let t' := fold_left term_step tokens t in
  t_react_check t' = false
  /\ t_reactants t' = t_reactants t
  /\ t_products t' = (t_products t ++ List.filter is_term tokens)%list
  /\ t_participants t' = (t_participants t ++ List.filter is_term tokens)%list
  /\ t_superelastic t'
     = (t_superelastic t + length (List.filter is_reversible_arrow tokens))%nat
  /\ t_reversible t'
     = match last (List.filter is_arrow tokens) with
       | Some a => is_reversible_arrow a
       | None => t_reversible t
       end.
Proof.
  revert t. induction tokens as [|token tokens IH]; intros t Ht; simpl.
  - rewrite !app_nil_r. repeat split; auto.
  - destruct (term_step_cases t token) as
      [(Hp & Ha & E)|[(Hp & Hf & Hr & E)|[(Hp & Hf & Hr & E)|(Hterm & E)]]].
    + rewrite E. rewrite (is_plus_not_term _ Hp), Ha.
      assert (is_reversible_arrow token = false) as ->.
      { unfold is_arrow in Ha. apply orb_false_iff in Ha. tauto. }
      apply IH. exact Ht.
    + rewrite E. assert (is_arrow token = true) as Ha
        by (unfold is_arrow; rewrite Hf; reflexivity).
      rewrite (is_arrow_not_term _ Ha), Ha, Hr.
      destruct (IH _ (eq_refl : t_react_check
        {| t_react_check := false; t_reactants := t_reactants t;
           t_products := t_products t; t_reversible := false;
           t_superelastic := t_superelastic t;
           t_participants := t_participants t |} = false)) as (E1 & E2 & E3 & E4 & E5 & E6).
      simpl in *. repeat split; auto.
      rewrite E6. rewrite last_cons.
      destruct (last (List.filter is_arrow tokens)); [reflexivity | auto].
    + rewrite E. assert (is_arrow token = true) as Ha
        by (unfold is_arrow; rewrite Hr; apply orb_true_r).
      rewrite (is_arrow_not_term _ Ha), Ha, Hr.
      destruct (IH _ (eq_refl : t_react_check
        {| t_react_check := false; t_reactants := t_reactants t;
           t_products := t_products t; t_reversible := true;
           t_superelastic := S (t_superelastic t);
           t_participants := t_participants t |} = false)) as (E1 & E2 & E3 & E4 & E5 & E6).
      simpl in *. repeat split; auto; [lia|].
      rewrite E6. rewrite last_cons.
      destruct (last (List.filter is_arrow tokens)); [reflexivity | auto].
    + rewrite E, Ht. rewrite Hterm, (is_term_not_arrow _ Hterm).
      assert (is_reversible_arrow token = false) as ->.
      { pose proof (is_term_not_arrow _ Hterm) as Ha.
        unfold is_arrow in Ha. apply orb_false_iff in Ha. tauto. }
      destruct (IH _ (eq_refl : t_react_check
        {| t_react_check := false; t_reactants := t_reactants t;
           t_products := t_products t ++ [token];
           t_reversible := t_reversible t;
           t_superelastic := t_superelastic t;
           t_participants := t_participants t ++ [token] |} = false))
        as (E1 & E2 & E3 & E4 & E5 & E6).
      simpl in *. rewrite <- !app_assoc in E3, E4. repeat split; auto.
Qed.

(** The loop over the terms from its start. *)
Lemma fold_term_step_reactants tokens t :
  t_react_check t = true ->
  let t' := fold_left term_step tokens t in
  t_reactants t' = (t_reactants t ++ List.filter is_term (before_arrow tokens))%list
  /\ t_products t' = (t_products t ++ List.filter is_term (from_arrow tokens))%list
  /\ t_participants t' = (t_participants t ++ List.filter is_term tokens)%list
  /\ t_superelastic t'
     = (t_superelastic t + length (List.filter is_reversible_arrow tokens))%nat
  /\ t_reversible t'
     = match last (List.filter is_arrow tokens) with
       | Some a => is_reversible_arrow a
       | None => t_reversible t
       end.
Proof.
  revert t. induction tokens as [|token tokens IH]; intros t Ht; simpl.
  - rewrite !app_nil_r. repeat split; auto.
  - destruct (term_step_cases t token) as
      [(Hp & Ha & E)|[(Hp & Hf & Hr & E)|[(Hp & Hf & Hr & E)|(Hterm & E)]]].
    + rewrite E. rewrite (is_plus_not_term _ Hp), Ha.
      assert (is_reversible_arrow token = false) as ->.
      { unfold is_arrow in Ha. apply orb_false_iff in Ha. tauto. }
      destruct (IH t Ht) as (E1 & E2 & E3 & E4 & E5).
      simpl. rewrite (is_plus_not_term _ Hp). auto.
    + rewrite E. assert (is_arrow token = true) as Ha
        by (unfold is_arrow; rewrite Hf; reflexivity).
      rewrite (is_arrow_not_term _ Ha), Ha, Hr.
      destruct (fold_term_step_products tokens _ (eq_refl : t_react_check
        {| t_react_check := false; t_reactants := t_reactants t;
           t_products := t_products t; t_reversible := false;
           t_superelastic := t_superelastic t;
           t_participants := t_participants t |} = false))
        as (E1 & E2 & E3 & E4 & E5 & E6).
      simpl in *. rewrite (is_arrow_not_term _ Ha), app_nil_r.
      repeat split; auto.
      rewrite E6, last_cons.
      destruct (last (List.filter is_arrow tokens)); [reflexivity | auto].
    + rewrite E. assert (is_arrow token = true) as Ha
        by (unfold is_arrow; rewrite Hr; apply orb_true_r).
      rewrite (is_arrow_not_term _ Ha), Ha, Hr.
      destruct (fold_term_step_products tokens _ (eq_refl : t_react_check
        {| t_react_check := false; t_reactants := t_reactants t;
           t_products := t_products t; t_reversible := true;
           t_superelastic := S (t_superelastic t);
           t_participants := t_participants t |} = false))
        as (E1 & E2 & E3 & E4 & E5 & E6).
      simpl in *. rewrite (is_arrow_not_term _ Ha), app_nil_r.
      repeat split; auto; [lia|].
      rewrite E6, last_cons.
      destruct (last (List.filter is_arrow tokens)); [reflexivity | auto].
    + rewrite E, Ht. rewrite Hterm, (is_term_not_arrow _ Hterm).
      assert (is_reversible_arrow token = false) as ->.
      { pose proof (is_term_not_arrow _ Hterm) as Ha.
        unfold is_arrow in Ha. apply orb_false_iff in Ha. tauto. }
      destruct (IH _ (eq_refl : t_react_check
        {| t_react_check := true; t_reactants := t_reactants t ++ [token];
           t_products := t_products t; t_reversible := t_reversible t;
           t_superelastic := t_superelastic t;
           t_participants := t_participants t ++ [token] |} = true))
        as (E1 & E2 & E3 & E4 & E5).
      simpl in *. rewrite Hterm. rewrite <- !app_assoc in E1, E3. repeat split; auto.
Qed.

Lemma filter_terms_sides (tokens : list string) :
  List.filter is_term tokens
  = (List.filter is_term (before_arrow tokens)
     ++ List.filter is_term (from_arrow tokens))%list.
Proof.
  induction tokens as [|token tokens IH]; [reflexivity|]. simpl.
  destruct (is_arrow token) eqn:Ha.
  - rewrite (is_arrow_not_term _ Ha). simpl.
    rewrite (is_arrow_not_term _ Ha). reflexivity.
  - destruct (is_term token) eqn:Ht; simpl; rewrite ?Ht, IH; reflexivity.
Qed.

Lemma split_terms_fold (reaction : string) :
  t_reactants (split_terms reaction)
  = List.filter is_term (before_arrow (getline_all " " reaction))
  /\ t_products (split_terms reaction)
     = List.filter is_term (from_arrow (getline_all " " reaction))
  /\ t_participants (split_terms reaction)
     = List.filter is_term (getline_all " " reaction)
  /\ t_superelastic (split_terms reaction)
     = length (List.filter is_reversible_arrow (getline_all " " reaction))
  /\ t_reversible (split_terms reaction)
     = match last (List.filter is_arrow (getline_all " " reaction)) with
       | Some a => is_reversible_arrow a
       | None => false
       end.
Proof.
  unfold split_terms.
  destruct (fold_term_step_reactants (getline_all " " reaction) terms_init eq_refl)
    as (E1 & E2 & E3 & E4 & E5).
  simpl in *. repeat split; auto.
Qed.

Lemma split_terms_sides (reaction : string) :
  t_participants (split_terms reaction)
  = (t_reactants (split_terms reaction) ++ t_products (split_terms reaction))%list.
Proof.
  destruct (split_terms_fold reaction) as (-> & -> & -> & _).
  apply filter_terms_sides.
Qed.

(** X11: of the tokens of an equation text, split at single spaces, the ones
    that are neither [+] nor an arrow are stored: as reactants when they
    stand in front of the first arrow, as products when they stand behind
    it, whatever arrows follow; [_all_participants] receives them all, in
    the order of the text. Every reversible arrow adds one to
    [superelastic_reactions], and the reaction is reversible when the last
    arrow of the text is a reversible one. *)
Theorem split_terms_tokens (reaction : string) :
  let tokens := getline_all " " reaction in
  let t := split_terms reaction in
  t_reactants t = List.filter is_term (before_arrow tokens)
  /\ t_products t = List.filter is_term (from_arrow tokens)
  /\ t_participants t = (t_reactants t ++ t_products t)%list
  /\ t_participants t = List.filter is_term tokens
  /\ t_superelastic t = length (List.filter is_reversible_arrow tokens)
  /\ t_reversible t
     = match last (List.filter is_arrow tokens) with
       | Some a => is_reversible_arrow a
       | None => false
       end.
Proof.
  intros tokens t. subst tokens t.
  destruct (split_terms_fold reaction) as (E1 & E2 & E3 & E4 & E5).
  repeat split; auto.
  rewrite E1, E2, E3. apply filter_terms_sides.
Qed.

Lemma is_species_name_token x :
  is_species_name x = true -> is_token " " x = true /\ is_term x = true.
Proof. unfold is_species_name. intros Hx. apply andb_true_iff in Hx. exact Hx. Qed.

Lemma getline_all_join_plus (l : list string) (rest : string) :
  Forall (fun x => is_species_name x = true) l ->
  getline_all " " (join_plus l +:+ String " " rest)
  = (plus_between l ++ getline_all " " rest)%list.
Proof.
  induction l as [|x l IH]; intros Hl.
  - reflexivity.
  - apply Forall_cons in Hl. destruct Hl as [Hx Hl].
    apply is_species_name_token in Hx. destruct Hx as [Hx _].
    destruct l as [|y l].
    + simpl. apply getline_all_first. exact Hx.
    + change (join_plus (x :: y :: l)) with (x +:+ " + " +:+ join_plus (y :: l)).
      change (plus_between (x :: y :: l)) with (x :: "+" :: plus_between (y :: l)).
      rewrite !append_assoc.
      change (" + " +:+ join_plus (y :: l) +:+ String " " rest)
        with (String " " ("+" +:+ String " " (join_plus (y :: l) +:+ String " " rest))).
      rewrite getline_all_first by exact Hx.
      rewrite getline_all_first by reflexivity.
      rewrite (IH Hl). reflexivity.
Qed.

Lemma getline_all_equation reactants arrow products :
  Forall (fun x => is_species_name x = true) reactants ->
  Forall (fun x => is_species_name x = true) products ->
  is_arrow arrow = true ->
  getline_all " " (equation reactants arrow products)
  = (plus_between reactants ++ arrow :: plus_between products)%list.
Proof.
  intros Hr Hp Ha. unfold equation.
  change (join_plus reactants +:+ " " +:+ arrow +:+ " " +:+ join_plus products)
    with (join_plus reactants +:+ String " " (arrow +:+ String " " (join_plus products))).
  rewrite getline_all_join_plus by exact Hr. f_equal.
  assert (is_token " " arrow = true) as Harrow.
  { unfold is_arrow, is_forward_arrow, is_reversible_arrow in Ha.
    repeat (apply orb_true_iff in Ha; destruct Ha as [Ha|Ha]);
      apply String.eqb_eq in Ha; subst arrow; reflexivity. }
  rewrite getline_all_first by exact Harrow. f_equal.
  rewrite <- (getline_all_final " " (join_plus products)) by reflexivity.
  rewrite (getline_all_join_plus products "" Hp). apply app_nil_r.
Qed.

Lemma plus_between_terms l :
  Forall (fun x => is_species_name x = true) l ->
  List.filter is_term (plus_between l) = l
  /\ List.filter is_arrow (plus_between l) = []
  /\ before_arrow (plus_between l) = plus_between l
  /\ forall rest, before_arrow (plus_between l ++ rest) = (plus_between l ++ before_arrow rest)%list
  /\ from_arrow (plus_between l ++ rest) = from_arrow rest.
Proof.
  induction l as [|x l IH]; intros Hl.
  - repeat split; reflexivity.
  - apply Forall_cons in Hl. destruct Hl as [Hx Hl].
    apply is_species_name_token in Hx. destruct Hx as [_ Hx].
    pose proof (is_term_not_arrow _ Hx) as Hxa.
    destruct (IH Hl) as (E1 & E2 & E3 & E4).
    destruct l as [|y l].
    + simpl. rewrite Hx, Hxa. repeat split; reflexivity.
    + change (plus_between (x :: y :: l)) with (x :: "+" :: plus_between (y :: l)).
      simpl. rewrite Hx, Hxa.
      change (is_term "+") with false. change (is_arrow "+") with false. cbv iota.
      split; [f_equal; exact E1|]. split; [exact E2|]. split; [do 2 f_equal; exact E3|].
      intros rest. destruct (E4 rest) as [E5 E6]. split; [do 2 f_equal; exact E5 | exact E6].
Qed.

(** X12: an equation written with [" + "] between its terms and an arrow
    with a space on each side is split into exactly its terms: the loop
    stores the reactants and the products as written, in order, and marks
    the reaction reversible exactly when the arrow is [<=>] or [<->]. The
    terms are names without a space that are neither [+] nor an arrow. *)
Theorem equation_round_trip (reactants : list string) (arrow : string)
    (products : list string) :
  Forall (fun x => is_species_name x = true) reactants ->
  Forall (fun x => is_species_name x = true) products ->
  is_arrow arrow = true ->
  let t := split_terms (equation reactants arrow products) in
  t_reactants t = reactants
  /\ t_products t = products
  /\ t_participants t = (reactants ++ products)%list
  /\ t_reversible t = is_reversible_arrow arrow
  /\ t_superelastic t = if is_reversible_arrow arrow then 1%nat else 0%nat.
Proof.
  intros Hr Hp Ha t.
  destruct (split_terms_fold (equation reactants arrow products))
    as (E1 & E2 & _ & E5 & E6).
  pose proof (split_terms_sides (equation reactants arrow products)) as E3.
  fold t in E1, E2, E3, E5, E6.
  rewrite (getline_all_equation _ _ _ Hr Hp Ha) in E1, E2, E5, E6.
  destruct (plus_between_terms reactants Hr) as (R1 & R2 & R3 & R4).
  destruct (plus_between_terms products Hp) as (P1 & P2 & P3 & P4).
  destruct (R4 (arrow :: plus_between products)) as [R5 R6].
  rewrite R5 in E1. rewrite R6 in E2. simpl in E1, E2. rewrite Ha in E1, E2.
  rewrite app_nil_r, R1 in E1. simpl in E2.
  rewrite (is_arrow_not_term _ Ha), P1 in E2.
  rewrite E1, E2 in E3.
  rewrite List.filter_app in E5, E6. simpl in E5, E6. rewrite Ha in E6.
  rewrite R2, P2 in E6. simpl in E6.
  assert (List.filter is_reversible_arrow (plus_between reactants) = []
          /\ List.filter is_reversible_arrow (plus_between products) = []) as [Q1 Q2].
  { split.
    - clear -R2. induction (plus_between reactants) as [|x l IH]; [reflexivity|].
      simpl in *. unfold is_arrow in R2 at 1.
      destruct (is_reversible_arrow x); [rewrite orb_true_r in R2; discriminate|].
      destruct (is_forward_arrow x); [discriminate | auto].
    - clear -P2. induction (plus_between products) as [|x l IH]; [reflexivity|].
      simpl in *. unfold is_arrow in P2 at 1.
      destruct (is_reversible_arrow x); [rewrite orb_true_r in P2; discriminate|].
      destruct (is_forward_arrow x); [discriminate | auto]. }
  rewrite Q1 in E5. simpl in E5.
  destruct (is_reversible_arrow arrow); simpl in E5; rewrite ?Q2 in E5; auto.
Qed.

Lemma equation_round_trip_witness :
  let t := split_terms (equation ["e"; "Ar"] "<=>" ["e"; "Ar*"]) in
  t_reactants t = ["e"; "Ar"]
  /\ t_products t = ["e"; "Ar*"]
  /\ t_participants t = ["e"; "Ar"; "e"; "Ar*"]
  /\ t_reversible t = is_reversible_arrow "<=>"
  /\ t_superelastic t = if is_reversible_arrow "<=>" then 1%nat else 0%nat.
Proof.
  apply (equation_round_trip ["e"; "Ar"] "<=>" ["e"; "Ar*"]).
  - repeat constructor.
  - repeat constructor.
  - reflexivity.
Defined.

(** ** The members the expansions leave alone *)

Section Untouched.
Context {Real : Type} `{RealOps Real}.
Variable p : InputParameters Real.

Lemma lumped_expansion_untouched st0 st1 :
  lumped_expansion p st0 = inr st1 ->
  _all_participants st1 = _all_participants st0
  /\ _reaction_species st1 = _reaction_species st0
  /\ _num_reactants st1 = _num_reactants st0
  /\ _elastic_collision st1 = _elastic_collision st0
  /\ _electron_index st1 = _electron_index st0
  /\ _num_reactions st1
     = (_num_reactions st0
        + if lumped_species p
          then length (_lumped_reaction st0) * length (getParam_vector (lumped p))
          else 0)%nat.
Proof.
  unfold lumped_expansion. destruct (lumped_species p).
  - intros Hl. inv_bind Hl. apply ret_inr in Hl. subst st1. simpl. auto 10.
  - intros Hl. apply ret_inr in Hl. subst st1. repeat split; auto.
Qed.

Lemma superelastic_synthesis_untouched st1 st2 :
  superelastic_synthesis p st1 = inr st2 ->
  _all_participants st2 = _all_participants st1
  /\ _reaction_species st2 = _reaction_species st1
  /\ _num_reactants st2 = _num_reactants st1
  /\ _num_products st2 = _num_products st1
  /\ _elastic_collision st2 = _elastic_collision st1.
Proof.
  unfold superelastic_synthesis. intros Hs. inv_bind Hs. apply ret_inr in Hs.
  subst st2. simpl. auto.
Qed.

Lemma stoichiometry_inr st2 st :
  stoichiometry p st2 = inr st ->
  _all_participants st = unique (sort (_all_participants st2))
  /\ _species_index st = map (find_index (unique (sort (_all_participants st2)))) (species p)
  /\ mapM (fun i =>
            let* reactants := at_ "_reactants" (_reactants st2) i in
            let* products := at_ "_products" (_products st2) i in
            ret (coefficients (unique (sort (_all_participants st2))) reactants products))
         (seq 0 (length (_reaction st2)))
     = inr (_stoichiometric_coeff st)
  /\ energy_variables p = inr (_electron_energy_term st, _energy_variable st)
  /\ _reaction_species st = _reaction_species st2
  /\ _num_reactants st = _num_reactants st2
  /\ _num_products st = _num_products st2
  /\ _elastic_collision st = _elastic_collision st2
  /\ _electron_index st = _electron_index st2
  /\ length (_reaction_participants st) = _num_reactions st2
  /\ length (_reaction_stoichiometric_coeff st) = _num_reactions st2
  /\ _rate_equation st = _rate_equation st2.
Proof.
  unfold stoichiometry. intros Hs. do 3 inv_bind Hs. apply ret_inr in Hs.
  subst st. simpl. destruct x1 as [terms names]. simpl.
  apply mapM_inr_length in Hx0. rewrite length_seq in Hx0.
  rewrite !length_map. auto 13.
Qed.

(** What reaches the finished network from the parsing loops unchanged. *)
Lemma network_untouched st0 st :
  parse p = inr st0 -> network p = inr st ->
  _all_participants st = unique (sort (_all_participants st0))
  /\ _reaction_species st = _reaction_species st0
  /\ _num_reactants st = _num_reactants st0
  /\ _num_products st = _num_products st0
  /\ _elastic_collision st = _elastic_collision st0
  /\ _is_identified st = _is_identified st0
  /\ _reaction_identifier st = _reaction_identifier st0
  /\ _num_eedf_reactions st = _num_eedf_reactions st0
  /\ _lumped_reaction st = _lumped_reaction st0.
Proof.
  intros Hparse Hn.
  destruct (network_inr p st Hn) as (st0' & st1 & st2 & _ & H0 & H1 & H2 & H3).
  rewrite Hparse in H0. injection H0 as <-.
  pose proof (parse_shape p st0 Hparse) as Hshape.
  pose proof (lumped_expansion_expanded p st0 st1 Hshape H1) as Hex.
  pose proof (superelastic_synthesized p st0 st1 st2 Hshape Hex H2) as Hsy.
  pose proof (stoichiometry_same p st2 st H3) as Hsn.
  destruct (lumped_expansion_untouched _ _ H1) as (L1 & L2 & L3 & L4 & _).
  destruct (superelastic_synthesis_untouched _ _ H2) as (S1 & S2 & S3 & S4 & S5).
  destruct (stoichiometry_inr _ _ H3) as (T1 & _ & _ & _ & T2 & T3 & T4 & T5 & _).
  destruct Hsn, Hsy, Hex.
  repeat split; congruence.
Qed.

End Untouched.

(** ** The participants of the network *)

Lemma unique_ascending l : ascending l -> ascending (unique l).
Proof.
  induction l as [|x l IH]; [auto|].
  change (unique (x :: l)) with
    (match l with
     | [] => [x]
     | z :: _ => if String.eqb x z then unique l else x :: unique l
     end).
  intros [Hx Hl]. destruct l as [|z l']; [simpl; auto|].
  destruct (String.eqb x z); [auto|].
  split; [|auto]. intros y Hy. apply Hx. apply unique_In. exact Hy.
Qed.

Section Participants.
Context {Real : Type} `{RealOps Real}.
Variable p : InputParameters Real.

Lemma split_reaction_participants i lf rf (r : row (Real := Real)) :
  split_reaction p i lf rf = inr r ->
  r_participants r = (r_reactants r ++ r_products r)%list.
Proof.
  unfold split_reaction. intros Hs. inv_bind Hs. apply ret_inr in Hs. subst r. simpl.
  apply (split_terms_sides (lf_reaction lf)).
Qed.

Lemma split_loop_participants k l (rows : list (row (Real := Real))) :
  split_loop p k l = inr rows ->
  Forall (fun r => r_participants r = (r_reactants r ++ r_products r)%list) rows.
Proof.
  revert k rows. induction l as [|[lf rf] l IH]; simpl; intros k rows Hl.
  - apply ret_inr in Hl. subst. constructor.
  - inv_bind Hl. inv_bind Hl. apply ret_inr in Hl. subst rows.
    constructor; [eapply split_reaction_participants; exact Hx | eauto].
Qed.

End Participants.

(** X21: [_all_participants], once the constructor has sorted it and dropped
    the repetitions, lists in ascending order, each once, the terms of the
    reactions read from the input: a name belongs to it exactly when it is a
    reactant or a product of one of them. What the lumped expansion
    substitutes is not added. *)
Theorem all_participants_sorted {Real : Type} `{RealOps Real}
    (p : InputParameters Real) (st0 st : ChemicalReactionsBase Real) :
  parse p = inr st0 ->
  network p = inr st ->
  ascending (_all_participants st)
  /\ NoDup (_all_participants st)
  /\ forall x,
       In x (_all_participants st)
       <-> exists i side,
             (_reactants st0 !! i = Some side \/ _products st0 !! i = Some side)
             /\ In x side.
Proof.
  intros Hparse Hn.
  destruct (network_untouched p st0 st Hparse Hn) as (-> & _).
  split; [apply unique_ascending, sort_ascending|].
  split; [apply unique_NoDup, sort_ascending|].
  intros x. rewrite unique_In, sort_In.
  destruct (parse_inr p st0 Hparse) as (lfs & rfs & rows & _ & _ & Hrows & _ & _ & ->).
  simpl. pose proof (split_loop_participants p _ _ _ Hrows) as Hall.
  rewrite Forall_forall in Hall.
  rewrite in_concat. split.
  - intros (l & Hl & Hx). apply in_map_iff in Hl. destruct Hl as (r & <- & Hr).
    apply list_elem_of_In in Hr. rewrite (Hall r Hr) in Hx.
    apply list_elem_of_lookup_1 in Hr. destruct Hr as [i Hi].
    apply in_app_iff in Hx. destruct Hx as [Hx|Hx].
    + exists i, (r_reactants r). split; [|exact Hx]. left.
      rewrite list_lookup_fmap, Hi. reflexivity.
    + exists i, (r_products r). split; [|exact Hx]. right.
      rewrite list_lookup_fmap, Hi. reflexivity.
  - intros (i & side & Hside & Hx).
    rewrite !list_lookup_fmap in Hside.
    destruct (rows !! i) as [r|] eqn:Hi; simpl in Hside;
      [|destruct Hside; discriminate].
    exists (r_participants r). split.
    + apply in_map. apply list_elem_of_In. eapply list_elem_of_lookup_2. exact Hi.
    + rewrite (Hall r) by (eapply list_elem_of_lookup_2; exact Hi).
      apply in_app_iff. destruct Hside as [E|E]; injection E as <-; auto.
Qed.

Lemma all_participants_sorted_witness :
  exists st0 st,
    parse Sample.lumped_pair = inr st0
    /\ network Sample.lumped_pair = inr st
    /\ _all_participants st = ["A"; "B"; "M"; "X"]
    /\ _reactants st !! 3%nat = Some ["A"; "Y"]
    /\ ascending (_all_participants st)
    /\ NoDup (_all_participants st)
    /\ forall x,
         In x (_all_participants st)
         <-> exists i side,
               (_reactants st0 !! i = Some side \/ _products st0 !! i = Some side)
               /\ In x side.
Proof.
  assert (exists st0, parse Sample.lumped_pair = inr st0) as [st0 Hparse]
    by (eexists; vm_compute; reflexivity).
  assert (exists st, network Sample.lumped_pair = inr st) as [st Hnet]
    by (eexists; vm_compute; reflexivity).
  exists st0, st. split; [exact Hparse|]. split; [exact Hnet|].
  split.
  { pose proof Hnet as Hv. vm_compute in Hv. injection Hv as <-. reflexivity. }
  split.
  { pose proof Hnet as Hv. vm_compute in Hv. injection Hv as <-. reflexivity. }
  apply (all_participants_sorted Sample.lumped_pair st0 st Hparse Hnet).
Defined.

Lemma find_index_absent v x : ~ In x v -> find_index v x = length v.
Proof.
  induction v as [|y v IH]; simpl; intros Hx; [reflexivity|].
  destruct (String.eqb_spec y x) as [->|Hne]; [tauto|].
  rewrite IH by tauto. reflexivity.
Qed.

(** X23: [_species_index] holds, for every tracked species, its position in
    [_all_participants]; for a tracked species that takes part in no
    reaction read from the input it holds the size of [_all_participants],
    the position one past its end. *)
Theorem species_index_positions {Real : Type} `{RealOps Real}
    (p : InputParameters Real) (st : ChemicalReactionsBase Real) (j : nat) (s : string) :
  network p = inr st ->
  species p !! j = Some s ->
  length (_species_index st) = length (species p)
  /\ exists k,
       _species_index st !! j = Some k
       /\ (In s (_all_participants st) -> _all_participants st !! k = Some s)
       /\ (~ In s (_all_participants st) -> k = length (_all_participants st)).
Proof.
  intros Hn Hj.
  destruct (network_inr p st Hn) as (st0 & st1 & st2 & _ & _ & _ & _ & H3).
  destruct (stoichiometry_inr p _ _ H3) as (-> & -> & _).
  split; [apply length_map|].
  exists (find_index (unique (sort (_all_participants st2))) s).
  split; [rewrite list_lookup_fmap, Hj; reflexivity|].
  split.
  - intros Hin. apply find_index_contains, contains_In. exact Hin.
  - apply find_index_absent.
Qed.

Lemma species_index_positions_witness :
  exists st,
    network Sample.lumped_pair = inr st
    /\ _species_index st = [0; 1; 3; 4; 4]%nat
    /\ length (_species_index st) = length (species Sample.lumped_pair)
    /\ exists k,
         _species_index st !! 4%nat = Some k
         /\ (In "Z" (_all_participants st) -> _all_participants st !! k = Some "Z")
         /\ (~ In "Z" (_all_participants st) -> k = length (_all_participants st)).
Proof.
  assert (exists st, network Sample.lumped_pair = inr st) as [st Hnet]
    by (eexists; vm_compute; reflexivity).
  exists st. split; [exact Hnet|].
  split.
  { pose proof Hnet as Hv. vm_compute in Hv. injection Hv as <-. reflexivity. }
  apply (species_index_positions Sample.lumped_pair st 4 "Z" Hnet). reflexivity.
Defined.

(** X22: [_stoichiometric_coeff] has one row for every equation text in
    [_reaction], with one entry for every name in [_all_participants]: the
    number of times the name stands among the products of the reaction minus
    the number of times it stands among its reactants. *)
Theorem stoichiometric_coeff_exact {Real : Type} `{RealOps Real}
    (p : InputParameters Real) (st : ChemicalReactionsBase Real) (i : nat) :
  network p = inr st ->
  (i < length (_reaction st))%nat ->
  length (_stoichiometric_coeff st) = length (_reaction st)
  /\ exists reactants products coeffs,
       _reactants st !! i = Some reactants
       /\ _products st !! i = Some products
       /\ _stoichiometric_coeff st !! i = Some coeffs
       /\ length coeffs = length (_all_participants st)
       /\ forall j s, _all_participants st !! j = Some s ->
            coeffs !! j = Some (occurrences s products - occurrences s reactants).
Proof.
  intros Hn Hi.
  destruct (network_inr p st Hn) as (st0 & st1 & st2 & _ & _ & _ & _ & H3).
  pose proof (stoichiometry_same p st2 st H3) as Hsn.
  destruct (stoichiometry_inr p _ _ H3) as (Eall & _ & Hcoeff & _).
  destruct Hsn. rewrite sn_reaction0, sn_reactants0, sn_products0 in *.
  split.
  { apply mapM_inr_length in Hcoeff. rewrite length_seq in Hcoeff. exact Hcoeff. }
  destruct (mapM_inr_lookup _ _ _ i i Hcoeff) as (coeffs & Hc & Hone).
  { apply lookup_seq_lt. exact Hi. }
  simpl in Hone. do 2 inv_bind Hone. apply ret_inr in Hone. apply at_inr in Hx, Hx0.
  exists x, x0, coeffs. split; [exact Hx|]. split; [exact Hx0|]. split; [exact Hc|].
  subst coeffs. rewrite Eall. split; [unfold coefficients; apply length_map|].
  intros j s Hj. apply coefficients_lookup. exact Hj.
Qed.

Lemma stoichiometric_coeff_exact_witness :
  exists st,
    network Sample.lumped_pair = inr st
    /\ _stoichiometric_coeff st !! 1%nat = Some [1; 0; 0; -1]
    /\ length (_stoichiometric_coeff st) = length (_reaction st)
    /\ exists reactants products coeffs,
         _reactants st !! 1%nat = Some reactants
         /\ _products st !! 1%nat = Some products
         /\ _stoichiometric_coeff st !! 1%nat = Some coeffs
         /\ length coeffs = length (_all_participants st)
         /\ forall j s, _all_participants st !! j = Some s ->
              coeffs !! j = Some (occurrences s products - occurrences s reactants).
Proof.
  assert (exists st, network Sample.lumped_pair = inr st) as [st Hnet]
    by (eexists; vm_compute; reflexivity).
  exists st. split; [exact Hnet|].
  split.
  { pose proof Hnet as Hv. vm_compute in Hv. injection Hv as <-. reflexivity. }
  apply (stoichiometric_coeff_exact Sample.lumped_pair st 1 Hnet).
  pose proof Hnet as Hv. vm_compute in Hv. injection Hv as <-. simpl. lia.
Defined.

(** ** The checks on the parameters *)

(** X1: the parameter checks pass exactly for the configurations with an
    interpolation type of [spline] or [linear], with the list [lumped] set
    when [lumped_species] is on, and with [num_particles] set, one number
    for every tracked species, when [balance_check] is on. Every other
    configuration ends the constructor with a [mooseError], before a single
    line of the reactions is read. *)
Theorem parameter_checks {Real : Type} `{RealOps Real} (p : InputParameters Real) :
  (check_parameters p = inr tt <-> valid_parameters p)
  /\ (forall e, check_parameters p = inl e ->
        (exists msg, e = MooseError msg)
        /\ forall file_exists, constructor p file_exists = inl e)
  /\ (forall file_exists obj, constructor p file_exists = inr obj -> valid_parameters p).
Proof.
  assert (check_parameters p = inr tt <-> valid_parameters p) as Hiff.
  { unfold check_parameters, valid_parameters. split.
    - intros Hc.
      destruct (negb (String.eqb (interpolation_type p) "spline")
                && negb (String.eqb (interpolation_type p) "linear")) eqn:E1;
        [discriminate|].
      destruct (lumped_species p && negb (isParamValid (lumped p))) eqn:E2;
        [discriminate|].
      destruct (balance_check p && negb (isParamValid (num_particles p))) eqn:E3;
        [discriminate|].
      destruct (balance_check p
                && negb (length (getParam_vector (num_particles p))
                         =? length (species p))%nat) eqn:E4; [discriminate|].
      split.
      { apply andb_false_iff in E1.
        destruct E1 as [E|E]; apply negb_false_iff, String.eqb_eq in E; auto. }
      split.
      { intros Hl. rewrite Hl in E2. simpl in E2. apply negb_false_iff in E2.
        destruct (lumped p); [eauto | discriminate]. }
      intros Hb. rewrite Hb in E3, E4. simpl in E3, E4.
      apply negb_false_iff in E3, E4.
      destruct (num_particles p) as [w|]; [|discriminate].
      exists w. split; [reflexivity|]. apply Nat.eqb_eq in E4. exact E4.
    - intros (Hi & Hl & Hb).
      assert (negb (String.eqb (interpolation_type p) "spline")
              && negb (String.eqb (interpolation_type p) "linear") = false) as ->.
      { destruct Hi as [E|E]; rewrite E; reflexivity. }
      assert (lumped_species p && negb (isParamValid (lumped p)) = false) as ->.
      { destruct (lumped_species p); [|reflexivity].
        destruct (Hl eq_refl) as [l E]. rewrite E. reflexivity. }
      destruct (balance_check p); [|reflexivity].
      destruct (Hb eq_refl) as (w & E & Hw). rewrite E. simpl.
      rewrite Hw, Nat.eqb_refl. reflexivity. }
  split; [exact Hiff|]. split.
  - intros e He. split.
    + unfold check_parameters in He.
      repeat match type of He with
             | (if ?c then _ else _) = _ => destruct c
             end; try discriminate; injection He as <-; eauto.
    + intros file_exists. unfold constructor, network. rewrite He. reflexivity.
  - intros file_exists obj Hc. apply Hiff.
    unfold constructor in Hc. inv_bind Hc.
    apply network_inr in Hx. destruct Hx as (? & ? & ? & Hx & _). exact Hx.
Qed.

(** ** Tracked against auxiliary species *)

Section AuxSpecies.
Context {Real : Type} `{RealOps Real}.
Variable p : InputParameters Real.




End AuxSpecies.


(** ** The energy variables *)

Section EnergyVariables.
Context {Real : Type} `{RealOps Real}.
Variable p : InputParameters Real.

Lemma energy_variables_inr terms names :
  energy_variables p = inr (terms, names) ->
  terms = (map (fun _ => true) (first_of (electron_energy p))
           ++ map (fun _ => false) (first_of (gas_energy p)))%list
  /\ names = (first_of (electron_energy p) ++ first_of (gas_energy p))%list
  /\ electron_energy p <> Some []
  /\ gas_energy p <> Some [].
Proof.
  unfold energy_variables.
  destruct (electron_energy p) as [[|e es]|]; simpl; [discriminate| |];
    (destruct (gas_energy p) as [[|g gs]|]; simpl; [discriminate| |]);
    intros E; injection E as <- <-; repeat split; discriminate.
Qed.

End EnergyVariables.

(** X25: in the network the constructor builds, [_energy_variable] holds the
    first name of [electron_energy] when that parameter is set, then the
    first name of [gas_energy] when that one is set, and
    [_electron_energy_term] marks the former with [true] and the latter with
    [false]; neither parameter is set to an empty list; and when some
    reaction has an energy change, at least one of the two is set. *)
Theorem energy_variables_order {Real : Type} `{RealOps Real}
    (p : InputParameters Real) (st : ChemicalReactionsBase Real) :
  network p = inr st ->
  _energy_variable st = (first_of (electron_energy p) ++ first_of (gas_energy p))%list
  /\ _electron_energy_term st
     = (map (fun _ => true) (first_of (electron_energy p))
        ++ map (fun _ => false) (first_of (gas_energy p)))%list
  /\ electron_energy p <> Some []
  /\ gas_energy p <> Some []
  /\ forall i, (i < _num_reactions st)%nat ->
       _energy_change st !! i = Some true ->
       is_Some (electron_energy p) \/ is_Some (gas_energy p).
Proof.
  intros Hn.
  destruct (network_inr p st Hn) as (st0 & st1 & st2 & _ & _ & _ & _ & H3).
  pose proof (stoichiometry_same p st2 st H3) as Hsn.
  destruct (stoichiometry_inr p _ _ H3) as (_ & _ & _ & Henergy & _).
  destruct (energy_variables_inr p _ _ Henergy) as (Eterms & Enames & Hee & Hge).
  split; [exact Enames|]. split; [exact Eterms|]. split; [exact Hee|].
  split; [exact Hge|].
  intros i Hi Hchange. destruct Hsn.
  rewrite sn_num_reactions0 in Hi. rewrite sn_energy_change0 in Hchange.
  unfold stoichiometry in H3. do 3 inv_bind H3.
  destruct (mapM_inr_lookup _ _ _ i i Hx0) as (local & _ & Hone).
  { apply lookup_seq_lt. exact Hi. }
  unfold reaction_stoichiometry in Hone. do 3 inv_bind Hone.
  apply at_inr in Hx4. rewrite Hchange in Hx4. injection Hx4 as <-.
  destruct (electron_energy p); [left; eauto|].
  destruct (gas_energy p); [right; eauto|]. discriminate.
Qed.

(** ** The rate files *)

Section RateFiles.
Context {Real : Type} `{RealOps Real}.
Variable p : InputParameters Real.
Variable file_exists : string -> bool.

Lemma resolve_file_found fileloc probes :
  resolve_file file_exists fileloc = (probes, Bare) -> file_exists fileloc = true.
Proof.
  unfold resolve_file.
  repeat match goal with
         | |- context [if file_exists ?x then _ else _] =>
             destruct (file_exists x) eqn:?
         end; intros E; try discriminate; reflexivity.
Qed.

Lemma resolve_file_suffixed fileloc probes suffix :
  resolve_file file_exists fileloc = (probes, Suffixed suffix) ->
  file_exists (fileloc +:+ suffix) = true.
Proof.
  unfold resolve_file.
  repeat match goal with
         | |- context [if file_exists ?x then _ else _] =>
             destruct (file_exists x) eqn:?
         end; intros E; try discriminate; injection E as _ <-; assumption.
Qed.


Lemma resolve_file_suffix fileloc probes suffix :
  resolve_file file_exists fileloc = (probes, Suffixed suffix) ->
  suffix = ".txt" \/ suffix = ".csv" \/ suffix = ".dat".
Proof.
  unfold resolve_file.
  repeat match goal with
         | |- context [if file_exists ?x then _ else _] =>
             destruct (file_exists x) eqn:?
         end; intros E; try discriminate; injection E as _ <-; auto.
Qed.

Lemma file_step_probed is_identified identifiers0 k s s' :
  probed p file_exists is_identified identifiers0 k s ->
  file_step p file_exists is_identified s k = inr s' ->
  probed p file_exists is_identified identifiers0 (S k) s'.
Proof.
  intros (Hlen & Hrest & Hdone) Hstep. unfold file_step in Hstep. unfold probed.
  inv_bind Hstep. apply at_inr in Hx. destruct x.
  - inv_bind Hstep. apply at_inr in Hx0.
    destruct (resolve_file file_exists (file_location p +:+ "/" +:+ x)) as [probes r] eqn:Hr.
    destruct r as [|suffix|]; [| |discriminate].
    + apply ret_inr in Hstep. subst s'. simpl.
      split; [exact Hlen|]. split; [intros i Hi; apply Hrest; lia|].
      intros i Hi. destruct (decide (i = k)) as [->|Hne]; [|apply Hdone; lia].
      split; [congruence|]. intros _.
      exists x, x. rewrite <- (Hrest k) by lia.
      split; [exact Hx0|]. split; [exact Hx0|]. split; [auto|].
      eapply resolve_file_found. exact Hr.
    + inv_bind Hstep. apply ret_inr in Hstep. subst s'. simpl.
      apply assign_inr in Hx1. destruct Hx1 as [Hk ->]. simpl.
      split; [rewrite length_insert; exact Hlen|].
      split.
      { intros i Hi. rewrite list_lookup_insert_ne by lia. apply Hrest. lia. }
      intros i Hi. destruct (decide (i = k)) as [->|Hne].
      * split; [congruence|]. intros _.
        exists x, (x +:+ suffix). rewrite <- (Hrest k) by lia.
        split; [exact Hx0|].
        split; [apply list_lookup_insert_eq; exact Hk|].
        split.
        { destruct (resolve_file_suffix _ _ _ Hr) as [->|[->| ->]]; auto. }
        pose proof (resolve_file_suffixed _ _ _ Hr) as Hex.
        rewrite append_assoc in Hex. exact Hex.
      * rewrite list_lookup_insert_ne by lia. apply Hdone. lia.
  - apply ret_inr in Hstep. subst s'.
    split; [exact Hlen|]. split; [intros i Hi; apply Hrest; lia|].
    intros i Hi. destruct (decide (i = k)) as [->|Hne]; [|apply Hdone; lia].
    split; [intros _; apply Hrest; lia | congruence].
Qed.

Lemma check_files_probed st files :
  check_files p file_exists st = inr files ->
  probed p file_exists (_is_identified st) (_reaction_identifier st)
    (_num_eedf_reactions st) files.
Proof.
  unfold check_files. intros Hc.
  rewrite <- (length_seq (_num_eedf_reactions st) 0).
  refine (foldM_invariant _
            (probed p file_exists (_is_identified st) (_reaction_identifier st))
            _ _ _ _ _ Hc).
  - split; [reflexivity|]. split; [reflexivity|]. intros i Hi. lia.
  - intros k a s1 s2 Hk Hinv Hstep.
    apply lookup_seq in Hk. destruct Hk as [-> _]. simpl in Hstep.
    eapply file_step_probed; eassumption.
Qed.

End RateFiles.

(** X28: when the constructor completes, every reaction that the loop over
    the rate files reaches (an index below [_num_eedf_reactions] flagged
    [_is_identified]) has an identifier that names an existing file under
    [file_location]: the identifier read from its line, as it is or extended
    by [.txt], [.csv] or [.dat]. The identifiers of all other reactions are
    as they were read. *)
Theorem rate_files_exist {Real : Type} `{RealOps Real}
    (p : InputParameters Real) (file_exists : string -> bool)
    (st obj : ChemicalReactionsBase Real) (probes : list string) :
  network p = inr st ->
  constructor p file_exists = inr (obj, probes) ->
  length (_reaction_identifier obj) = length (_reaction_identifier st)
  /\ forall i,
       (((i < _num_eedf_reactions st)%nat /\ _is_identified st !! i = Some true) ->
        exists identifier0 identifier,
          _reaction_identifier st !! i = Some identifier0
          /\ _reaction_identifier obj !! i = Some identifier
          /\ (identifier = identifier0
              \/ identifier = identifier0 +:+ ".txt"
              \/ identifier = identifier0 +:+ ".csv"
              \/ identifier = identifier0 +:+ ".dat")
          /\ file_exists (file_location p +:+ "/" +:+ identifier) = true)
       /\ (~ ((i < _num_eedf_reactions st)%nat /\ _is_identified st !! i = Some true) ->
           _reaction_identifier obj !! i = _reaction_identifier st !! i).
Proof.
  intros Hn Hc. unfold constructor in Hc. rewrite Hn in Hc. simpl in Hc.
  inv_bind Hc. inv_bind Hc. inv_bind Hc. apply ret_inr in Hc.
  injection Hc as <- <-. simpl.
  destruct (check_files_probed p file_exists st x1 Hx1) as (Hlen & Hrest & Hdone).
  split; [exact Hlen|]. intros i. split.
  - intros [Hi Hid]. apply (Hdone i Hi). exact Hid.
  - intros Hnot. destruct (decide (i < _num_eedf_reactions st)%nat) as [Hi|Hi].
    + apply (Hdone i Hi). tauto.
    + apply Hrest. lia.
Qed.

Lemma rate_files_exist_witness :
  exists st obj,
    network Files.tagged_first = inr st
    /\ constructor Files.tagged_first Files.only_txt
       = inr (obj, ["/ioniz"; "/ioniz.txt"])
    /\ _reaction_identifier obj = ["ioniz.txt"; "NONE"]
    /\ length (_reaction_identifier obj) = length (_reaction_identifier st)
    /\ forall i,
         (((i < _num_eedf_reactions st)%nat /\ _is_identified st !! i = Some true) ->
          exists identifier0 identifier,
            _reaction_identifier st !! i = Some identifier0
            /\ _reaction_identifier obj !! i = Some identifier
            /\ (identifier = identifier0
                \/ identifier = identifier0 +:+ ".txt"
                \/ identifier = identifier0 +:+ ".csv"
                \/ identifier = identifier0 +:+ ".dat")
            /\ Files.only_txt (file_location Files.tagged_first +:+ "/" +:+ identifier)
               = true)
         /\ (~ ((i < _num_eedf_reactions st)%nat /\ _is_identified st !! i = Some true) ->
             _reaction_identifier obj !! i = _reaction_identifier st !! i).
Proof.
  assert (exists st, network Files.tagged_first = inr st) as [st Hnet]
    by (eexists; vm_compute; reflexivity).
  assert (exists obj, constructor Files.tagged_first Files.only_txt
                      = inr (obj, ["/ioniz"; "/ioniz.txt"])) as [obj Hobj]
    by (eexists; vm_compute; reflexivity).
  exists st, obj. split; [exact Hnet|]. split; [exact Hobj|].
  split.
  { pose proof Hobj as Hv. vm_compute in Hv. injection Hv as <-. reflexivity. }
  apply (rate_files_exist Files.tagged_first Files.only_txt st obj
           ["/ioniz"; "/ioniz.txt"] Hnet Hobj).
Defined.

Section MissingFile.
Context {Real : Type} `{RealOps Real}.
Variable p : InputParameters Real.
Variable file_exists : string -> bool.
Variable st : ChemicalReactionsBase Real.
Hypothesis Hflags : (_num_eedf_reactions st <= length (_is_identified st))%nat.
Hypothesis Hidentifiers :
  length (_reaction_identifier st) = length (_is_identified st).



End MissingFile.



(** ** The rows of [_species_count] *)

Section Counts.
Context {Real : Type} `{RealOps Real}.
Variable p : InputParameters Real.

Lemma reverse_reaction_counts num_products i (v v' : superelastic_vectors (Real := Real)) :
  reverse_reaction num_products i v = inr v' ->
  sv_new_index v' = sv_new_index v + 1
  /\ sv_species_count v' = sv_species_count v
  /\ sv_electron_index v' = sv_electron_index v.
Proof.
  unfold reverse_reaction. intros Hr. do 17 inv_bind Hr. apply ret_inr in Hr.
  subst v'. simpl. auto.
Qed.

Lemma recount_counts (v v' : superelastic_vectors (Real := Real)) :
  recount p v = inr v' ->
  sv_new_index v' = sv_new_index v
  /\ length (sv_species_count v') = length (sv_species_count v)
  /\ length (sv_electron_index v') = length (sv_electron_index v)
  /\ forall j, j <> Z.to_nat (sv_new_index v) ->
       sv_species_count v' !! j = sv_species_count v !! j.
Proof.
  unfold recount. destruct (species p).
  - intros Hr. apply ret_inr in Hr. subst v'. auto.
  - intros Hr. do 6 inv_bind Hr. apply ret_inr in Hr. subst v'. simpl.
    apply assign_Z_spec in Hx3. destruct Hx3 as (_ & _ & [Hlen Hother] & _).
    split; [reflexivity|]. split; [exact Hlen|]. split; [|exact Hother].
    destruct (electron_scan _ _ _ _).
    + apply assign_Z_spec in Hx4. destruct Hx4 as (_ & _ & [Hlen' _] & _). exact Hlen'.
    + apply ret_inr in Hx4. subst. reflexivity.
Qed.

Lemma superelastic_loop_counts n reversible num_products
    (v0 v : superelastic_vectors (Real := Real)) :
  sv_new_index v0 = Z.of_nat n - 1 ->
  foldM (superelastic_body p reversible num_products) (seq 0 n) v0 = inr v ->
  counts_kept n v0 v.
Proof.
  intros H0 Hloop.
  refine (foldM_invariant _ (fun _ v => counts_kept n v0 v) _ _ _ _ _ Hloop).
  - split; [lia|]. auto.
  - intros k a s1 s2 _ (Hindex & Hlen & Hlen' & Hrows) Hbody.
    unfold superelastic_body in Hbody. do 2 inv_bind Hbody.
    assert (sv_new_index s1 <= sv_new_index x0
            /\ sv_species_count x0 = sv_species_count s1
            /\ sv_electron_index x0 = sv_electron_index s1) as (Hle & E1 & E2).
    { destruct x.
      - apply reverse_reaction_counts in Hx0. destruct Hx0 as (-> & -> & ->).
        split; [lia | auto].
      - apply ret_inr in Hx0. subst x0. split; [lia | auto]. }
    apply recount_counts in Hbody. destruct Hbody as (Ei & L1 & L2 & Hother).
    split; [lia|]. split; [congruence|]. split; [congruence|].
    intros j Hj. rewrite Hother by lia. rewrite E1. apply Hrows. exact Hj.
Qed.

Lemma superelastic_synthesis_counts st1 st2 :
  length (_species_count st1) = _num_reactions st1 ->
  superelastic_synthesis p st1 = inr st2 ->
  length (_species_count st2) = (_num_reactions st1 + superelastic_reactions st1)%nat
  /\ length (_electron_index st2) = length (_electron_index st1)
  /\ forall j, (j < length (_species_count st1))%nat ->
       (superelastic_reactions st1 = 0%nat \/ (S j < _num_reactions st1)%nat) ->
       _species_count st2 !! j = _species_count st1 !! j.
Proof.
  unfold superelastic_synthesis. intros Hsc Hs. inv_bind Hs. apply ret_inr in Hs.
  subst st2. simpl.
  destruct (decide (0 < superelastic_reactions st1)%nat) as [Hpos|Hzero].
  - apply superelastic_loop_counts in Hx; [|reflexivity].
    destruct Hx as (_ & Hlen & Hlen' & Hrows). simpl in *.
    rewrite length_resize in Hlen.
    split; [exact Hlen|]. split; [exact Hlen'|].
    intros j Hj [Hz|Hlt]; [lia|].
    rewrite Hrows by lia. apply lookup_resize; [lia | exact Hj].
  - apply ret_inr in Hx. subst x. simpl. rewrite length_resize.
    split; [reflexivity|]. split; [reflexivity|].
    intros j Hj _. apply lookup_resize; [lia | exact Hj].
Qed.

End Counts.

(** X15: for a reaction read from the input, the row of [_species_count]
    holds, for every tracked species in the order of [species], the number
    of times it stands among the products minus the number of times it
    stands among the reactants, as long as the tally of the synthesis loop
    does not reach the row: the input has no reversible arrow, or the
    reaction is not the last one in front of the superelastic reactions. *)
Theorem species_count_exact {Real : Type} `{RealOps Real}
    (p : InputParameters Real) (st0 st : ChemicalReactionsBase Real) (i : nat) :
  parse p = inr st0 ->
  network p = inr st ->
  (i < _num_reactions st0)%nat ->
  superelastic_reactions st = 0%nat
  \/ (S i < _num_reactions st - superelastic_reactions st)%nat ->
  exists reactants products,
    _reactants st !! i = Some reactants
    /\ _products st !! i = Some products
    /\ _species_count st !! i
       = Some (map (fun s => occurrences s products - occurrences s reactants)
                 (species p)).
Proof.
  intros Hparse Hn Hi Hrow.
  destruct (network_inr p st Hn) as (st0' & st1 & st2 & _ & H0 & H1 & H2 & H3).
  rewrite Hparse in H0. injection H0 as <-.
  pose proof (parse_shape p st0 Hparse) as Hshape.
  pose proof (lumped_expansion_expanded p st0 st1 Hshape H1) as Hex.
  pose proof (superelastic_synthesized p st0 st1 st2 Hshape Hex H2) as Hsy.
  pose proof (stoichiometry_same p st2 st H3) as Hsn.
  destruct Hsn, Hsy, Hex.
  destruct ex_length0 as (_ & _ & _ & _ & _ & _ & Lsc & _).
  destruct (superelastic_synthesis_counts p st1 st2 Lsc H2) as (_ & _ & Hrows).
  rewrite sn_reactants0, sn_products0, sn_species_count0.
  rewrite sn_num_reactions0, sn_superelastic_reactions0, sy_num_reactions0,
    sy_superelastic_reactions0 in Hrow.
  destruct (sy_old0 i ltac:(lia)) as (_ & _ & -> & -> & _).
  rewrite Hrows by lia.
  destruct (ex_old0 i Hi) as (_ & _ & _ & _ & _ & _ & -> & -> & ->).
  destruct (parse_inr p st0 Hparse) as (lfs & rfs & rows & _ & _ & Hrowsl & _ & Hlen & ->).
  simpl in *. assert (is_Some (rows !! i)) as [r Hr]
    by (apply lookup_lt_is_Some; lia).
  exists (r_reactants r), (r_products r). rewrite !list_lookup_fmap, Hr. simpl.
  split; [reflexivity|]. split; [reflexivity|]. f_equal.
  assert (exists lf rf, zip lfs rfs !! i = Some (lf, rf)) as (lf & rf & Hz).
  { assert (i < length (zip lfs rfs))%nat as Hlt.
    { apply split_loop_length in Hrowsl. lia. }
    apply lookup_lt_is_Some in Hlt. destruct Hlt as [[lf rf] Hz]. eauto. }
  destruct (split_loop_lookup p O _ _ _ _ _ Hrowsl Hz) as (r' & Hr' & Hsplit).
  rewrite Hr in Hr'. injection Hr' as <-.
  unfold split_reaction in Hsplit. inv_bind Hsplit. apply ret_inr in Hsplit.
  subst r. simpl. apply map_ext. intros s. rewrite tally_one_occurrences. lia.
Qed.

Lemma species_count_exact_witness :
  exists st0 st,
    parse Exact.reversible_first = inr st0
    /\ network Exact.reversible_first = inr st
    /\ _species_count st !! 0%nat = Some [-1; 1; 0; 0]
    /\ exists reactants products,
         _reactants st !! 0%nat = Some reactants
         /\ _products st !! 0%nat = Some products
         /\ _species_count st !! 0%nat
            = Some (map (fun s => occurrences s products - occurrences s reactants)
                      (species Exact.reversible_first)).
Proof.
  assert (exists st0, parse Exact.reversible_first = inr st0) as [st0 Hparse]
    by (eexists; vm_compute; reflexivity).
  assert (exists st, network Exact.reversible_first = inr st) as [st Hnet]
    by (eexists; vm_compute; reflexivity).
  exists st0, st. split; [exact Hparse|]. split; [exact Hnet|].
  split.
  { pose proof Hnet as Hv. vm_compute in Hv. injection Hv as <-. reflexivity. }
  apply (species_count_exact Exact.reversible_first st0 st 0 Hparse Hnet).
  - pose proof Hparse as Hv. vm_compute in Hv. injection Hv as <-. simpl. lia.
  - right. pose proof Hnet as Hv. vm_compute in Hv. injection Hv as <-. simpl. lia.
Defined.

(** ** The sizes of the vectors *)

(** X20: in the network the constructor builds, the vectors that the
    synthesis of the superelastic reactions extends have one entry for every
    reaction: reactants, products, rate coefficients, threshold energies,
    the flags for rate expressions and energy changes, the rows of
    [_species_count], the superelastic flags and indices, and the
    participants and coefficients of each reaction. The rate types, the rate
    expressions and the flags [_reversible_reaction] and [_reaction_lumped]
    end in front of the superelastic reactions. The identification flags and
    identifiers, the elastic flags, the electron indices and the numbers of
    reactants and products exist for the reactions read from the input only. *)
Theorem vector_sizes {Real : Type} `{RealOps Real}
    (p : InputParameters Real) (st0 st : ChemicalReactionsBase Real) :
  parse p = inr st0 ->
  network p = inr st ->
  (length (_reactants st) = _num_reactions st
   /\ length (_products st) = _num_reactions st
   /\ length (_rate_coefficient st) = _num_reactions st
   /\ length (_threshold_energy st) = _num_reactions st
   /\ length (_rate_equation st) = _num_reactions st
   /\ length (_energy_change st) = _num_reactions st
   /\ length (_species_count st) = _num_reactions st
   /\ length (_superelastic_index st) = _num_reactions st
   /\ length (_superelastic_reaction st) = _num_reactions st
   /\ length (_reaction_participants st) = _num_reactions st
   /\ length (_reaction_stoichiometric_coeff st) = _num_reactions st)
  /\ (length (_rate_type st) = (_num_reactions st - superelastic_reactions st)%nat
      /\ length (_rate_equation_string st)
         = (_num_reactions st - superelastic_reactions st)%nat
      /\ length (_reversible_reaction st)
         = (_num_reactions st - superelastic_reactions st)%nat
      /\ length (_reaction_lumped st)
         = (_num_reactions st - superelastic_reactions st)%nat)
  /\ (length (_is_identified st) = _num_reactions st0
      /\ length (_reaction_identifier st) = _num_reactions st0
      /\ length (_elastic_collision st) = _num_reactions st0
      /\ length (_electron_index st) = _num_reactions st0
      /\ length (_num_reactants st) = _num_reactions st0
      /\ length (_num_products st) = _num_reactions st0)
  /\ (_num_reactions st - superelastic_reactions st <= length (_reaction st)
      <= _num_reactions st)%nat
  /\ length (_stoichiometric_coeff st) = length (_reaction st)
  /\ length (_species_index st) = length (species p).
Proof.
  intros Hparse Hn.
  destruct (network_inr p st Hn) as (st0' & st1 & st2 & _ & H0 & H1 & H2 & H3).
  rewrite Hparse in H0. injection H0 as <-.
  pose proof (parse_shape p st0 Hparse) as Hshape.
  pose proof (lumped_expansion_expanded p st0 st1 Hshape H1) as Hex.
  pose proof (superelastic_synthesized p st0 st1 st2 Hshape Hex H2) as Hsy.
  pose proof (stoichiometry_same p st2 st H3) as Hsn.
  destruct (superelastic_synthesis_inv p st0 st1 st2 Hshape Hex H2) as
    (v & Hinv & _ & _ & _ & _ & Ere & Eec & _ & _ & Erc & Ete & _ & _ & _ & _ & _ & _ & _
       & Esi & Esr).
  destruct (stoichiometry_inr p _ _ H3) as
    (_ & Esx & Hcoeff & _ & _ & T3 & T4 & T5 & T6 & T7 & T8 & T9).
  destruct (lumped_expansion_untouched p _ _ H1) as (_ & _ & L3 & L4 & L5 & _).
  destruct (superelastic_synthesis_untouched p _ _ H2) as (_ & _ & S3 & S4 & S5).
  destruct Hinv. destruct Hsn, Hsy, Hex.
  destruct ex_length0 as (X1 & X2 & X3 & X4 & X5 & X6 & X7 & X8 & X9).
  destruct (superelastic_synthesis_counts p st1 st2 X7 H2) as (C1 & C2 & _).
  destruct sy_length0 as (Y1 & Y2 & Y3 & Y4).
  assert (length (reversibles (_reversible_reaction st1) (_num_reactions st1))
          <= superelastic_reactions st1)%nat as Hfew.
  { destruct si_superelastic_index0 as (Z1 & _ & Z1').
    unfold resized in Z1; simpl in Z1; rewrite length_resize in Z1.
    destruct (length (reversibles (_reversible_reaction st1) (_num_reactions st1)))
      as [|q] eqn:Hq; [lia|].
    destruct (Z1' q ltac:(lia)) as [Hslot [r Hr]]. rewrite Hr in Hslot.
    apply lookup_lt_Some in Hslot. lia. }
  destruct si_superelastic_index0 as [Z1 _].
  destruct si_superelastic_reaction0 as [Z2 _].
  destruct si_rate_coefficient0 as [Z3 _].
  destruct si_rate_equation0 as [Z4 _].
  unfold resized in Z1, Z2, Z3, Z4. simpl in Z1, Z2, Z3, Z4.
  rewrite length_resize in Z1. rewrite length_resize in Z2.
  rewrite length_resize in Z3. rewrite length_resize in Z4.
  destruct sy_tail0 as [Htail _].
  destruct Hshape.
  rewrite sn_num_reactions0, sn_superelastic_reactions0, sn_reactants0, sn_products0,
    sn_rate_coefficient0, sn_threshold_energy0, sn_energy_change0, sn_species_count0,
    sn_superelastic_index0, sn_superelastic_reaction0, sn_rate_type0,
    sn_rate_equation_string0, sn_reversible_reaction0, sn_reaction_lumped0,
    sn_is_identified0, sn_reaction_identifier0, sn_reaction0.
  rewrite T3, T4, T5, T6, T7, T8, T9.
  rewrite sy_rate_type0, sy_rate_equation_string0, sy_reversible_reaction0,
    sy_reaction_lumped0, sy_is_identified0, sy_reaction_identifier0,
    sy_superelastic_reactions0.
  rewrite S3, S4, S5, C2, L3, L4, L5.
  rewrite ex_is_identified0, ex_reaction_identifier0, ex_num_products0.
  rewrite Esi, Esr, Erc, Z1, Z2, Z3, C1, Y1, Y2, Y3, Y4, X3, X4, X5, X6, Htail.
  replace (length (_rate_equation st2)) with (_num_reactions st2)
    by (rewrite Ere, Z4; exact sy_num_reactions0).
  rewrite sy_num_reactions0.
  assert (length (_elastic_collision st0) = _num_reactions st0
          /\ length (_electron_index st0) = _num_reactions st0
          /\ length (_num_reactants st0) = _num_reactions st0) as (P1 & P2 & P3).
  { destruct (parse_inr p st0 Hparse) as (lfs & rfs & rows & _ & _ & _ & E1 & E2 & ->).
    simpl. rewrite !length_map. auto. }
  split; [repeat split; reflexivity|].
  split; [repeat split; lia|].
  split.
  { repeat split; try assumption.
    rewrite ps_num_products0, length_map. exact ps_products0. }
  split; [lia|].
  split.
  { apply mapM_inr_length in Hcoeff. rewrite length_seq in Hcoeff.
    rewrite Hcoeff. exact Htail. }
  rewrite Esx. apply length_map.
Qed.

(** ** The flags of the superelastic reactions *)

(** X17: in the network the constructor builds, the reactions in front of
    the superelastic ones are not flagged superelastic. A reaction flagged
    superelastic stands behind them; the reaction its [_superelastic_index]
    names is a reversible one in front of them; its rate coefficient is
    [NaN]; and its flags for a rate expression and for an energy change are
    those of that reaction. *)
Theorem superelastic_reaction_flags {Real : Type} `{RealOps Real}
    (p : InputParameters Real) (st : ChemicalReactionsBase Real) (m : nat) :
  network p = inr st ->
  ((m < _num_reactions st - superelastic_reactions st)%nat ->
   _superelastic_reaction st !! m = Some false)
  /\ (_superelastic_reaction st !! m = Some true ->
      exists i,
        _superelastic_index st !! m = Some i
        /\ (i < _num_reactions st - superelastic_reactions st <= m)%nat
        /\ _reversible_reaction st !! i = Some true
        /\ _rate_coefficient st !! m = Some NaN
        /\ _rate_equation st !! m = _rate_equation st !! i
        /\ _energy_change st !! m = _energy_change st !! i).
Proof.
  intros Hn.
  destruct (network_inr p st Hn) as (st0 & st1 & st2 & _ & H0 & H1 & H2 & H3).
  pose proof (parse_shape p st0 H0) as Hshape.
  pose proof (lumped_expansion_expanded p st0 st1 Hshape H1) as Hex.
  pose proof (superelastic_synthesized p st0 st1 st2 Hshape Hex H2) as Hsy.
  pose proof (stoichiometry_same p st2 st H3) as Hsn.
  destruct (superelastic_synthesis_inv p st0 st1 st2 Hshape Hex H2) as
    (v & Hinv & _ & _ & _ & _ & Ere & Eec & _ & _ & Erc & Ete & _ & _ & _ & _ & _ & _ & _
       & Esi & Esr).
  destruct (stoichiometry_inr p _ _ H3) as (_ & _ & _ & _ & _ & _ & _ & _ & _ & _ & _ & T9).
  destruct Hinv, Hsn, Hsy, Hex.
  rewrite sn_num_reactions0, sn_superelastic_reactions0, sn_superelastic_reaction0,
    sn_superelastic_index0, sn_reversible_reaction0, sn_rate_coefficient0,
    sn_energy_change0, T9, sy_num_reactions0, sy_superelastic_reactions0,
    sy_reversible_reaction0.
  replace (_num_reactions st1 + superelastic_reactions st1
           - superelastic_reactions st1)%nat with (_num_reactions st1) by lia.
  split.
  - intros Hm. rewrite Esr.
    destruct si_superelastic_reaction0 as (Hlen & Hold & _).
    rewrite Hold by (left; exact Hm).
    unfold resized in *. simpl in *. rewrite length_resize in Hlen.
    assert (is_Some (resize (_num_reactions st1 + superelastic_reactions st1) false
                       (_superelastic_reaction st1) !! m)) as [b Hb].
    { apply lookup_lt_is_Some. rewrite length_resize. lia. }
    rewrite Hb. f_equal.
    destruct (lookup_resize_Some _ _ _ _ _ Hb) as [Hb'|Hb']; [|exact Hb'].
    eapply ex_no_superelastic0. exact Hb'.
  - intros Hm. destruct (sy_flagged0 m Hm) as (a & i & -> & Ha & Hi).
    exists i. split; [exact Hi|].
    pose proof (lookup_lt_Some _ _ _ Ha) as Hq.
    assert (i ∈ reversibles (_reversible_reaction st1) (_num_reactions st1)) as Hin
      by (eapply list_elem_of_lookup_2; exact Ha).
    apply reversibles_lt in Hin. destruct Hin as [Hlt Hrev].
    split; [lia|]. split.
    { unfold is_reversible in Hrev.
      destruct (_reversible_reaction st1 !! i) as [[|]|]; congruence. }
    split.
    { rewrite Erc. destruct si_rate_coefficient0 as (_ & _ & Hnew).
      destruct (Hnew a Hq) as [E _]. exact E. }
    split.
    + rewrite Ere. destruct si_rate_equation0 as (_ & Hold & Hnew).
      destruct (Hnew a Hq) as [E [b Hb]]. rewrite E.
      rewrite Hold by (left; exact Hlt).
      unfold reversed_of in *. rewrite Ha in *.
      destruct (sv_rate_equation (resized p st1) !! i); [reflexivity | discriminate].
    + rewrite Eec. destruct si_energy_change0 as (_ & Hold & Hnew).
      destruct (Hnew a Hq) as [E [b Hb]]. rewrite E.
      rewrite Hold by (left; exact Hlt).
      unfold reversed_of in *. rewrite Ha in *.
      destruct (sv_energy_change (resized p st1) !! i); [reflexivity | discriminate].
Qed.

Lemma superelastic_reaction_flags_witness :
  exists st,
    network Exact.reversible_first = inr st
    /\ _superelastic_reaction st = [false; false; true]
    /\ ((2 < _num_reactions st - superelastic_reactions st)%nat ->
        _superelastic_reaction st !! 2%nat = Some false)
    /\ (_superelastic_reaction st !! 2%nat = Some true ->
        exists i,
          _superelastic_index st !! 2%nat = Some i
          /\ (i < _num_reactions st - superelastic_reactions st <= 2)%nat
          /\ _reversible_reaction st !! i = Some true
          /\ _rate_coefficient st !! 2%nat = Some NaN
          /\ _rate_equation st !! 2%nat = _rate_equation st !! i
          /\ _energy_change st !! 2%nat = _energy_change st !! i).
Proof.
  assert (exists st, network Exact.reversible_first = inr st) as [st Hnet]
    by (eexists; vm_compute; reflexivity).
  exists st. split; [exact Hnet|].
  split.
  { pose proof Hnet as Hv. vm_compute in Hv. injection Hv as <-. reflexivity. }
  apply (superelastic_reaction_flags Exact.reversible_first st 2 Hnet).
Defined.

(** ** Templates, and the number of reactions *)

Section Flags.
Context {Real : Type} `{RealOps Real}.
Variable p : InputParameters Real.

Lemma flags_fold i kind reactants f f' :
  foldM (flag_step p i kind) reactants f = inr f' ->
  fl_reaction_lumped f' = fl_reaction_lumped f || existsb (is_placeholder p) reactants
  /\ fl_lumped_reaction f'
     = (fl_lumped_reaction f ++ replicate (placeholders p reactants) i)%list
  /\ fl_reaction_species f'
     = (fl_reaction_species f ++ bolsig_targets p kind reactants)%list
  /\ (String.eqb kind "EEDF" && use_bolsig p = true ->
      electron_density p = None ->
      forallb (is_placeholder p) reactants = true).
Proof.
  revert f. induction reactants as [|r reactants IH]; simpl; intros f Hf.
  - apply ret_inr in Hf. subst f'. unfold bolsig_targets, placeholders. simpl.
    rewrite orb_false_r, !app_nil_r.
    destruct (_ && _); rewrite ?app_nil_r; auto.
  - inv_bind Hf. destruct (IH _ Hf) as (E1 & E2 & E3 & E4).
    unfold flag_step in Hx. fold (is_placeholder p r) in Hx.
    unfold placeholders, bolsig_targets in *. simpl.
    destruct (is_placeholder p r) eqn:Hr; simpl.
    + apply ret_inr in Hx. subst x. simpl in *.
      rewrite E1, E2, E3, <- app_assoc, orb_true_r. simpl.
      repeat split; auto.
    + destruct (String.eqb kind "EEDF" && use_bolsig p) eqn:Hk.
      * destruct (electron_density p) as [e|] eqn:He; simpl in Hx; [|discriminate].
        destruct (String.eqb r e) eqn:Hre; simpl in Hx;
          apply ret_inr in Hx; subst x; simpl in *;
          rewrite E1, E2, E3, ?Hre, <- ?app_assoc; simpl;
          repeat split; auto; try discriminate.
      * apply ret_inr in Hx. subst x. repeat split; auto; try discriminate.
Qed.

Lemma split_reaction_flags i lf rf (r : row (Real := Real)) :
  split_reaction p i lf rf = inr r ->
  r_reactants r = t_reactants (split_terms (lf_reaction lf))
  /\ r_superelastic r = t_superelastic (split_terms (lf_reaction lf))
  /\ r_reaction_lumped r = existsb (is_placeholder p) (r_reactants r)
  /\ r_lumped_reaction r = replicate (placeholders p (r_reactants r)) i
  /\ r_reaction_species r = bolsig_targets p (rf_rate_type rf) (r_reactants r)
  /\ (String.eqb (rf_rate_type rf) "EEDF" && use_bolsig p = true ->
      electron_density p = None ->
      forallb (is_placeholder p) (r_reactants r) = true).
Proof.
  unfold split_reaction. intros Hs. inv_bind Hs. apply ret_inr in Hs. subst r. simpl.
  apply flags_fold in Hx. simpl in Hx. destruct Hx as (E1 & E2 & E3 & E4). auto 10.
Qed.

(** Row [i] of what the parsing loops leave. *)
Lemma parsed_row st0 i reactants :
  parse p = inr st0 ->
  _reactants st0 !! i = Some reactants ->
  exists lf rf (r : row (Real := Real)),
    split_reaction p i lf rf = inr r
    /\ r_reactants r = reactants
    /\ _reaction st0 !! i = Some (lf_reaction lf)
    /\ _rate_type st0 !! i = Some (rf_rate_type rf)
    /\ _reaction_lumped st0 !! i = Some (r_reaction_lumped r)
    /\ _rate_coefficient st0 !! i = Some (r_rate_coefficient r)
    /\ classify_rate lf = inr rf.
Proof.
  intros Hparse Hi.
  destruct (parse_inr p st0 Hparse) as
    (lfs & rfs & rows & _ & Hrates & Hrows & Hlen1 & Hlen2 & ->).
  simpl in *. rewrite list_lookup_fmap in Hi.
  destruct (rows !! i) as [r|] eqn:Hr; simpl in Hi; [|discriminate].
  injection Hi as <-.
  assert (exists lf rf, zip lfs rfs !! i = Some (lf, rf)) as (lf & rf & Hz).
  { assert (i < length (zip lfs rfs))%nat as Hlt.
    { apply split_loop_length in Hrows. apply lookup_lt_Some in Hr. lia. }
    apply lookup_lt_is_Some in Hlt. destruct Hlt as [[lf rf] Hz]. eauto. }
  destruct (split_loop_lookup p O _ _ _ _ _ Hrows Hz) as (r' & Hr' & Hsplit).
  rewrite Hr in Hr'. injection Hr' as <-. simpl in Hsplit.
  apply lookup_zip_with_Some in Hz. destruct Hz as (lf' & rf' & E & Hlf & Hrf).
  injection E as <- <-.
  destruct (mapM_inr_lookup _ _ _ _ _ Hrates Hlf) as (rf' & Hrf' & Hclass).
  rewrite Hrf in Hrf'. injection Hrf' as <-.
  exists lf, rf, r. rewrite !list_lookup_fmap, Hlf, Hrf, Hr. simpl. auto 10.
Qed.

End Flags.

(** X19: the constructor builds as many reactions as the input has lines it
    reads, plus, for every occurrence of the placeholder among the reactants
    of such a line, one for each lumped species, plus one for every
    reversible arrow of the equation texts. [_lumped_reaction] holds the
    index of a reaction once for every occurrence of the placeholder among
    its reactants, in ascending order. Without [lumped_species] no reactant
    counts as the placeholder. *)
Theorem reaction_count {Real : Type} `{RealOps Real}
    (p : InputParameters Real) (st0 st : ChemicalReactionsBase Real) :
  parse p = inr st0 ->
  network p = inr st ->
  _num_reactions st0 = length (reaction_lines (reactions p))
  /\ _lumped_reaction st
     = concat (imap (fun i reactants => replicate (placeholders p reactants) i)
                 (_reactants st0))
  /\ superelastic_reactions st
     = sum_list (map (fun text =>
                        length (List.filter is_reversible_arrow (getline_all " " text)))
                   (_reaction st0))
  /\ _num_reactions st
     = (_num_reactions st0
        + length (_lumped_reaction st) * length (getParam_vector (lumped p))
        + superelastic_reactions st)%nat.
Proof.
  intros Hparse Hn.
  destruct (network_inr p st Hn) as (st0' & st1 & st2 & _ & H0 & H1 & H2 & H3).
  rewrite Hparse in H0. injection H0 as <-.
  pose proof (parse_shape p st0 Hparse) as Hshape.
  pose proof (lumped_expansion_expanded p st0 st1 Hshape H1) as Hex.
  pose proof (superelastic_synthesized p st0 st1 st2 Hshape Hex H2) as Hsy.
  pose proof (stoichiometry_same p st2 st H3) as Hsn.
  destruct (lumped_expansion_untouched p _ _ H1) as (_ & _ & _ & _ & _ & Hn1).
  assert (_lumped_reaction st0
          = concat (imap (fun i reactants => replicate (placeholders p reactants) i)
                      (_reactants st0))) as Hlumped.
  { destruct (parse_inr p st0 Hparse) as
      (lfs & rfs & rows & _ & _ & Hrows & _ & _ & ->).
    simpl. f_equal. apply list_eq. intros i.
    rewrite list_lookup_fmap, list_lookup_imap, list_lookup_fmap.
    destruct (rows !! i) as [r|] eqn:Hr; simpl; [|reflexivity].
    assert (exists lf rf, zip lfs rfs !! i = Some (lf, rf)) as (lf & rf & Hz).
    { assert (i < length (zip lfs rfs))%nat as Hlt.
      { apply split_loop_length in Hrows. apply lookup_lt_Some in Hr. lia. }
      apply lookup_lt_is_Some in Hlt. destruct Hlt as [[lf rf] Hz]. eauto. }
    destruct (split_loop_lookup p O _ _ _ _ _ Hrows Hz) as (r' & Hr' & Hsplit).
    rewrite Hr in Hr'. injection Hr' as <-. simpl in Hsplit.
    destruct (split_reaction_flags p _ _ _ _ Hsplit) as (_ & _ & _ & -> & _).
    reflexivity. }
  assert (superelastic_reactions st0
          = sum_list (map (fun text =>
                             length (List.filter is_reversible_arrow
                                       (getline_all " " text)))
                        (_reaction st0))) as Hse.
  { destruct (parse_inr p st0 Hparse) as
      (lfs & rfs & rows & _ & _ & Hrows & Hlen1 & Hlen2 & ->).
    simpl. f_equal. apply list_eq. intros i. rewrite !list_lookup_fmap.
    destruct (rows !! i) as [r|] eqn:Hr; simpl.
    - assert (exists lf rf, zip lfs rfs !! i = Some (lf, rf)) as (lf & rf & Hz).
      { assert (i < length (zip lfs rfs))%nat as Hlt.
        { apply split_loop_length in Hrows. apply lookup_lt_Some in Hr. lia. }
        apply lookup_lt_is_Some in Hlt. destruct Hlt as [[lf rf] Hz]. eauto. }
      destruct (split_loop_lookup p O _ _ _ _ _ Hrows Hz) as (r' & Hr' & Hsplit).
      rewrite Hr in Hr'. injection Hr' as <-. simpl in Hsplit.
      apply lookup_zip_with_Some in Hz. destruct Hz as (lf' & rf' & E & Hlf & Hrf).
      injection E as <- <-. rewrite Hlf. simpl. f_equal.
      destruct (split_reaction_flags p _ _ _ _ Hsplit) as (_ & -> & _).
      apply (split_terms_fold (lf_reaction lf)).
    - assert (lfs !! i = None) as ->; [|reflexivity].
      apply lookup_ge_None. apply lookup_ge_None in Hr. lia. }
  destruct Hsn, Hsy, Hex.
  rewrite sn_lumped_reaction0, sy_lumped_reaction0, ex_lumped_reaction0.
  rewrite sn_superelastic_reactions0, sy_superelastic_reactions0,
    ex_superelastic_reactions0.
  rewrite sn_num_reactions0, sy_num_reactions0, ex_superelastic_reactions0, Hn1.
  split.
  { destruct (parse_inr p st0 Hparse) as (lfs & rfs & rows & Hlines & _ & _ & _ & _ & ->).
    simpl. unfold parse_lines in Hlines. eapply mapM_inr_length. exact Hlines. }
  split; [exact Hlumped|]. split; [exact Hse|].
  destruct (lumped_species p) eqn:Hl; [reflexivity|].
  assert (_lumped_reaction st0 = []) as ->; [|simpl; lia].
  rewrite Hlumped. clear -Hl. induction (_reactants st0) as [|r l IH] using rev_ind;
    [reflexivity|].
  rewrite imap_app, concat_app, IH. simpl.
  unfold placeholders, is_placeholder.
  replace (List.filter (fun r0 => lumped_species p && String.eqb r0 (getParam_string (lumped_name p))) r)
    with (@nil string); [reflexivity|].
  symmetry. clear -Hl. induction r as [|x r IH]; [reflexivity|].
  cbn [List.filter]. rewrite Hl in *. exact IH.
Qed.

Lemma reaction_count_witness :
  exists st0 st,
    parse Sample.counted = inr st0
    /\ network Sample.counted = inr st
    /\ _num_reactions st = 7%nat
    /\ _num_reactions st0 = length (reaction_lines (reactions Sample.counted))
    /\ _lumped_reaction st
       = concat (imap (fun i reactants =>
                         replicate (placeholders Sample.counted reactants) i)
                   (_reactants st0))
    /\ superelastic_reactions st
       = sum_list (map (fun text =>
                          length (List.filter is_reversible_arrow (getline_all " " text)))
                     (_reaction st0))
    /\ _num_reactions st
       = (_num_reactions st0
          + length (_lumped_reaction st)
            * length (getParam_vector (lumped Sample.counted))
          + superelastic_reactions st)%nat.
Proof.
  assert (exists st0, parse Sample.counted = inr st0) as [st0 Hparse]
    by (eexists; vm_compute; reflexivity).
  assert (exists st, network Sample.counted = inr st) as [st Hnet]
    by (eexists; vm_compute; reflexivity).
  exists st0, st. split; [exact Hparse|]. split; [exact Hnet|].
  split.
  { pose proof Hnet as Hv. vm_compute in Hv. injection Hv as <-. reflexivity. }
  apply (reaction_count Sample.counted st0 st Hparse Hnet).
Defined.

(** X13: a reaction read from the input is flagged [_reaction_lumped]
    exactly when [lumped_species] is on and the placeholder stands among its
    reactants; the placeholder among its products does not count. The
    reactions the lumped expansion creates are not flagged. *)
Theorem template_flags {Real : Type} `{RealOps Real}
    (p : InputParameters Real) (st0 st : ChemicalReactionsBase Real) (i : nat) :
  parse p = inr st0 ->
  network p = inr st ->
  (forall reactants,
     _reactants st0 !! i = Some reactants ->
     _reaction_lumped st !! i = Some (existsb (is_placeholder p) reactants))
  /\ ((_num_reactions st0 <= i < _num_reactions st - superelastic_reactions st)%nat ->
      _reaction_lumped st !! i = Some false).
Proof.
  intros Hparse Hn.
  destruct (network_inr p st Hn) as (st0' & st1 & st2 & _ & H0 & H1 & H2 & H3).
  rewrite Hparse in H0. injection H0 as <-.
  pose proof (parse_shape p st0 Hparse) as Hshape.
  pose proof (lumped_expansion_expanded p st0 st1 Hshape H1) as Hex.
  pose proof (superelastic_synthesized p st0 st1 st2 Hshape Hex H2) as Hsy.
  pose proof (stoichiometry_same p st2 st H3) as Hsn.
  destruct Hsn, Hsy, Hex.
  rewrite sn_reaction_lumped0, sy_reaction_lumped0, sn_num_reactions0,
    sn_superelastic_reactions0, sy_num_reactions0, sy_superelastic_reactions0.
  split.
  - intros reactants Hi.
    assert (i < _num_reactions st0)%nat as Hlt.
    { destruct Hshape. apply lookup_lt_Some in Hi. lia. }
    destruct (ex_old0 i Hlt) as (_ & _ & _ & _ & _ & -> & _).
    destruct (parsed_row p st0 i reactants Hparse Hi) as
      (lf & rf & r & Hsplit & <- & _ & _ & -> & _).
    destruct (split_reaction_flags p _ _ _ _ Hsplit) as (_ & _ & -> & _). reflexivity.
  - intros Hi. destruct (ex_new0 i ltac:(lia)) as
      (_ & t & sp & tr & tp & _ & _ & _ & _ & _ & _ & _ & _ & _ & Hflag & _).
    exact Hflag.
Qed.

Lemma template_flags_witness :
  exists st0 st,
    parse Sample.placeholder_product = inr st0
    /\ network Sample.placeholder_product = inr st
    /\ _products st = [["M"]]
    /\ _reaction_lumped st = [false]
    /\ (forall reactants,
          _reactants st0 !! 0%nat = Some reactants ->
          _reaction_lumped st !! 0%nat
          = Some (existsb (is_placeholder Sample.placeholder_product) reactants))
    /\ ((_num_reactions st0 <= 0 < _num_reactions st - superelastic_reactions st)%nat ->
        _reaction_lumped st !! 0%nat = Some false).
Proof.
  assert (exists st0, parse Sample.placeholder_product = inr st0) as [st0 Hparse]
    by (eexists; vm_compute; reflexivity).
  assert (exists st, network Sample.placeholder_product = inr st) as [st Hnet]
    by (eexists; vm_compute; reflexivity).
  exists st0, st. split; [exact Hparse|]. split; [exact Hnet|].
  split.
  { pose proof Hnet as Hv. vm_compute in Hv. injection Hv as <-. reflexivity. }
  split.
  { pose proof Hnet as Hv. vm_compute in Hv. injection Hv as <-. reflexivity. }
  apply (template_flags Sample.placeholder_product st0 st 0 Hparse Hnet).
Defined.

(** ** Rate types *)

Section RateTypes.
Context {Real : Type} `{RealOps Real}.
Variable p : InputParameters Real.

Lemma classify_rate_types lf (rf : rate_fields Real) :
  classify_rate lf = inr rf ->
  (rf_rate_type rf = "EEDF" /\ rf_rate_coefficient rf = NaN
   /\ lf_rate_coefficient_string lf = "EEDF")
  \/ (rf_rate_type rf = "Equation" /\ rf_rate_coefficient rf = NaN
      /\ lf_rate_coefficient_string lf <> "EEDF" /\ lf_rate_equation lf = true)
  \/ (rf_rate_type rf = "Constant"
      /\ lf_rate_coefficient_string lf <> "EEDF" /\ lf_rate_equation lf = false).
Proof.
  unfold classify_rate. intros Hc. inv_bind Hc.
  destruct (String.eqb_spec (lf_rate_coefficient_string lf) "EEDF") as [E|E].
  - apply ret_inr in Hc. subst rf. left. auto.
  - destruct (lf_rate_equation lf).
    + apply ret_inr in Hc. subst rf. right. left. auto.
    + destruct (stod (lf_rate_coefficient_string lf)); try discriminate.
      apply ret_inr in Hc. subst rf. right. right. auto.
Qed.

Lemma split_reaction_rate i lf rf (r : row (Real := Real)) :
  split_reaction p i lf rf = inr r ->
  rf_rate_type rf <> "Constant" -> r_rate_coefficient r = rf_rate_coefficient rf.
Proof.
  unfold split_reaction. intros Hs Hkind. inv_bind Hs. apply ret_inr in Hs.
  subst r. simpl. destruct (String.eqb (rf_rate_type rf) "Equation"); [reflexivity|].
  destruct (String.eqb_spec (rf_rate_type rf) "Constant"); [contradiction | reflexivity].
Qed.

Lemma parsed_rate_type st0 i kind :
  parse p = inr st0 ->
  _rate_type st0 !! i = Some kind ->
  (kind = "EEDF" \/ kind = "Equation" \/ kind = "Constant")
  /\ (kind <> "Constant" -> _rate_coefficient st0 !! i = Some NaN).
Proof.
  intros Hparse Hkind.
  assert (is_Some (_reactants st0 !! i)) as [reactants Hi].
  { destruct (parse_shape p st0 Hparse). apply lookup_lt_is_Some.
    apply lookup_lt_Some in Hkind. lia. }
  destruct (parsed_row p st0 i reactants Hparse Hi) as
    (lf & rf & r & Hsplit & _ & _ & Ekind & _ & Erc & Hclass).
  rewrite Ekind in Hkind. injection Hkind as <-. rewrite Erc.
  destruct (classify_rate_types lf rf Hclass) as
    [(E1 & E2 & _)|[(E1 & E2 & _)|(E1 & _)]]; rewrite E1.
  - split; [auto|]. intros _. f_equal.
    rewrite (split_reaction_rate _ _ _ _ Hsplit) by (rewrite E1; discriminate).
    exact E2.
  - split; [auto|]. intros _. f_equal.
    rewrite (split_reaction_rate _ _ _ _ Hsplit) by (rewrite E1; discriminate).
    exact E2.
  - split; [auto|]. congruence.
Qed.

End RateTypes.

(** X9: in the network the constructor builds, every rate type is one of
    [EEDF], [Equation] and [Constant], and a reaction whose rate type is
    [EEDF] or [Equation] has the rate coefficient [NaN]: the unit
    conversions reach the coefficients of the constant rates only. *)
Theorem rate_types {Real : Type} `{RealOps Real}
    (p : InputParameters Real) (st : ChemicalReactionsBase Real)
    (i : nat) (kind : string) :
  network p = inr st ->
  _rate_type st !! i = Some kind ->
  (kind = "EEDF" \/ kind = "Equation" \/ kind = "Constant")
  /\ (kind <> "Constant" -> _rate_coefficient st !! i = Some NaN).
Proof.
  intros Hn Hkind.
  destruct (network_stages p st Hn) as
    (st0 & st1 & st2 & Hparse & Hshape & Hex & Hsy & Hsn & _).
  destruct Hsn, Hsy, Hex.
  destruct ex_length0 as (_ & _ & Lrt & _).
  rewrite sn_rate_type0, sy_rate_type0 in Hkind.
  rewrite sn_rate_coefficient0.
  assert (i < _num_reactions st1)%nat as Hi
    by (apply lookup_lt_Some in Hkind; lia).
  destruct (sy_old0 i Hi) as (_ & -> & _).
  destruct (decide (i < _num_reactions st0)%nat) as [Hold|Hnew].
  - destruct (ex_old0 i Hold) as (_ & -> & Ort & _). rewrite Ort in Hkind.
    apply (parsed_rate_type p st0 i kind Hparse Hkind).
  - destruct (ex_new0 i ltac:(lia)) as
      (_ & t & sp & tr & tp & Ht & _ & _ & _ & -> & Nrt & _).
    rewrite Nrt in Hkind. apply (parsed_rate_type p st0 t kind Hparse Hkind).
Qed.

Lemma rate_types_witness :
  exists st,
    network Exact.tagged_second = inr st
    /\ (("EEDF" = "EEDF" \/ "EEDF" = "Equation" \/ "EEDF" = "Constant")
        /\ ("EEDF" <> "Constant" -> _rate_coefficient st !! 1%nat = Some NaN)).
Proof.
  assert (exists st, network Exact.tagged_second = inr st) as [st Hnet]
    by (eexists; vm_compute; reflexivity).
  exists st. split; [exact Hnet|].
  apply (rate_types Exact.tagged_second st 1 "EEDF" Hnet).
  pose proof Hnet as Hv. vm_compute in Hv. injection Hv as <-. reflexivity.
Defined.

(** ** The targets of the tabulated rates *)

(** X14: [_reaction_species] lists, in the order of the input, the reactants
    of the reactions with a tabulated rate that are neither the placeholder
    of the lumped species nor the electron, and it stays empty when Bolsig+
    is not used. When Bolsig+ is used and [electron_density] is not set, the
    constructor gets past a reaction with a tabulated rate only if all its
    reactants are the placeholder. *)
Theorem bolsig_reaction_species {Real : Type} `{RealOps Real}
    (p : InputParameters Real) (st0 st : ChemicalReactionsBase Real) :
  parse p = inr st0 ->
  network p = inr st ->
  _reaction_species st
  = concat (zip_with (bolsig_targets p) (_rate_type st0) (_reactants st0))
  /\ (use_bolsig p = false -> _reaction_species st = [])
  /\ (use_bolsig p = true -> electron_density p = None ->
      forall i reactants,
        _rate_type st0 !! i = Some "EEDF" ->
        _reactants st0 !! i = Some reactants ->
        forallb (is_placeholder p) reactants = true).
Proof.
  intros Hparse Hn.
  destruct (network_untouched p st0 st Hparse Hn) as (_ & -> & _).
  assert (_reaction_species st0
          = concat (zip_with (bolsig_targets p) (_rate_type st0) (_reactants st0)))
    as Hspecies.
  { destruct (parse_inr p st0 Hparse) as
      (lfs & rfs & rows & _ & _ & Hrows & Hlen1 & Hlen2 & ->).
    simpl. f_equal. apply list_eq. intros i.
    rewrite lookup_zip_with, !list_lookup_fmap.
    destruct (rows !! i) as [r|] eqn:Hr; simpl.
    - assert (exists lf rf, zip lfs rfs !! i = Some (lf, rf)) as (lf & rf & Hz).
      { assert (i < length (zip lfs rfs))%nat as Hlt.
        { apply split_loop_length in Hrows. apply lookup_lt_Some in Hr. lia. }
        apply lookup_lt_is_Some in Hlt. destruct Hlt as [[lf rf] Hz]. eauto. }
      destruct (split_loop_lookup p O _ _ _ _ _ Hrows Hz) as (r' & Hr' & Hsplit).
      rewrite Hr in Hr'. injection Hr' as <-. simpl in Hsplit.
      apply lookup_zip_with_Some in Hz. destruct Hz as (lf' & rf' & E & Hlf & Hrf).
      injection E as <- <-. rewrite Hrf. simpl.
      destruct (split_reaction_flags p _ _ _ _ Hsplit) as (_ & _ & _ & _ & -> & _).
      reflexivity.
    - destruct (rfs !! i); reflexivity. }
  split; [exact Hspecies|]. split.
  - intros Hb. rewrite Hspecies. clear -Hb.
    generalize (_rate_type st0). induction (_reactants st0) as [|r l IH];
      intros kinds; destruct kinds as [|k kinds]; try reflexivity.
    simpl. rewrite IH. unfold bolsig_targets. rewrite Hb, andb_false_r. reflexivity.
  - intros Hb He i reactants Hkind Hi.
    destruct (parsed_row p st0 i reactants Hparse Hi) as
      (lf & rf & r & Hsplit & <- & _ & Ekind & _).
    rewrite Ekind in Hkind. injection Hkind as Hkind.
    destruct (split_reaction_flags p _ _ _ _ Hsplit) as (_ & _ & _ & _ & _ & Hall).
    apply Hall; [rewrite Hkind, Hb; reflexivity | exact He].
Qed.

Lemma bolsig_reaction_species_witness :
  exists st0 st,
    parse Sample.bolsig = inr st0
    /\ network Sample.bolsig = inr st
    /\ _reaction_species st = ["Ar"]
    /\ _reaction_species st
       = concat (zip_with (bolsig_targets Sample.bolsig) (_rate_type st0) (_reactants st0))
    /\ (use_bolsig Sample.bolsig = false -> _reaction_species st = [])
    /\ (use_bolsig Sample.bolsig = true -> electron_density Sample.bolsig = None ->
        forall i reactants,
          _rate_type st0 !! i = Some "EEDF" ->
          _reactants st0 !! i = Some reactants ->
          forallb (is_placeholder Sample.bolsig) reactants = true).
Proof.
  assert (exists st0, parse Sample.bolsig = inr st0) as [st0 Hparse]
    by (eexists; vm_compute; reflexivity).
  assert (exists st, network Sample.bolsig = inr st) as [st Hnet]
    by (eexists; vm_compute; reflexivity).
  exists st0, st. split; [exact Hparse|]. split; [exact Hnet|].
  split.
  { pose proof Hnet as Hv. vm_compute in Hv. injection Hv as <-. reflexivity. }
  apply (bolsig_reaction_species Sample.bolsig st0 st Hparse Hnet).
Defined.

(** ** Numbers that cannot be read *)


Section Unreadable.
Context {Real : Type} `{RealOps Real}.
Variable p : InputParameters Real.


End Unreadable.





(** ** An input without reactions *)

(** X30: when the text of the reactions holds no line to read (it is
    empty, or made of white space and comments) and the checks on the
    parameters and on the auxiliary species pass, the constructor builds
    an empty network, as long as neither energy parameter is set to an
    empty list: it makes no call of [file_exists], [_all_participants] is
    empty, and every entry of [_species_index] is [0]. With
    [electron_energy] set to an empty list it reads [_electron_energy[0]]
    past the end, and otherwise with [gas_energy] set to an empty list it
    reads [_gas_energy[0]] past the end. *)
Theorem empty_input {Real : Type} `{RealOps Real}
    (p : InputParameters Real) (file_exists : string -> bool) :
  reaction_lines (reactions p) = [] ->
  check_parameters p = inr tt ->
  check_aux_species p = inr tt ->
  (electron_energy p <> Some [] -> gas_energy p <> Some [] ->
   exists obj,
     constructor p file_exists = inr (obj, [])
     /\ _num_reactions obj = 0%nat
     /\ _reaction obj = []
     /\ _reactants obj = []
     /\ _products obj = []
     /\ _all_participants obj = []
     /\ _species_index obj = map (fun _ => 0%nat) (species p))
  /\ (electron_energy p = Some [] ->
      constructor p file_exists = inl (Undefined "_electron_energy[0]"))
  /\ (electron_energy p <> Some [] -> gas_energy p = Some [] ->
      constructor p file_exists = inl (Undefined "_gas_energy[0]")).
Proof.
  intros Hlines Hcheck Haux.
  assert (lumped_expansion p (parsed [] [] []) = inr (parsed [] [] [])) as Hlumped.
  { unfold lumped_expansion. destruct (lumped_species p); reflexivity. }
  assert (forall e, energy_variables p = inl e ->
            constructor p file_exists = inl e) as Hfail.
  { intros e He. unfold constructor, network. rewrite Hcheck. simpl.
    unfold parse, parse_lines. rewrite Hlines. simpl. rewrite Hlumped. simpl.
    unfold superelastic_synthesis, stoichiometry. simpl. rewrite He. reflexivity. }
  split; [|split].
  - intros Hee Hge.
    assert (exists st,
              network p = inr st
              /\ _num_reactions st = 0%nat /\ _num_eedf_reactions st = 0%nat
              /\ _reaction_identifier st = []
              /\ _reaction st = [] /\ _reactants st = [] /\ _products st = []
              /\ _all_participants st = []
              /\ _species_index st = map (fun _ => 0%nat) (species p))
      as (st & Hn & E1 & E2 & E3 & E4 & E5 & E6 & E7 & E8).
    { unfold network. rewrite Hcheck. simpl.
      unfold parse, parse_lines. rewrite Hlines. simpl. rewrite Hlumped. simpl.
      assert (exists terms names, energy_variables p = inr (terms, names))
        as (terms & names & Henergy).
      { unfold energy_variables.
        destruct (electron_energy p) as [[|e es]|]; [congruence| |];
          (destruct (gas_energy p) as [[|g gs]|]; [congruence| |]); simpl; eauto. }
      unfold superelastic_synthesis, stoichiometry. simpl. rewrite Henergy. simpl.
      eexists. split; [reflexivity|]. simpl. repeat split; reflexivity. }
    unfold constructor. rewrite Hn. simpl.
    assert (check_balance p st = inr tt) as ->.
    { unfold check_balance, balance_scan. rewrite E1.
      destruct (balance_check p); reflexivity. }
    simpl. rewrite Haux. simpl. unfold check_files. rewrite E2, E3. simpl.
    eexists. split; [reflexivity|]. simpl. auto 10.
  - intros Hee. apply Hfail. unfold energy_variables. rewrite Hee. reflexivity.
  - intros Hee Hge. apply Hfail. unfold energy_variables. rewrite Hge.
    destruct (electron_energy p) as [[|e es]|]; [congruence| |]; reflexivity.
Qed.

Lemma empty_input_witness :
  exists obj,
    constructor Sample.no_reaction Exact.no_file = inr (obj, [])
    /\ _num_reactions obj = 0%nat
    /\ _reaction obj = []
    /\ _reactants obj = []
    /\ _products obj = []
    /\ _all_participants obj = []
    /\ _species_index obj = map (fun _ => 0%nat) (species Sample.no_reaction).
Proof.
  apply (empty_input Sample.no_reaction Exact.no_file);
    try reflexivity; discriminate.
Defined.

(** ** Further instances *)

Lemma energy_variables_order_witness :
  exists st,
    network Exact.template_with_energy = inr st
    /\ _energy_variable st = ["Tgas"]
    /\ _energy_variable st
       = (first_of (electron_energy Exact.template_with_energy)
          ++ first_of (gas_energy Exact.template_with_energy))%list
    /\ _electron_energy_term st
       = (map (fun _ => true) (first_of (electron_energy Exact.template_with_energy))
          ++ map (fun _ => false) (first_of (gas_energy Exact.template_with_energy)))%list
    /\ electron_energy Exact.template_with_energy <> Some []
    /\ gas_energy Exact.template_with_energy <> Some []
    /\ forall i, (i < _num_reactions st)%nat ->
         _energy_change st !! i = Some true ->
         is_Some (electron_energy Exact.template_with_energy)
         \/ is_Some (gas_energy Exact.template_with_energy).
Proof.
  assert (exists st, network Exact.template_with_energy = inr st) as [st Hnet]
    by (eexists; vm_compute; reflexivity).
  exists st. split; [exact Hnet|].
  split.
  { pose proof Hnet as Hv. vm_compute in Hv. injection Hv as <-. reflexivity. }
  apply (energy_variables_order Exact.template_with_energy st Hnet).
Defined.

Lemma reaction_stoichiometric_coeff_exact_witness :
  exists st,
    network Sample.lumped_pair = inr st
    /\ _reaction_participants st !! 2%nat = Some ["A"; "B"; "X"]
    /\ _reaction_stoichiometric_coeff st !! 2%nat = Some [-1; 1; 0]
    /\ exists reactants products participants coeffs,
         _reactants st !! 2%nat = Some reactants
         /\ _products st !! 2%nat = Some products
         /\ _reaction_participants st !! 2%nat = Some participants
         /\ _reaction_stoichiometric_coeff st !! 2%nat = Some coeffs
         /\ length coeffs = length participants
         /\ NoDup participants
         /\ (forall s, s ∈ participants
                       <-> In s (species Sample.lumped_pair)
                           /\ (In s reactants \/ In s products))
         /\ (forall j s, participants !! j = Some s ->
               coeffs !! j = Some (occurrences s products - occurrences s reactants)).
Proof.
  assert (exists st, network Sample.lumped_pair = inr st) as [st Hnet]
    by (eexists; vm_compute; reflexivity).
  exists st. split; [exact Hnet|].
  split.
  { pose proof Hnet as Hv. vm_compute in Hv. injection Hv as <-. reflexivity. }
  split.
  { pose proof Hnet as Hv. vm_compute in Hv. injection Hv as <-. reflexivity. }
  apply (reaction_stoichiometric_coeff_exact Sample.lumped_pair st 2 Hnet).
  pose proof Hnet as Hv. vm_compute in Hv. injection Hv as <-. simpl. lia.
Defined.

(** ** The equation texts of the superelastic reactions *)

Section Texts.
Context {Real : Type} `{RealOps Real}.
Variable p : InputParameters Real.
Variable n : nat.
Variable reversible : list bool.
Variable num_products : list nat.
Variable v0 : superelastic_vectors (Real := Real).
Hypothesis Hindex0 : sv_new_index v0 = Z.of_nat n - 1.
Hypothesis Htext0 : sv_new_reaction v0 = "".

Lemma reversed_texts_snoc products reactants rs i :
  reversed_texts num_products products reactants (rs ++ [i])
  = reversed_texts num_products products reactants rs
    +:+ reversed_text num_products products reactants i.
Proof. unfold reversed_texts. rewrite fold_left_app. reflexivity. Qed.

Lemma recount_texts (v v' : superelastic_vectors (Real := Real)) :
  recount p v = inr v' ->
  sv_new_reaction v' = sv_new_reaction v /\ sv_reaction v' = sv_reaction v.
Proof.
  unfold recount. destruct (species p).
  - intros Hr. apply ret_inr in Hr. subst v'. auto.
  - intros Hr. do 6 inv_bind Hr. apply ret_inr in Hr. subst v'. auto.
Qed.

Lemma reverse_reaction_texts k v v' :
  (k < n)%nat -> is_reversible reversible k = true ->
  superelastic_inv n reversible num_products v0 (length (reversibles reversible k)) v ->
  reverse_reaction num_products k v = inr v' ->
  sv_new_reaction v'
  = sv_new_reaction v
    +:+ reversed_text num_products (sv_products v0) (sv_reactants v0) k
  /\ sv_reaction v' = (sv_reaction v ++ [sv_new_reaction v'])%list.
Proof.
  intros Hk Hrev Hinv Hbody.
  set (a := length (reversibles reversible k)) in *.
  destruct Hinv.
  assert (sv_new_index v + 1 = Z.of_nat n + Z.of_nat a) as Hidx by lia.
  unfold reverse_reaction in Hbody. rewrite Hidx in Hbody.
  do 17 inv_bind Hbody. apply ret_inr in Hbody. subst v'. simpl.
  split; [|reflexivity].
  assert (forall A (X0 X : list A) (e : nat -> option A),
            written n a e X0 X -> X !! k = X0 !! k) as Hold.
  { intros A X0 X e (_ & Hf & _). apply Hf. lia. }
  apply at_inr in Hx8, Hx9, Hx13.
  apply mapM_at_seq in Hx10. destruct Hx10 as [-> Hnp].
  rewrite (Hold _ _ _ _ si_products0) in Hx9.
  assert (sv_reactants v0 !! k = Some x13) as Hreactants_k.
  { apply assign_Z_spec in Hx12.
    replace (Z.to_nat (Z.of_nat n + Z.of_nat a)) with (n + a)%nat in Hx12 by lia.
    destruct Hx12 as (_ & _ & (_ & Ho) & _).
    rewrite Ho in Hx13 by lia.
    rewrite (Hold _ _ _ _ si_reactants0) in Hx13. exact Hx13. }
  unfold reversed_text. rewrite Hx8, Hx9, Hreactants_k. reflexivity.
Qed.

Lemma superelastic_body_texts k v v' :
  (k < n)%nat ->
  superelastic_inv n reversible num_products v0 (length (reversibles reversible k)) v ->
  texts_kept n reversible num_products v0 k v ->
  superelastic_body p reversible num_products v k = inr v' ->
  texts_kept n reversible num_products v0 (S k) v'.
Proof.
  intros Hk Hinv (Htext & Hlen & Hold & Hnew) Hbody.
  unfold superelastic_body in Hbody. do 2 inv_bind Hbody. apply at_inr in Hx.
  assert (is_reversible reversible k = x) as Hrev
    by (unfold is_reversible; rewrite Hx; destruct x; reflexivity).
  apply recount_texts in Hbody. destruct Hbody as [E1 E2].
  unfold texts_kept. rewrite reversibles_S, length_app, Hrev, E1, E2.
  destruct x; simpl.
  - pose proof (reversibles_next n reversible k Hk Hrev) as Hnext.
    destruct (reverse_reaction_texts k v x0 Hk Hrev Hinv Hx0) as [T1 T2].
    rewrite Nat.add_1_r.
    assert (sv_new_reaction x0
            = reversed_texts num_products (sv_products v0) (sv_reactants v0)
                (take (S (length (reversibles reversible k)))
                   (reversibles reversible n))) as Hnew_text.
    { rewrite (take_S_r _ _ _ Hnext), reversed_texts_snoc, <- Htext. exact T1. }
    split; [exact Hnew_text|].
    split; [rewrite T2, length_app, Hlen; simpl; lia|].
    split.
    + intros j Hj. rewrite T2, lookup_app_l by lia. apply Hold. exact Hj.
    + intros a Ha. rewrite T2.
      destruct (decide (a = length (reversibles reversible k))) as [->|Hne].
      * rewrite lookup_app_r by lia.
        replace (length (sv_reaction v0) + length (reversibles reversible k)
                 - length (sv_reaction v))%nat with 0%nat by lia.
        simpl. f_equal. exact Hnew_text.
      * rewrite lookup_app_l by lia. apply Hnew. lia.
  - apply ret_inr in Hx0. subst x0. rewrite Nat.add_0_r. auto.
Qed.

Lemma superelastic_loop_texts v :
  foldM (superelastic_body p reversible num_products) (seq 0 n) v0 = inr v ->
  texts_kept n reversible num_products v0 n v.
Proof.
  intros Hloop.
  pose proof (fun H0 Hs =>
    foldM_invariant _
      (fun k v =>
         superelastic_inv n reversible num_products v0
           (length (reversibles reversible k)) v
         /\ texts_kept n reversible num_products v0 k v)
      _ _ _ H0 Hs Hloop) as Hfold.
  rewrite length_seq in Hfold. apply Hfold.
  - split; [apply superelastic_inv_start; exact Hindex0|].
    unfold texts_kept. simpl. rewrite Htext0.
    split; [reflexivity|]. split; [lia|]. split; [auto|]. intros a Ha. lia.
  - intros k i v1 v2 Hi [Hinv Htexts] Hbody.
    apply lookup_seq_0 in Hi. destruct Hi as [-> Hk].
    split; [eapply superelastic_body_inv; eassumption|].
    eapply superelastic_body_texts; eassumption.
Qed.

End Texts.

Lemma fold_left_ext_in {A B : Type} (f g : A -> B -> A) (l : list B) (a : A) :
  (forall x acc, In x l -> f acc x = g acc x) ->
  fold_left f l a = fold_left g l a.
Proof.
  revert a. induction l as [|x l IH]; intros a Hfg; [reflexivity|]. simpl.
  rewrite (Hfg x a) by (left; reflexivity). apply IH.
  intros y acc Hy. apply Hfg. right. exact Hy.
Qed.

(** X18: in the network the constructor builds, the equation text stored for
    a superelastic reaction starts with the texts stored for the
    superelastic reactions in front of it: the text of the [a]-th one is
    made of the reversed equations of the first [a + 1] reversible
    reactions, written out with [" + "] between the terms and [" -> "]
    between the sides, one after the other without a separator. The text of
    the first superelastic reaction is the reversed equation of the first
    reversible reaction. *)
Theorem superelastic_equation_texts {Real : Type} `{RealOps Real}
    (p : InputParameters Real) (st : ChemicalReactionsBase Real) (a : nat) :
  network p = inr st ->
  (a < length (reversibles (_reversible_reaction st)
                 (_num_reactions st - superelastic_reactions st)))%nat ->
  _reaction st !! (_num_reactions st - superelastic_reactions st + a)%nat
  = Some (superelastic_texts st
            (take (S a) (reversibles (_reversible_reaction st)
                           (_num_reactions st - superelastic_reactions st))))
  /\ (a = 0%nat ->
      exists i,
        reversibles (_reversible_reaction st)
          (_num_reactions st - superelastic_reactions st) !! 0%nat = Some i
        /\ _reaction st !! (_num_reactions st - superelastic_reactions st)%nat
           = Some (superelastic_text st i)).
Proof.
  intros Hn Ha.
  assert (_reaction st !! (_num_reactions st - superelastic_reactions st + a)%nat
          = Some (superelastic_texts st
                    (take (S a) (reversibles (_reversible_reaction st)
                                   (_num_reactions st - superelastic_reactions st)))))
    as Htext.
  { destruct (network_inr p st Hn) as (st0 & st1 & st2 & _ & H0 & H1 & H2 & H3).
    pose proof (parse_shape p st0 H0) as Hshape.
    pose proof (lumped_expansion_expanded p st0 st1 Hshape H1) as Hex.
    pose proof (superelastic_synthesized p st0 st1 st2 Hshape Hex H2) as Hsy.
    pose proof (stoichiometry_same p st2 st H3) as Hsn.
    assert (forall i np, _num_products st1 !! i = Some np ->
              exists row, _products st1 !! i = Some row /\ length row = np) as Hnp.
    { intros i np. apply (num_products_length p st0 st1 i np Hshape Hex). }
    assert (forall i, _reversible_reaction st1 !! i = Some true ->
              (0 < superelastic_reactions st1)%nat) as Hcounter.
    { intros i. apply (reversible_needs_counter p st0 st1 i Hshape Hex). }
    destruct Hsn, Hsy, Hex.
    destruct ex_length0 as (X1 & _ & _ & _ & _ & _ & _ & X8 & X9).
    rewrite sn_num_reactions0, sn_superelastic_reactions0, sn_reversible_reaction0,
      sy_num_reactions0, sy_superelastic_reactions0, sy_reversible_reaction0 in *.
    replace (_num_reactions st1 + superelastic_reactions st1
             - superelastic_reactions st1)%nat with (_num_reactions st1) in * by lia.
    set (rs := reversibles (_reversible_reaction st1) (_num_reactions st1)) in *.
    assert (forall i, In i (take (S a) rs) ->
              reversed_text (_num_products st1)
                (sv_products (resized p st1)) (sv_reactants (resized p st1)) i
              = superelastic_text st i) as Hsame.
    { intros i Hi. apply list_elem_of_In in Hi.
      apply elem_of_take in Hi. destruct Hi as (a' & Ha' & _).
      assert (i ∈ rs) as Hin by (eapply list_elem_of_lookup_2; exact Ha').
      apply reversibles_lt in Hin. destruct Hin as [Hlt _].
      unfold superelastic_synthesis in H2. fold (resized p st1) in H2.
      inv_bind H2.
      destruct (decide (0 < superelastic_reactions st1)%nat) as [Hpos|Hzero].
      - apply (superelastic_loop_inv p (_num_reactions st1) (_reversible_reaction st1)
                 (_num_products st1) (resized p st1) eq_refl) in Hx.
        destruct Hx. destruct si_reactants0 as (_ & _ & Hnew).
        destruct (Hnew a' ltac:(eapply lookup_lt_Some; exact Ha')) as [_ [r Hr]].
        unfold reversed_of, new_reactants_of in Hr. fold rs in Hr.
        rewrite Ha' in Hr.
        destruct (sv_products (resized p st1) !! i) as [row|] eqn:Hrow; [|discriminate].
        destruct (_num_products st1 !! i) as [np|] eqn:Enp; [|discriminate].
        destruct (Hnp i np Enp) as (row' & Hrow' & Hlen).
        unfold resized in Hrow. simpl in Hrow.
        rewrite lookup_resize in Hrow by lia. rewrite Hrow' in Hrow.
        injection Hrow as <-.
        unfold reversed_text, superelastic_text, resized. simpl.
        rewrite Enp, !lookup_resize by lia. simpl.
        rewrite sn_products0, sn_reactants0.
        destruct (sy_old0 i Hlt) as (_ & _ & -> & -> & _).
        rewrite Hrow'. simpl. rewrite take_ge by lia. reflexivity.
      - exfalso. apply Hzero.
        assert (i ∈ rs) as Hin by (eapply list_elem_of_lookup_2; exact Ha').
        apply reversibles_lt in Hin. destruct Hin as [_ Hrev].
        apply (Hcounter i). unfold is_reversible in Hrev.
        destruct (_reversible_reaction st1 !! i) as [[|]|]; congruence. }
    unfold superelastic_texts.
    rewrite <- (fold_left_ext_in _ _ _ _
                  (fun x acc Hx => f_equal (fun t => acc +:+ t) (Hsame x Hx))).
    rewrite sn_reaction0.
    unfold superelastic_synthesis in H2. fold (resized p st1) in H2.
    inv_bind H2. apply ret_inr in H2. subst st2. simpl.
    destruct (decide (0 < superelastic_reactions st1)%nat) as [Hpos|Hzero].
    - apply (superelastic_loop_texts p (_num_reactions st1) (_reversible_reaction st1)
               (_num_products st1) (resized p st1) eq_refl eq_refl) in Hx.
      destruct Hx as (_ & _ & _ & Hnew).
      specialize (Hnew a Ha). unfold resized in Hnew at 1. simpl in Hnew.
      rewrite X1 in Hnew. exact Hnew.
    - exfalso. apply Hzero.
      destruct (rs !! a) as [i|] eqn:Hi.
      + assert (i ∈ rs) as Hin by (eapply list_elem_of_lookup_2; exact Hi).
        apply reversibles_lt in Hin. destruct Hin as [_ Hrev].
        apply (Hcounter i). unfold is_reversible in Hrev.
        destruct (_reversible_reaction st1 !! i) as [[|]|]; congruence.
      + apply lookup_ge_None in Hi. lia. }
  split; [exact Htext|].
  intros ->. rewrite Nat.add_0_r in Htext.
  destruct (reversibles (_reversible_reaction st)
              (_num_reactions st - superelastic_reactions st)) as [|i rs] eqn:Hrs;
    [simpl in Ha; lia|].
  exists i. split; [reflexivity|]. rewrite Htext. reflexivity.
Qed.

Lemma superelastic_equation_texts_witness :
  exists st,
    network Sample.two_reversible = inr st
    /\ _reaction st = ["A <=> B"; "C + D <-> E"; "B -> A"; "B -> AE -> C + D"]
    /\ _reaction st !! (_num_reactions st - superelastic_reactions st + 1)%nat
       = Some (superelastic_texts st
                 (take 2 (reversibles (_reversible_reaction st)
                            (_num_reactions st - superelastic_reactions st))))
    /\ (1%nat = 0%nat ->
        exists i,
          reversibles (_reversible_reaction st)
            (_num_reactions st - superelastic_reactions st) !! 0%nat = Some i
          /\ _reaction st !! (_num_reactions st - superelastic_reactions st)%nat
             = Some (superelastic_text st i)).
Proof.
  assert (exists st, network Sample.two_reversible = inr st) as [st Hnet]
    by (eexists; vm_compute; reflexivity).
  exists st. split; [exact Hnet|].
  split.
  { pose proof Hnet as Hv. vm_compute in Hv. injection Hv as <-. reflexivity. }
  apply (superelastic_equation_texts Sample.two_reversible st 1 Hnet).
  pose proof Hnet as Hv. vm_compute in Hv. injection Hv as <-. vm_compute. lia.
Defined.

Lemma vector_sizes_witness :
  exists st0 st,
    parse Sample.counted = inr st0
    /\ network Sample.counted = inr st
    /\ _num_reactions st0 = 2%nat
    /\ _num_reactions st = 7%nat
    /\ superelastic_reactions st = 1%nat
    /\ (length (_reactants st) = _num_reactions st
        /\ length (_products st) = _num_reactions st
        /\ length (_rate_coefficient st) = _num_reactions st
        /\ length (_threshold_energy st) = _num_reactions st
        /\ length (_rate_equation st) = _num_reactions st
        /\ length (_energy_change st) = _num_reactions st
        /\ length (_species_count st) = _num_reactions st
        /\ length (_superelastic_index st) = _num_reactions st
        /\ length (_superelastic_reaction st) = _num_reactions st
        /\ length (_reaction_participants st) = _num_reactions st
        /\ length (_reaction_stoichiometric_coeff st) = _num_reactions st)
    /\ (length (_rate_type st) = (_num_reactions st - superelastic_reactions st)%nat
        /\ length (_rate_equation_string st)
           = (_num_reactions st - superelastic_reactions st)%nat
        /\ length (_reversible_reaction st)
           = (_num_reactions st - superelastic_reactions st)%nat
        /\ length (_reaction_lumped st)
           = (_num_reactions st - superelastic_reactions st)%nat)
    /\ (length (_is_identified st) = _num_reactions st0
        /\ length (_reaction_identifier st) = _num_reactions st0
        /\ length (_elastic_collision st) = _num_reactions st0
        /\ length (_electron_index st) = _num_reactions st0
        /\ length (_num_reactants st) = _num_reactions st0
        /\ length (_num_products st) = _num_reactions st0)
    /\ (_num_reactions st - superelastic_reactions st <= length (_reaction st)
        <= _num_reactions st)%nat
    /\ length (_stoichiometric_coeff st) = length (_reaction st)
    /\ length (_species_index st) = length (species Sample.counted).
Proof.
  assert (exists st0, parse Sample.counted = inr st0) as [st0 Hparse]
    by (eexists; vm_compute; reflexivity).
  assert (exists st, network Sample.counted = inr st) as [st Hnet]
    by (eexists; vm_compute; reflexivity).
  exists st0, st. split; [exact Hparse|]. split; [exact Hnet|].
  split.
  { pose proof Hparse as Hv. vm_compute in Hv. injection Hv as <-. reflexivity. }
  split.
  { pose proof Hnet as Hv. vm_compute in Hv. injection Hv as <-. reflexivity. }
  split.
  { pose proof Hnet as Hv. vm_compute in Hv. injection Hv as <-. reflexivity. }
  apply (vector_sizes Sample.counted st0 st Hparse Hnet).
Defined.

(** ** Reactions made by lumped expansion *)

(** X16: in the network the constructor builds, a reaction [j] that the
    lumped expansion created has the reactants and the products of its
    template with every placeholder replaced by one lumped species, and the
    equation text of the template, placeholder included. Its template is
    entry [(j - n) / L] of [_lumped_reaction] and its lumped species is
    entry [(j - n) mod L] of [lumped], for [n] reactions read from the input
    and [L] lumped species. *)
Theorem lumped_reaction_substituted {Real : Type} `{RealOps Real}
    (p : InputParameters Real) (st0 st : ChemicalReactionsBase Real) (j : nat) :
  parse p = inr st0 ->
  network p = inr st ->
  (_num_reactions st0 <= j < _num_reactions st - superelastic_reactions st)%nat ->
  exists t sp reactants products,
    _lumped_reaction st
      !! ((j - _num_reactions st0) / length (getParam_vector (lumped p)))%nat = Some t
    /\ getParam_vector (lumped p)
         !! ((j - _num_reactions st0) mod length (getParam_vector (lumped p)))%nat
       = Some sp
    /\ (t < _num_reactions st0)%nat
    /\ _reactants st !! t = Some reactants
    /\ _products st !! t = Some products
    /\ _reactants st !! j
       = Some (map (substitute (getParam_string (lumped_name p)) sp) reactants)
    /\ _products st !! j
       = Some (map (substitute (getParam_string (lumped_name p)) sp) products)
    /\ _reaction st !! j = _reaction st !! t.
Proof.
  intros Hparse Hn Hj.
  destruct (network_inr p st Hn) as (st0' & st1 & st2 & _ & H0 & H1 & H2 & H3).
  rewrite Hparse in H0. injection H0 as <-.
  pose proof (parse_shape p st0 Hparse) as Hshape.
  pose proof (lumped_expansion_expanded p st0 st1 Hshape H1) as Hex.
  pose proof (superelastic_synthesized p st0 st1 st2 Hshape Hex H2) as Hsy.
  pose proof (stoichiometry_same p st2 st H3) as Hsn.
  destruct Hsn, Hsy, Hex.
  rewrite sn_num_reactions0, sn_superelastic_reactions0, sy_num_reactions0,
    sy_superelastic_reactions0 in Hj.
  rewrite sn_lumped_reaction0, sy_lumped_reaction0, ex_lumped_reaction0,
    sn_reactants0, sn_products0, sn_reaction0.
  destruct (ex_new0 j ltac:(lia)) as
    (_ & t & sp & tr & tp & Ht & Htemplate & Hsp & Nreaction & _ & _ & _ & _ & _ & _
       & Htr & Nreactants & Htp & Nproducts).
  destruct (ex_old0 t Ht) as (Oreaction & _ & _ & _ & _ & _ & _ & Oreactants & Oproducts).
  exists t, sp, tr, tp.
  destruct (sy_old0 j ltac:(lia)) as (-> & _ & -> & -> & _).
  destruct (sy_old0 t ltac:(lia)) as (-> & _ & -> & -> & _).
  rewrite Oreactants, Oproducts, Oreaction.
  repeat split; assumption.
Qed.

Lemma lumped_reaction_substituted_witness :
  exists st0 st,
    parse Sample.lumped_pair = inr st0
    /\ network Sample.lumped_pair = inr st
    /\ _reactants st !! 3%nat = Some ["A"; "Y"]
    /\ _products st !! 3%nat = Some ["B"; "Y"]
    /\ _reaction st !! 3%nat = Some "A + M -> B + M"
    /\ exists t sp reactants products,
         _lumped_reaction st
           !! ((3 - _num_reactions st0)
               / length (getParam_vector (lumped Sample.lumped_pair)))%nat = Some t
         /\ getParam_vector (lumped Sample.lumped_pair)
              !! ((3 - _num_reactions st0)
                  mod length (getParam_vector (lumped Sample.lumped_pair)))%nat
            = Some sp
         /\ (t < _num_reactions st0)%nat
         /\ _reactants st !! t = Some reactants
         /\ _products st !! t = Some products
         /\ _reactants st !! 3%nat
            = Some (map (substitute (getParam_string (lumped_name Sample.lumped_pair)) sp)
                      reactants)
         /\ _products st !! 3%nat
            = Some (map (substitute (getParam_string (lumped_name Sample.lumped_pair)) sp)
                      products)
         /\ _reaction st !! 3%nat = _reaction st !! t.
Proof.
  assert (exists st0, parse Sample.lumped_pair = inr st0) as [st0 Hparse]
    by (eexists; vm_compute; reflexivity).
  assert (exists st, network Sample.lumped_pair = inr st) as [st Hnet]
    by (eexists; vm_compute; reflexivity).
  exists st0, st. split; [exact Hparse|]. split; [exact Hnet|].
  split.
  { pose proof Hnet as Hv. vm_compute in Hv. injection Hv as <-. reflexivity. }
  split.
  { pose proof Hnet as Hv. vm_compute in Hv. injection Hv as <-. reflexivity. }
  split.
  { pose proof Hnet as Hv. vm_compute in Hv. injection Hv as <-. reflexivity. }
  apply (lumped_reaction_substituted Sample.lumped_pair st0 st 3 Hparse Hnet).
  pose proof Hparse as Hv. vm_compute in Hv. injection Hv as <-.
  pose proof Hnet as Hw. vm_compute in Hw. injection Hw as <-.
  simpl. lia.
Defined.

(** ** The reaction numbers by rate type *)

Lemma numbers_of_snoc {A : Type} (f : A -> bool) (l : list A) (x : A) :
  numbers_of f (l ++ [x]) (S (length l))
  = (numbers_of f l (length l) ++ if f x then [length l] else [])%list.
Proof.
  unfold numbers_of. rewrite seq_S, List.filter_app. simpl. f_equal.
  - apply List.filter_ext_in. intros i Hi. apply in_seq in Hi.
    rewrite lookup_app_l by lia. reflexivity.
  - rewrite lookup_app_r by lia. rewrite Nat.sub_diag. simpl.
    destruct (f x); reflexivity.
Qed.

Lemma numbers_of_In {A : Type} (f : A -> bool) (l : list A) (i : nat) :
  In i (numbers_of f l (length l)) <-> exists x, l !! i = Some x /\ f x = true.
Proof.
  unfold numbers_of. rewrite List.filter_In, in_seq. split.
  - intros [_ Hf]. destruct (l !! i) as [x|]; [eauto | discriminate].
  - intros (x & Hx & Hf). rewrite Hx. split; [|exact Hf].
    apply lookup_lt_Some in Hx. lia.
Qed.

Lemma length_filter_numbers {A : Type} (f : A -> bool) (l : list A) :
  length (List.filter f l) = length (numbers_of f l (length l)).
Proof.
  induction l as [|x l IH] using rev_ind; [reflexivity|].
  replace (length (l ++ [x])) with (S (length l))
    by (rewrite length_app; simpl; lia).
  rewrite numbers_of_snoc, List.filter_app, !length_app, IH. simpl.
  destruct (f x); reflexivity.
Qed.

Lemma numbered_snoc (lfs : list line_fields) (lf : line_fields) :
  numbered (lfs ++ [lf]) = number_step (numbered lfs) (length lfs, lf).
Proof.
  unfold numbered. rewrite imap_app, fold_left_app. simpl.
  rewrite Nat.add_0_r. reflexivity.
Qed.

Lemma numbered_spec (lfs : list line_fields) :
  _eedf_reaction_number (numbered lfs) = numbers_of is_eedf_line lfs (length lfs)
  /\ _function_reaction_number (numbered lfs)
     = numbers_of is_function_line lfs (length lfs)
  /\ _constant_reaction_number (numbered lfs)
     = numbers_of is_constant_line lfs (length lfs)
  /\ _num_function_reactions (numbered lfs)
     = length (_function_reaction_number (numbered lfs))
  /\ _num_constant_reactions (numbered lfs)
     = length (_constant_reaction_number (numbered lfs))
  /\ (length (_eedf_reaction_number (numbered lfs))
      + length (_function_reaction_number (numbered lfs))
      + length (_constant_reaction_number (numbered lfs)))%nat = length lfs.
Proof.
  induction lfs as [|lf lfs IH] using rev_ind; [repeat split; reflexivity|].
  destruct IH as (E1 & E2 & E3 & E4 & E5 & E6).
  rewrite numbered_snoc.
  replace (length (lfs ++ [lf])) with (S (length lfs))
    by (rewrite length_app; simpl; lia).
  rewrite !numbers_of_snoc, <- E1, <- E2, <- E3.
  unfold number_step, is_function_line, is_constant_line, is_eedf_line.
  cbn [fst snd].
  destruct (String.eqb (lf_rate_coefficient_string lf) "EEDF"); cbn.
  - rewrite !app_nil_r, length_app. cbn. repeat split; auto; lia.
  - destruct (lf_rate_equation lf); cbn;
      rewrite !app_nil_r, length_app; cbn; repeat split; auto; lia.
Qed.

(** X10: the classifier files the number of every reaction read from the
    input in exactly one of [_eedf_reaction_number],
    [_function_reaction_number] and [_constant_reaction_number], by its rate
    type; the three counters are the sizes of the three vectors, and they
    add up to the number of these reactions. *)
Theorem reaction_numbers_partition {Real : Type} `{RealOps Real}
    (p : InputParameters Real) (st0 : ChemicalReactionsBase Real)
    (lfs : list line_fields) :
  parse p = inr st0 ->
  parse_lines (reactions p) = inr lfs ->
  (forall i, In i (_eedf_reaction_number (numbered lfs))
             <-> _rate_type st0 !! i = Some "EEDF")
  /\ (forall i, In i (_function_reaction_number (numbered lfs))
                <-> _rate_type st0 !! i = Some "Equation")
  /\ (forall i, In i (_constant_reaction_number (numbered lfs))
                <-> _rate_type st0 !! i = Some "Constant")
  /\ _num_eedf_reactions st0 = length (_eedf_reaction_number (numbered lfs))
  /\ _num_function_reactions (numbered lfs)
     = length (_function_reaction_number (numbered lfs))
  /\ _num_constant_reactions (numbered lfs)
     = length (_constant_reaction_number (numbered lfs))
  /\ (_num_eedf_reactions st0 + _num_function_reactions (numbered lfs)
      + _num_constant_reactions (numbered lfs))%nat = _num_reactions st0.
Proof.
  intros Hparse Hlines.
  destruct (parse_inr p st0 Hparse) as
    (lfs' & rfs & rows & Hlines' & Hrates & _ & Hlen1 & _ & ->).
  rewrite Hlines in Hlines'. injection Hlines' as <-.
  destruct (numbered_spec lfs) as (E1 & E2 & E3 & E4 & E5 & E6).
  assert (forall i kind (f : line_fields -> bool),
            (forall lf (rf : rate_fields Real), classify_rate lf = inr rf ->
               f lf = true <-> rf_rate_type rf = kind) ->
            In i (numbers_of f lfs (length lfs))
            <-> map rf_rate_type rfs !! i = Some kind) as Hmember.
  { intros i kind f Hf. rewrite numbers_of_In, list_lookup_fmap. split.
    - intros (lf & Hlf & Hflf).
      destruct (mapM_inr_lookup _ _ _ _ _ Hrates Hlf) as (rf & -> & Hclass).
      simpl. f_equal. apply (Hf lf rf Hclass). exact Hflf.
    - intros Hkind. destruct (rfs !! i) as [rf|] eqn:Hrf; [|discriminate].
      injection Hkind as Hkind.
      assert (is_Some (lfs !! i)) as [lf Hlf].
      { apply lookup_lt_is_Some. apply lookup_lt_Some in Hrf. lia. }
      destruct (mapM_inr_lookup _ _ _ _ _ Hrates Hlf) as (rf' & Hrf' & Hclass).
      rewrite Hrf in Hrf'. injection Hrf' as <-.
      exists lf. split; [exact Hlf|]. apply (Hf lf rf Hclass). exact Hkind. }
  assert (forall lf (rf : rate_fields Real), classify_rate lf = inr rf ->
            (is_eedf_line lf = true <-> rf_rate_type rf = "EEDF")
            /\ (is_function_line lf = true <-> rf_rate_type rf = "Equation")
            /\ (is_constant_line lf = true <-> rf_rate_type rf = "Constant")) as Hkinds.
  { intros lf rf Hclass. unfold is_function_line, is_constant_line, is_eedf_line.
    destruct (classify_rate_types lf rf Hclass) as
      [(-> & _ & ->)|[(-> & _ & Hne & ->)|(-> & Hne & ->)]]; simpl.
    - repeat split; intros; congruence.
    - apply String.eqb_neq in Hne. rewrite Hne. simpl.
      repeat split; intros; congruence.
    - apply String.eqb_neq in Hne. rewrite Hne. simpl.
      repeat split; intros; congruence. }
  simpl.
  assert (length (List.filter (fun rf => String.eqb (rf_rate_type rf) "EEDF") rfs)
          = length (_eedf_reaction_number (numbered lfs))) as Heedf.
  { rewrite length_filter_numbers, E1, Hlen1. f_equal.
    unfold numbers_of. apply List.filter_ext_in. intros i Hi. apply in_seq in Hi.
    assert (is_Some (lfs !! i)) as [lf Hlf] by (apply lookup_lt_is_Some; lia).
    destruct (mapM_inr_lookup _ _ _ _ _ Hrates Hlf) as (rf & -> & Hclass).
    rewrite Hlf. destruct (Hkinds lf rf Hclass) as ([K1 K2] & _).
    destruct (is_eedf_line lf) eqn:El.
    - rewrite (K1 eq_refl). reflexivity.
    - destruct (String.eqb_spec (rf_rate_type rf) "EEDF") as [E|E]; [|reflexivity].
      specialize (K2 E). discriminate. }
  split.
  { intros i. rewrite E1. apply Hmember. intros lf rf Hc. apply (Hkinds lf rf Hc). }
  split.
  { intros i. rewrite E2. apply Hmember. intros lf rf Hc. apply (Hkinds lf rf Hc). }
  split.
  { intros i. rewrite E3. apply Hmember. intros lf rf Hc. apply (Hkinds lf rf Hc). }
  split; [exact Heedf|]. split; [exact E4|]. split; [exact E5|].
  rewrite Heedf, E4, E5. exact E6.
Qed.

Lemma reaction_numbers_partition_witness :
  exists st0 lfs,
    parse Exact.tagged_second = inr st0
    /\ parse_lines (reactions Exact.tagged_second) = inr lfs
    /\ (_num_eedf_reactions st0 + _num_function_reactions (numbered lfs)
        + _num_constant_reactions (numbered lfs))%nat = _num_reactions st0.
Proof.
  assert (exists st0, parse Exact.tagged_second = inr st0) as [st0 Hparse]
    by (eexists; vm_compute; reflexivity).
  assert (exists lfs, parse_lines (reactions Exact.tagged_second) = inr lfs)
    as [lfs Hlines] by (eexists; vm_compute; reflexivity).
  exists st0, lfs. split; [exact Hparse|]. split; [exact Hlines|].
  apply (reaction_numbers_partition Exact.tagged_second st0 lfs Hparse Hlines).
Defined.

(** ** Threshold energies and elastic collisions *)

Lemma classify_rate_threshold {Real : Type} `{RealOps Real}
    (lf : line_fields) (rf : rate_fields Real) :
  classify_rate lf = inr rf ->
  parse_threshold_energy (lf_threshold_energy_string lf)
  = inr (rf_threshold_energy rf, rf_elastic_collision rf).
Proof.
  unfold classify_rate. intros Hc. inv_bind Hc. destruct x as [te el].
  destruct (String.eqb (lf_rate_coefficient_string lf) "EEDF");
    [|destruct (lf_rate_equation lf);
      [|destruct (stod (lf_rate_coefficient_string lf)); try discriminate]];
    apply ret_inr in Hc; subst rf; exact Hx.
Qed.

(** X6: in the network the constructor builds, a reaction read from the
    input is flagged as an elastic collision exactly when the text between
    the brackets of its line is [elastic]. Its threshold energy is [0] when
    the line has no bracket, an empty bracket or [elastic], and otherwise
    the number [std::stod] reads from the text between the brackets; the
    later stages do not change it. *)
Theorem threshold_energies {Real : Type} `{RealOps Real}
    (p : InputParameters Real) (st : ChemicalReactionsBase Real)
    (lfs : list line_fields) (i : nat) (lf : line_fields) :
  parse_lines (reactions p) = inr lfs ->
  network p = inr st ->
  lfs !! i = Some lf ->
  _elastic_collision st !! i
  = Some (String.eqb (lf_threshold_energy_string lf) "elastic")
  /\ (lf_threshold_energy_string lf = "" \/ lf_threshold_energy_string lf = "elastic" ->
      _threshold_energy st !! i = Some (Real_of_Z 0))
  /\ (lf_threshold_energy_string lf <> "" ->
      lf_threshold_energy_string lf <> "elastic" ->
      exists v,
        stod (lf_threshold_energy_string lf) = StodValue v
        /\ _threshold_energy st !! i = Some v).
Proof.
  intros Hlines Hn Hlf.
  destruct (network_stages p st Hn) as
    (st0 & st1 & st2 & Hparse & Hshape & Hex & Hsy & Hsn & _).
  destruct (network_untouched p st0 st Hparse Hn) as (_ & _ & _ & _ & Hel & _).
  destruct (parse_inr p st0 Hparse) as
    (lfs' & rfs & rows & Hlines' & Hrates & _ & Hlen1 & Hlen2 & Hst0).
  rewrite Hlines in Hlines'. injection Hlines' as <-.
  destruct (mapM_inr_lookup _ _ _ _ _ Hrates Hlf) as (rf & Hrf & Hclass).
  apply classify_rate_threshold in Hclass.
  assert (_threshold_energy st !! i = Some (rf_threshold_energy rf)) as Hte.
  { destruct Hsn, Hsy, Hex.
    assert (i < _num_reactions st0)%nat as Hi.
    { subst st0. simpl. apply lookup_lt_Some in Hlf. lia. }
    rewrite sn_threshold_energy0.
    destruct (sy_old0 i ltac:(lia)) as (_ & _ & _ & _ & -> & _).
    rewrite ex_threshold_energy0. subst st0. simpl in *.
    rewrite lookup_resize by (rewrite ?length_map; lia).
    rewrite list_lookup_fmap, Hrf. reflexivity. }
  assert (_elastic_collision st !! i = Some (rf_elastic_collision rf)) as Hec.
  { rewrite Hel. subst st0. simpl. rewrite list_lookup_fmap, Hrf. reflexivity. }
  rewrite Hte, Hec. unfold parse_threshold_energy in Hclass.
  destruct (String.eqb_spec (lf_threshold_energy_string lf) "") as [E|E].
  { apply ret_inr in Hclass. injection Hclass as <- <-. rewrite E. simpl.
    split; [reflexivity|]. split; [reflexivity|]. intros; contradiction. }
  destruct (String.eqb_spec (lf_threshold_energy_string lf) "elastic") as [E'|E'].
  { apply ret_inr in Hclass. injection Hclass as <- <-.
    split; [reflexivity|]. split; [reflexivity|]. intros; contradiction. }
  destruct (stod (lf_threshold_energy_string lf)) as [v| |]; try discriminate.
  apply ret_inr in Hclass. injection Hclass as <- <-.
  split; [reflexivity|]. split; [intros [?|?]; contradiction|].
  intros _ _. exists v. split; reflexivity.
Qed.

Lemma threshold_energies_witness :
  exists st lf,
    network Exact.template_with_energy = inr st
    /\ lf_threshold_energy_string lf = "3.5"
    /\ _elastic_collision st !! 0%nat
       = Some (String.eqb (lf_threshold_energy_string lf) "elastic")
    /\ exists v,
         stod (lf_threshold_energy_string lf) = StodValue v
         /\ _threshold_energy st !! 0%nat = Some v.
Proof.
  assert (exists st, network Exact.template_with_energy = inr st) as [st Hnet]
    by (eexists; vm_compute; reflexivity).
  assert (exists lfs, parse_lines (reactions Exact.template_with_energy) = inr lfs)
    as [lfs Hlines] by (eexists; vm_compute; reflexivity).
  assert (exists lf, lfs !! 0%nat = Some lf /\ lf_threshold_energy_string lf = "3.5")
    as (lf & Hlf & Htext).
  { pose proof Hlines as Hv. vm_compute in Hv. injection Hv as <-.
    eexists. split; reflexivity. }
  exists st, lf. split; [exact Hnet|]. split; [exact Htext|].
  destruct (threshold_energies Exact.template_with_energy st lfs 0 lf Hlines Hnet Hlf)
    as (Hel & _ & Hte).
  split; [exact Hel|]. apply Hte; rewrite Htext; discriminate.
Defined.
